(** * docs-guardrails: a shallow embedding of [scripts/docs-guardrails.mjs]

    The script resolves a tool manifest, extracts the tool names, checks that
    every name is mentioned in some [.mdx] file under [tools/], scans the
    documentation for banned domains and reports.  Strings are sequences of
    UTF-16 code units, the filesystem is a tree of named nodes, and every
    effect of the script (filesystem calls, the HTTPS request, console output)
    is logged in a trace. *)

From Stdlib Require Import Ascii String.
From Stdlib Require Import List NArith ZArith Bool Arith Lia Sorted.
From Stdlib Require QArith.
Import ListNotations.

Set Warnings "-register-all".

Local Open Scope N_scope.

(** ** Strings *)

(** A JavaScript string: a sequence of UTF-16 code units. *)
Definition str := list N.

(** A string literal of the script (ASCII). *)
Definition lit (s : string) : str := map N_of_ascii (list_ascii_of_string s).

Fixpoint str_eqb (a b : str) : bool :=
  match a, b with
  | [], [] => true
  | x :: a', y :: b' => (x =? y) && str_eqb a' b'
  | _, _ => false
  end.

(** [String.prototype.startsWith]. *)
Fixpoint startsWith (s p : str) {struct p} : bool :=
  match p, s with
  | [], _ => true
  | y :: p', x :: s' => (x =? y) && startsWith s' p'
  | _ :: _, [] => false
  end.

(** [String.prototype.endsWith]. *)
Definition endsWith (s p : str) : bool := startsWith (rev s) (rev p).

(** [String.prototype.includes]: plain substring containment. *)
Fixpoint includes (s p : str) : bool :=
  startsWith s p ||
  match s with
  | [] => false
  | _ :: s' => includes s' p
  end.

(** WhiteSpace and LineTerminator code units, as [String.prototype.trim]
    strips them. *)
Definition isWhiteSpace (c : N) : bool :=
  (c =? 9) || (c =? 10) || (c =? 11) || (c =? 12) || (c =? 13) || (c =? 32)
  || (c =? 160) || (c =? 5760) || ((8192 <=? c) && (c <=? 8202))
  || (c =? 8232) || (c =? 8233) || (c =? 8239) || (c =? 8287)
  || (c =? 12288) || (c =? 65279).

Fixpoint trimStart (s : str) : str :=
  match s with
  | [] => []
  | c :: s' => if isWhiteSpace c then trimStart s' else s
  end.

Definition trim (s : str) : str := rev (trimStart (rev (trimStart s))).

(** [txt.split(/\r?\n/)]: the separator matches a line feed, or a carriage
    return immediately followed by a line feed; [cur] is the current line,
    reversed. *)
Fixpoint splitLinesFrom (s : str) (cur : str) : list str :=
  match s with
  | [] => [rev cur]
  | c :: s1 =>
      if c =? 10 then rev cur :: splitLinesFrom s1 []
      else
        match s1 with
        | d :: s2 =>
            if (c =? 13) && (d =? 10) then rev cur :: splitLinesFrom s2 []
            else splitLinesFrom s1 (c :: cur)
        | [] => splitLinesFrom s1 (c :: cur)
        end
  end.

Definition splitLines (txt : str) : list str := splitLinesFrom txt [].

(** Decimal rendering of a number in a template literal. *)
Fixpoint digitsFrom (fuel : nat) (n : N) (acc : str) : str :=
  match fuel with
  | O => acc
  | S f =>
      let acc' := (48 + n mod 10) :: acc in
      if n <? 10 then acc' else digitsFrom f (n / 10) acc'
  end.

Definition decimal (n : nat) : str := digitsFrom (S n) (N.of_nat n) [].

(** Code-unit order on strings, the order of [Array.prototype.sort] without a
    comparator. *)
Fixpoint str_ltb (a b : str) : bool :=
  match a, b with
  | [], [] => false
  | [], _ :: _ => true
  | _ :: _, [] => false
  | x :: a', y :: b' => (x <? y) || ((x =? y) && str_ltb a' b')
  end.

Definition str_leb (a b : str) : bool := negb (str_ltb b a).

(** ** JavaScript values and the runtime *)

(** What [JSON.parse] can produce.  An object is its list of own properties. *)
Inductive value :=
| VNull
| VBool (b : bool)
| VNum (q : QArith_base.Q)
| VStr (s : str)
| VArr (items : list value)
| VObj (props : list (str * value)).

(** An [Error] object: its message and the stack the engine attached. *)
Record exn := mkExn { message : str; stack : str }.

(** What the script takes from the JavaScript engine: the Unicode upper-case
    mapping of a single code unit, [JSON.parse] (an error message or a value)
    and the stack attached to a [new Error(msg)]. *)
Record Runtime := mkRuntime {
  toUpperCase : N -> str;
  JSON_parse : str -> str + value;
  captureStack : str -> str
}.

Definition newError (rt : Runtime) (msg : str) : exn :=
  mkExn msg (captureStack rt msg).

(** ** Regular expressions *)

(** The fragment of the pattern syntax the script uses, with the
    metacharacters [escapeRegExp] guards against. *)
Inductive regex :=
| Empty
| Char (c : N)
| AnyChar
| Class (invert : bool) (ranges : list (N * N))
| Bol
| Eol
| Seq (r1 r2 : regex)
| Alt (r1 r2 : regex)
| Group (r : regex)
| Star (r : regex)
| Opt (r : regex).

Inductive token :=
| TChar (c : N)
| TDot | TStar | TPlus | TQuest | TBar | TLParen | TRParen | TCaret | TDollar
| TClass (invert : bool) (ranges : list (N * N)).

(** SyntaxCharacter: [^ $ \ . * + ? ( ) [ ] { } |]. *)
Definition isSyntaxCharacter (c : N) : bool :=
  existsb (N.eqb c) (lit "^$\.*+?()[]{}|").

(** The body of a character class up to the closing bracket. *)
Fixpoint lexClassBody (s : str) (acc : list (N * N)) : option (list (N * N) * str) :=
  match s with
  | [] => None
  | a :: s1 =>
      if a =? 93 then Some (rev acc, s1)
      else if a =? 92 then
        match s1 with
        | [] => None
        | x :: s2 =>
            if isSyntaxCharacter x || (x =? 45)
            then lexClassBody s2 ((x, x) :: acc) else None
        end
      else
        match s1 with
        | d :: b :: s3 =>
            if (d =? 45) && negb (b =? 93) then
              if b =? 92 then None
              else if a <=? b then lexClassBody s3 ((a, b) :: acc) else None
            else lexClassBody s1 ((a, a) :: acc)
        | _ => lexClassBody s1 ((a, a) :: acc)
        end
  end.

(** Pattern text to tokens.  [None] is a SyntaxError, or syntax outside the
    modelled fragment (braces, class escapes, look-around). *)
Fixpoint lex (fuel : nat) (s : str) : option (list token) :=
  match fuel with
  | O => None
  | S f =>
      match s with
      | [] => Some []
      | c :: s1 =>
          if c =? 92 then
            match s1 with
            | [] => None
            | x :: s2 =>
                if isSyntaxCharacter x || (x =? 47) || (x =? 45)
                then option_map (cons (TChar x)) (lex f s2) else None
            end
          else if c =? 91 then
            let '(inv, body) :=
              match s1 with
              | x :: b => if x =? 94 then (true, b) else (false, s1)
              | [] => (false, s1)
              end in
            match lexClassBody body [] with
            | None => None
            | Some (rs, rest) => option_map (cons (TClass inv rs)) (lex f rest)
            end
          else if (c =? 123) || (c =? 125) then None
          else
            let t :=
              if c =? 46 then TDot else if c =? 42 then TStar
              else if c =? 43 then TPlus else if c =? 63 then TQuest
              else if c =? 124 then TBar else if c =? 40 then TLParen
              else if c =? 41 then TRParen else if c =? 94 then TCaret
              else if c =? 36 then TDollar else TChar c in
            option_map (cons t) (lex f s1)
      end
  end.

(** A quantifier after an atom; a following [?] only makes it lazy, and
    [a+] is [a] followed by [a*]. *)
Definition quantified (a : regex) (ts : list token) : regex * list token :=
  let lazy (r : list token) := match r with TQuest :: r' => r' | _ => r end in
  match ts with
  | TStar :: r => (Star a, lazy r)
  | TPlus :: r => (Seq a (Star a), lazy r)
  | TQuest :: r => (Opt a, lazy r)
  | _ => (a, ts)
  end.

(** Disjunction and Alternative of the pattern grammar. *)
Fixpoint parseDisjunction (fuel : nat) (ts : list token) : option (regex * list token) :=
  match fuel with
  | O => None
  | S f =>
      match parseAlternative f ts with
      | None => None
      | Some (a, TBar :: rest) =>
          match parseDisjunction f rest with
          | None => None
          | Some (d, rest') => Some (Alt a d, rest')
          end
      | Some (a, rest) => Some (a, rest)
      end
  end
with parseAlternative (fuel : nat) (ts : list token) : option (regex * list token) :=
  match fuel with
  | O => None
  | S f =>
      let term (a : regex) (rest : list token) :=
        let '(q, rest') := quantified a rest in
        match parseAlternative f rest' with
        | None => None
        | Some (r, rest'') => Some (Seq q r, rest'')
        end in
      let assertion (a : regex) (rest : list token) :=
        match parseAlternative f rest with
        | None => None
        | Some (r, rest'') => Some (Seq a r, rest'')
        end in
      match ts with
      | [] => Some (Empty, ts)
      | TBar :: _ => Some (Empty, ts)
      | TRParen :: _ => Some (Empty, ts)
      | TChar c :: rest => term (Char c) rest
      | TDot :: rest => term AnyChar rest
      | TClass inv rs :: rest => term (Class inv rs) rest
      | TCaret :: rest => assertion Bol rest
      | TDollar :: rest => assertion Eol rest
      | TLParen :: rest =>
          match parseDisjunction f rest with
          | Some (d, TRParen :: rest') => term (Group d) rest'
          | _ => None
          end
      | TStar :: _ => None
      | TPlus :: _ => None
      | TQuest :: _ => None
      end
  end.

Record RegExp := mkRegExp { source : regex; ignoreCase : bool }.

(** [new RegExp(pattern, flags)] for the flags [""] and ["i"]. *)
Definition RegExp_new (pattern : str) (flags : str) : option RegExp :=
  match lex (S (length pattern)) pattern with
  | None => None
  | Some ts =>
      match parseDisjunction (2 * length ts + 2) ts with
      | Some (r, []) =>
          if str_eqb flags (lit "i") then Some (mkRegExp r true)
          else if str_eqb flags [] then Some (mkRegExp r false)
          else None
      | _ => None
      end
  end.

Definition asciiUpper (c : N) : N :=
  if (97 <=? c) && (c <=? 122) then c - 32 else c.

(** Canonicalize of the pattern semantics, for a pattern without the [u]
    flag: the upper-case mapping when it is one code unit, never taking a
    non-ASCII code unit to an ASCII one. *)
Definition Canonicalize (rt : Runtime) (ic : bool) (ch : N) : N :=
  if negb ic then ch
  else if ch <? 128 then asciiUpper ch
  else
    match toUpperCase rt ch with
    | [cu] => if cu <? 128 then ch else cu
    | _ => ch
    end.

Definition charRange (lo hi : N) : list N :=
  map N.of_nat (seq (N.to_nat lo) (S (N.to_nat hi) - N.to_nat lo)).

Definition classMatches (rt : Runtime) (ic : bool) (invert : bool)
    (ranges : list (N * N)) (ch : N) : bool :=
  xorb invert
    (existsb (fun '(lo, hi) =>
        existsb (fun a => Canonicalize rt ic a =? Canonicalize rt ic ch)
                (charRange lo hi)) ranges).

Definition isLineTerminator (c : N) : bool :=
  (c =? 10) || (c =? 13) || (c =? 8232) || (c =? 8233).

(** The backtracking matcher: [matchAt r i s k] matches [r] at index [i],
    where [s] is the input from [i] on, and continues with [k]. *)
Fixpoint matchAt (rt : Runtime) (ic : bool) (r : regex) (i : nat) (s : str)
    (k : nat -> str -> bool) {struct r} : bool :=
  match r with
  | Empty => k i s
  | Char c =>
      match s with
      | x :: s' => (Canonicalize rt ic x =? Canonicalize rt ic c) && k (S i) s'
      | [] => false
      end
  | AnyChar =>
      match s with
      | x :: s' => negb (isLineTerminator x) && k (S i) s'
      | [] => false
      end
  | Class inv rs =>
      match s with
      | x :: s' => classMatches rt ic inv rs x && k (S i) s'
      | [] => false
      end
  | Bol => Nat.eqb i 0 && k i s
  | Eol => match s with [] => k i s | _ :: _ => false end
  | Seq r1 r2 => matchAt rt ic r1 i s (fun j t => matchAt rt ic r2 j t k)
  | Alt r1 r2 => matchAt rt ic r1 i s k || matchAt rt ic r2 i s k
  | Group r1 => matchAt rt ic r1 i s k
  | Star r1 =>
      (fix loop (fuel : nat) (i : nat) (s : str) : bool :=
         match fuel with
         | O => k i s
         | S f =>
             matchAt rt ic r1 i s
               (fun j t => Nat.ltb (length t) (length s) && loop f j t)
             || k i s
         end) (length s) i s
  | Opt r1 => matchAt rt ic r1 i s k || k i s
  end.

(** The search loop of [RegExp.prototype.exec] without the [g] and [y] flags:
    try every start index from [i] on. *)
Fixpoint searchFrom (rt : Runtime) (ic : bool) (r : regex) (i : nat) (s : str) : bool :=
  matchAt rt ic r i s (fun _ _ => true) ||
  match s with
  | [] => false
  | _ :: s' => searchFrom rt ic r (S i) s'
  end.

(** [re.test(text)]. *)
Definition test (rt : Runtime) (re : RegExp) (text : str) : bool :=
  searchFrom rt (ignoreCase re) (source re) 0 text.

(** [s.replace(/[.*+?^${}()|[\]\\]/g, "\\$&")]: every character of the class
    is replaced by a backslash and itself. *)
Definition escapeRegExp (s : str) : str :=
  flat_map (fun c =>
    if existsb (N.eqb c) (lit ".*+?^${}()|[]\") then [92; c] else [c]) s.

(** ** Paths ([node:path], POSIX) *)

Fixpoint splitOn (sep : N) (s : str) (cur : str) : list str :=
  match s with
  | [] => [rev cur]
  | c :: s' => if c =? sep then rev cur :: splitOn sep s' [] else splitOn sep s' (c :: cur)
  end.

Fixpoint joinWith (sep : str) (parts : list str) : str :=
  match parts with
  | [] => []
  | [p] => p
  | p :: rest => p ++ sep ++ joinWith sep rest
  end.

(** The segment walk of [normalizeString]: empty and [.] segments are
    dropped, [..] removes the segment before it, or stays when there is none
    and the path is relative.  [acc] is the result so far, reversed. *)
Fixpoint normalizeSegs (segs : list str) (acc : list str) (allowAboveRoot : bool) : list str :=
  match segs with
  | [] => rev acc
  | seg :: rest =>
      if str_eqb seg [] || str_eqb seg (lit ".") then normalizeSegs rest acc allowAboveRoot
      else if str_eqb seg (lit "..") then
        match acc with
        | top :: acc' =>
            if str_eqb top (lit "..") then normalizeSegs rest (seg :: acc) allowAboveRoot
            else normalizeSegs rest acc' allowAboveRoot
        | [] =>
            if allowAboveRoot then normalizeSegs rest [seg] allowAboveRoot
            else normalizeSegs rest [] allowAboveRoot
        end
      else normalizeSegs rest (seg :: acc) allowAboveRoot
  end.

(** [path.isAbsolute]. *)
Definition path_isAbsolute (p : str) : bool := startsWith p (lit "/").

(** [path.normalize]. *)
Definition path_normalize (p : str) : str :=
  match p with
  | [] => lit "."
  | _ =>
      let isAbsolute := path_isAbsolute p in
      let trailingSeparator := endsWith p (lit "/") in
      let body := joinWith (lit "/") (normalizeSegs (splitOn 47 p []) [] (negb isAbsolute)) in
      match body with
      | [] => if isAbsolute then lit "/" else if trailingSeparator then lit "./" else lit "."
      | _ =>
          let body' := if trailingSeparator then body ++ lit "/" else body in
          if isAbsolute then lit "/" ++ body' else body'
      end
  end.

(** [path.join(...parts)]. *)
Definition path_join (parts : list str) : str :=
  match filter (fun a => negb (str_eqb a [])) parts with
  | [] => lit "."
  | joined => path_normalize (joinWith (lit "/") joined)
  end.

(** [path.basename(p)]: what follows the last separator, trailing separators
    apart. *)
Fixpoint dropSlashes (s : str) : str :=
  match s with
  | [] => []
  | c :: s' => if c =? 47 then dropSlashes s' else s
  end.

Fixpoint takeSegment (s : str) : str :=
  match s with
  | [] => []
  | c :: s' => if c =? 47 then [] else c :: takeSegment s'
  end.

Definition path_basename (p : str) : str := rev (takeSegment (dropSlashes (rev p))).

(** The segments of [path.resolve(p)] for the working directory [cwd]. *)
Definition resolveSegs (cwd p : str) : list str :=
  let full := if path_isAbsolute p then p else cwd ++ lit "/" ++ p in
  normalizeSegs (splitOn 47 full []) [] false.

Fixpoint dropCommon (a b : list str) : list str * list str :=
  match a, b with
  | x :: a', y :: b' => if str_eqb x y then dropCommon a' b' else (a, b)
  | _, _ => (a, b)
  end.

(** [path.relative(from, to)]. *)
Definition path_relative (cwd from to : str) : str :=
  let '(up, down) := dropCommon (resolveSegs cwd from) (resolveSegs cwd to) in
  joinWith (lit "/") (map (fun _ => lit "..") up ++ down).

(** ** The world of a run *)

(** A filesystem node.  [Special] is an entry that is not a directory and
    cannot be read (no permission, a socket).  Every directory of the tree
    can be searched and listed, and there are no symbolic links. *)
Inductive node :=
| File (text : str)
| Special
| Dir (ents : list (str * node)).

Record request := mkRequest {
  req_method : str;
  req_url : str;
  req_headers : list (str * str)
}.

(** What becomes of a request once it has settled: the [error] event of the
    request, or the status and the whole body at the [end] event of the
    response.  A request that never settles has no value here: the runs
    modelled are those in which the peer answers or fails. *)
Inductive response :=
| NetworkError (e : exn)
| Response (statusCode : nat) (body : str).

(** What a run depends on: the working directory, the environment
    variables, the filesystem (the tree below [/]) and the HTTPS peer. *)
Record World := mkWorld {
  cwd : str;
  env : list (str * str);
  root : node;
  https_request : request -> response
}.

Inductive event :=
| ExistsSync (p : str)
| ReadFileSync (p : str)
| ReaddirSync (p : str)
| HttpsRequest (r : request)
| ConsoleLog (s : str)
| ConsoleError (s : str).

(** ** Effects: an outcome and the trace of what was done *)

Inductive result (A : Type) :=
| Ok (a : A)
| Throw (e : exn)
| Exit (code : nat).

Arguments Ok {A} a.
Arguments Throw {A} e.
Arguments Exit {A} code.

Definition M (A : Type) : Type := (result A * list event)%type.

Definition ret {A} (a : A) : M A := (Ok a, []).
Definition throw {A} (e : exn) : M A := (Throw e, []).
Definition process_exit {A} (code : nat) : M A := (Exit code, []).
Definition emit (e : event) : M unit := (Ok tt, [e]).

Definition bind {A B} (m : M A) (f : A -> M B) : M B :=
  match m with
  | (Ok a, t) => let '(r, t') := f a in (r, t ++ t')
  | (Throw e, t) => (Throw e, t)
  | (Exit c, t) => (Exit c, t)
  end.

Notation "x <- m ;; k" := (bind m (fun x => k))
  (at level 61, m at next level, right associativity).
Notation "m ;;; k" := (bind m (fun _ => k))
  (at level 61, right associativity).

Fixpoint mapM {A B} (f : A -> M B) (l : list A) : M (list B) :=
  match l with
  | [] => ret []
  | x :: l' => y <- f x ;; ys <- mapM f l' ;; ret (y :: ys)
  end.

Fixpoint forEach {A} (f : A -> M unit) (l : list A) : M unit :=
  match l with
  | [] => ret tt
  | x :: l' => f x ;;; forEach f l'
  end.

Definition console_log (s : str) : M unit := emit (ConsoleLog s).
Definition console_error (s : str) : M unit := emit (ConsoleError s).

(** ** The filesystem *)

(** Every node of the tree with its path. *)
Fixpoint flatten (p : str) (n : node) : list (str * node) :=
  (p, n) ::
  match n with
  | Dir ents =>
      (fix below (ents : list (str * node)) : list (str * node) :=
         match ents with
         | [] => []
         | (name, child) :: rest => flatten (path_join [p; name]) child ++ below rest
         end) ents
  | _ => []
  end.

(** What the kernel makes of a path. *)
Inductive resolved :=
| Found (n : node)
| NoEntry
| NotDirectory.

Fixpoint childNamed (name : str) (ents : list (str * node)) : option node :=
  match ents with
  | [] => None
  | (k, child) :: rest => if str_eqb k name then Some child else childNamed name rest
  end.

(** Path resolution, component by component, from the node [cur] whose
    ancestors are [up], the nearest first.  Every component, the empty one
    that a doubled or trailing separator leaves included, is looked up in a
    directory: anything else there fails with ENOTDIR, and a name the
    directory does not hold with ENOENT.  Nothing is cancelled lexically:
    [..] is the parent of a directory that was reached. *)
Fixpoint walkPath (cur : node) (up : list node) (comps : list str) : resolved :=
  match comps with
  | [] => Found cur
  | c :: rest =>
      match cur with
      | Dir ents =>
          if str_eqb c [] || str_eqb c (lit ".") then walkPath cur up rest
          else if str_eqb c (lit "..") then
            match up with
            | parent :: up' => walkPath parent up' rest
            | [] => walkPath cur [] rest
            end
          else
            match childNamed c ents with
            | Some child => walkPath child (cur :: up) rest
            | None => NoEntry
            end
      | _ => NotDirectory
      end
  end.

(** The resolution of the path [p] of a system call: the empty path names
    nothing, an absolute path starts at the root and a relative one at the
    working directory. *)
Definition fs_resolve (w : World) (p : str) : resolved :=
  match p with
  | [] => NoEntry
  | _ =>
      let full := if path_isAbsolute p then p else cwd w ++ lit "/" ++ p in
      walkPath (root w) [] (splitOn 47 full [])
  end.

(** The node at a path, if the path resolves. *)
Definition fs_lookup (w : World) (p : str) : option node :=
  match fs_resolve w p with
  | Found n => Some n
  | _ => None
  end.

Definition fsError (rt : Runtime) (what : string) (p : str) : exn :=
  newError rt (lit what ++ lit " '" ++ p ++ lit "'").

(** [fs.existsSync]. *)
Definition existsSync (w : World) (p : str) : M bool :=
  emit (ExistsSync p) ;;;
  ret (match fs_lookup w p with Some _ => true | None => false end).

(** [readText]: [fs.readFileSync(filePath, "utf8")].  A directory is opened
    and fails at the read, whose error carries no path. *)
Definition readText (rt : Runtime) (w : World) (filePath : str) : M str :=
  emit (ReadFileSync filePath) ;;;
  match fs_resolve w filePath with
  | Found (File text) => ret text
  | Found (Dir _) => throw (newError rt (lit "EISDIR: illegal operation on a directory, read"))
  | Found Special => throw (fsError rt "EACCES: permission denied, open" filePath)
  | NoEntry => throw (fsError rt "ENOENT: no such file or directory, open" filePath)
  | NotDirectory => throw (fsError rt "ENOTDIR: not a directory, open" filePath)
  end.

Definition isDirectory (n : node) : bool :=
  match n with Dir _ => true | _ => false end.

(** [walkFiles] below a node: the recursive call on a subdirectory reads the
    entries of that child. *)
Fixpoint walkNode (rt : Runtime) (n : node) (dir : str) (predicate : str -> bool)
    {struct n} : M (list str) :=
  emit (ReaddirSync dir) ;;;
  match n with
  | Dir ents =>
      (fix loop (ents : list (str * node)) : M (list str) :=
         match ents with
         | [] => ret []
         | (name, child) :: rest =>
             let p := path_join [dir; name] in
             if isDirectory child then
               sub <- walkNode rt child p predicate ;;
               out <- loop rest ;;
               ret (sub ++ out)
             else if predicate p then
               out <- loop rest ;;
               ret (p :: out)
             else loop rest
         end) ents
  | _ => throw (fsError rt "ENOTDIR: not a directory, scandir" dir)
  end.

Definition walkFiles (rt : Runtime) (w : World) (dir : str) (predicate : str -> bool)
    : M (list str) :=
  match fs_resolve w dir with
  | Found n => walkNode rt n dir predicate
  | NoEntry =>
      emit (ReaddirSync dir) ;;;
      throw (fsError rt "ENOENT: no such file or directory, scandir" dir)
  | NotDirectory =>
      emit (ReaddirSync dir) ;;;
      throw (fsError rt "ENOTDIR: not a directory, scandir" dir)
  end.

(** ** The script *)

(** [process.env.NAME]: [None] when the variable is unset. *)
Fixpoint assoc {A} (key : str) (l : list (str * A)) : option A :=
  match l with
  | [] => None
  | (k, v) :: l' => if str_eqb k key then Some v else assoc key l'
  end.

(** [process.env.NAME || ""]. *)
Definition envOrEmpty (w : World) (name : string) : str :=
  match assoc (lit name) (env w) with
  | Some v => v
  | None => []
  end.

(** A string or an array length used as a condition. *)
Definition nonEmpty {A} (l : list A) : bool :=
  match l with [] => false | _ :: _ => true end.

(** The request [fetchJson] passes to [https.request]. *)
Definition fetchRequest (w : World) (url : str) : request :=
  let token :=
    if nonEmpty (envOrEmpty w "GITHUB_TOKEN") then envOrEmpty w "GITHUB_TOKEN"
    else if nonEmpty (envOrEmpty w "GH_TOKEN") then envOrEmpty w "GH_TOKEN"
    else [] in
  mkRequest (lit "GET") url
    ([(lit "Accept", lit "application/json")]
     ++ (if nonEmpty token then [(lit "Authorization", lit "Bearer " ++ token)] else [])
     ++ [(lit "User-Agent", lit "adsgateway-docs-guardrails")]).

Definition fetchJson (rt : Runtime) (w : World) (url : str) : M value :=
  let req := fetchRequest w url in
  emit (HttpsRequest req) ;;;
  match https_request w req with
  | NetworkError e => throw e
  | Response statusCode data =>
      if Nat.leb 400 statusCode then
        throw (newError rt
          (lit "Fetch failed (" ++ decimal statusCode ++ lit ") for " ++ url))
      else
        match JSON_parse rt data with
        | inr v => ret v
        | inl msg => throw (newError rt (lit "Invalid JSON from " ++ url ++ lit ": " ++ msg))
        end
  end.

(** [JSON.parse(readText(p))]. *)
Definition readJson (rt : Runtime) (w : World) (p : str) : M value :=
  text <- readText rt w p ;;
  match JSON_parse rt text with
  | inr v => ret v
  | inl msg => throw (newError rt msg)
  end.

Definition notLocated : str :=
  joinWith (lit " ")
    [lit "Unable to locate mcp-tools.json.";
     lit "Set MCP_TOOLS_JSON_PATH or MCP_TOOLS_JSON_URL, or add tooling/mcp-tools.json."].

Definition siblingPath (w : World) : str :=
  path_join [cwd w; lit ".."; lit "adsgpt-gateway"; lit "fastmcp-server"; lit "docs";
             lit "mcp-tools.json"].

Definition vendoredPath (w : World) : str :=
  path_join [cwd w; lit "tooling"; lit "mcp-tools.json"].

Definition loadMcpToolsJson (rt : Runtime) (w : World) : M value :=
  let repoRoot := cwd w in
  let envPath := trim (envOrEmpty w "MCP_TOOLS_JSON_PATH") in
  if nonEmpty envPath then
    let resolved :=
      if path_isAbsolute envPath then envPath else path_join [repoRoot; envPath] in
    readJson rt w resolved
  else
    sibling <- existsSync w (siblingPath w) ;;
    if sibling then readJson rt w (siblingPath w)
    else
      let url := trim (envOrEmpty w "MCP_TOOLS_JSON_URL") in
      if nonEmpty url then fetchJson rt w url
      else
        vendored <- existsSync w (vendoredPath w) ;;
        if vendored then readJson rt w (vendoredPath w)
        else throw (newError rt notLocated).

(** [t?.key]: [None] is [undefined]. *)
Definition getProp (t : value) (key : string) : option value :=
  match t with
  | VObj props => assoc (lit key) props
  | _ => None
  end.

Definition truthy (v : option value) : bool :=
  match v with
  | None => false
  | Some VNull => false
  | Some (VBool b) => b
  | Some (VNum q) => negb (QArith_base.Qeq_bool q (QArith_base.Qmake 0%Z 1%positive))
  | Some (VStr s) => nonEmpty s
  | Some (VArr _) => true
  | Some (VObj _) => true
  end.

(** [a || b]. *)
Definition orElse (a b : option value) : option value :=
  if truthy a then a else b.

(** The array the manifest holds its tools in. *)
Definition toolsOf (mcpToolsJson : value) : list value :=
  match mcpToolsJson with
  | VArr items => items
  | VObj _ =>
      match getProp mcpToolsJson "tools" with
      | Some (VArr items) => items
      | _ => []
      end
  | _ => []
  end.

(** The body of the extraction loop: [names] after the entry [t]. *)
Definition pushName (names : list str) (t : value) : list str :=
  let n := orElse (orElse (getProp t "name") (getProp t "tool")) (getProp t "id") in
  match n with
  | Some (VStr s) => if nonEmpty (trim s) then names ++ [trim s] else names
  | _ => names
  end.

(** [Array.from(new Set(names))]: first occurrences, in insertion order. *)
Definition setAdd (set : list str) (x : str) : list str :=
  if existsb (str_eqb x) set then set else set ++ [x].

Definition uniqueOf (names : list str) : list str := fold_left setAdd names [].

(** [uniq.sort()]: ascending code-unit order. *)
Fixpoint insertSorted (x : str) (l : list str) : list str :=
  match l with
  | [] => [x]
  | y :: l' => if str_leb x y then x :: l else y :: insertSorted x l'
  end.

Definition sortStrings (l : list str) : list str := fold_right insertSorted [] l.

Definition extractToolNames (mcpToolsJson : value) : list str :=
  let tools := toolsOf mcpToolsJson in
  let names := fold_left pushName tools [] in
  let uniq := uniqueOf names in
  sortStrings uniq.

Record hit := mkHit { file : str; line : nat; domain : str; text : str }.

Definition banned : list str :=
  [lit "docs.adsgateway.io"; lit "status.adsgateway.io"].

Definition isDocFile (p : str) : bool :=
  endsWith p (lit ".mdx") || endsWith p (lit ".md")
  || str_eqb (path_basename p) (lit "docs.json").

(** The hits of the line [lines[i]]. *)
Definition scanLine (file : str) (i : nat) (line : str) : list hit :=
  flat_map (fun domain =>
    if includes line domain then [mkHit file (i + 1) domain (trim line)] else [])
    banned.

(** The loop over [lines], from index [i] on. *)
Fixpoint scanLines (file : str) (i : nat) (lines : list str) : list hit :=
  match lines with
  | [] => []
  | line :: rest => scanLine file i line ++ scanLines file (S i) rest
  end.

(** The loop over [files]. *)
Fixpoint scanFiles (rt : Runtime) (w : World) (files : list str) : M (list hit) :=
  match files with
  | [] => ret []
  | file :: rest =>
      txt <- readText rt w file ;;
      more <- scanFiles rt w rest ;;
      ret (scanLines file 0 (splitLines txt) ++ more)
  end.

Definition findBannedDomains (rt : Runtime) (w : World) (repoRoot : str) : M (list hit) :=
  files <- walkFiles rt w repoRoot isDocFile ;;
  scanFiles rt w files.

(** The pattern text built for a tool name. *)
Definition toolPattern (name : str) : str :=
  lit "(^|[^a-z0-9_])" ++ escapeRegExp name ++ lit "([^a-z0-9_]|$)".

(** The loop over [toolNames]: [missing] after each name. *)
Fixpoint collectMissing (rt : Runtime) (corpus : list (str * str)) (toolNames : list str)
    (missing : list str) : M (list str) :=
  match toolNames with
  | [] => ret missing
  | name :: rest =>
      match RegExp_new (toolPattern name) (lit "i") with
      | None => throw (newError rt (lit "Invalid regular expression"))
      | Some re =>
          let found := existsb (fun entry => test rt re (snd entry)) corpus in
          collectMissing rt corpus rest (if found then missing else missing ++ [name])
      end
  end.

Definition isMdx (p : str) : bool := endsWith p (lit ".mdx").

Definition checkToolsCovered (rt : Runtime) (w : World) (toolNames : list str)
    (toolsDocsRoot : str) : M (list str * list str) :=
  toolFiles <- walkFiles rt w toolsDocsRoot isMdx ;;
  corpus <- mapM (fun f => text <- readText rt w f ;; ret (f, text)) toolFiles ;;
  missing <- collectMissing rt corpus toolNames [] ;;
  ret (toolFiles, missing).

Definition missingHeader : str :=
  10 :: lit "[guardrails] Missing tools documentation entries (tools/*.mdx):".

Definition bannedHeader : str := 10 :: lit "[guardrails] Banned domains found:".

Definition hitLine (w : World) (repoRoot : str) (h : hit) : str :=
  lit "- " ++ domain h ++ lit " in " ++ path_relative (cwd w) repoRoot (file h)
  ++ lit ":" ++ decimal (line h) ++ lit " :: " ++ text h.

Definition okLine (toolNames : list str) : str :=
  lit "[guardrails] OK: " ++ decimal (length toolNames)
  ++ lit " tools covered; no banned domains found.".

Definition toolsRoot (w : World) : str := path_join [cwd w; lit "tools"].

Definition main (rt : Runtime) (w : World) : M unit :=
  let repoRoot := cwd w in
  let toolsDocsRoot := path_join [repoRoot; lit "tools"] in
  present <- existsSync w toolsDocsRoot ;;
  if negb present then throw (newError rt (lit "Missing tools/ directory in docs repo."))
  else
    mcpToolsJson <- loadMcpToolsJson rt w ;;
    let toolNames := extractToolNames mcpToolsJson in
    covered <- checkToolsCovered rt w toolNames toolsDocsRoot ;;
    let missing := snd covered in
    bannedHits <- findBannedDomains rt w repoRoot ;;
    let ok := true in
    ok <- (if nonEmpty missing then
             console_error missingHeader ;;;
             forEach (fun n => console_error (lit "- " ++ n)) missing ;;;
             ret false
           else ret ok) ;;
    ok <- (if nonEmpty bannedHits then
             console_error bannedHeader ;;;
             forEach (fun h => console_error (hitLine w repoRoot h)) bannedHits ;;;
             ret false
           else ret ok) ;;
    if negb ok then process_exit 1
    else console_log (okLine toolNames).

Definition failedHeader : str := 10 :: lit "[guardrails] Failed:".

(** The process: [main().catch(...)], with the trace of the run and the exit
    status. *)
Definition run (rt : Runtime) (w : World) : list event * nat :=
  match main rt w with
  | (Ok _, t) => (t, 0%nat)
  | (Exit code, t) => (t, code)
  | (Throw err, t) =>
      (t ++ [ConsoleError failedHeader;
             ConsoleError (if nonEmpty (stack err) then stack err else message err)],
       1%nat)
  end.

(** ** Specification vocabulary *)

(** A word character of the boundary class [[a-z0-9_]] under the [i] flag. *)
Definition isWordChar (c : N) : bool :=
  ((48 <=? c) && (c <=? 57)) || ((65 <=? c) && (c <=? 90)) || (c =? 95)
  || ((97 <=? c) && (c <=? 122)).

(** Two code units the [i] flag identifies. *)
Definition sameLetter (rt : Runtime) (a b : N) : Prop :=
  Canonicalize rt true a = Canonicalize rt true b.

(** [name] occurs in [text] as a whole word, letter case apart: the
    occurrence starts the text or follows a non-word character, and ends the
    text or is followed by one. *)
Definition wholeWordIn (rt : Runtime) (name text : str) : Prop :=
  exists pre mid post,
    text = pre ++ mid ++ post /\
    Forall2 (sameLetter rt) mid name /\
    (pre = [] \/ exists pre' x, pre = pre' ++ [x] /\ isWordChar x = false) /\
    (post = [] \/ exists x post', post = x :: post' /\ isWordChar x = false).

(** The literal characters of a name, in sequence before [r]. *)
Fixpoint seqChars (name : str) (r : regex) : regex :=
  match name with
  | [] => r
  | c :: name' => Seq (Char c) (seqChars name' r)
  end.

(** What remains of [s] after [name], letter case apart. *)
Fixpoint stripName (rt : Runtime) (name s : str) : option str :=
  match name, s with
  | [], _ => Some s
  | c :: name', x :: s' =>
      if Canonicalize rt true x =? Canonicalize rt true c then stripName rt name' s'
      else None
  | _ :: _, [] => None
  end.

Definition boundaryClass : list (N * N) := [(97, 122); (48, 57); (95, 95)].

(** The syntax tree of the pattern of a tool name. *)
Definition toolRegex (name : str) : regex :=
  Seq (Group (Alt (Seq Bol Empty) (Seq (Class true boundaryClass) Empty)))
    (seqChars name
       (Seq (Group (Alt (Seq (Class true boundaryClass) Empty) (Seq Eol Empty))) Empty)).

(** The tokens of the pattern of a tool name. *)
Definition toolTokens (name : str) : list token :=
  [TLParen; TCaret; TBar; TClass true boundaryClass; TRParen]
  ++ map TChar name
  ++ [TLParen; TClass true boundaryClass; TBar; TDollar; TRParen].

(** A token list whose head is not a quantifier. *)
Definition startsAtom (ts : list token) : Prop :=
  forall a, quantified a ts = (a, ts).

(** An occurrence of the name at the head of [t], followed by the end of the
    text or by a non-word character. *)
Definition occursAtHead (rt : Runtime) (name t : str) : bool :=
  match stripName rt name t with
  | Some [] => true
  | Some (x :: _) => negb (isWordChar x)
  | None => false
  end.

(** The loop of [walkFiles] over the entries of [dir]. *)
Fixpoint walkEntries (rt : Runtime) (dir : str) (predicate : str -> bool)
    (ents : list (str * node)) : M (list str) :=
  match ents with
  | [] => ret []
  | (name, child) :: rest =>
      let p := path_join [dir; name] in
      if isDirectory child then
        sub <- walkNode rt child p predicate ;;
        out <- walkEntries rt dir predicate rest ;;
        ret (sub ++ out)
      else if predicate p then
        out <- walkEntries rt dir predicate rest ;;
        ret (p :: out)
      else walkEntries rt dir predicate rest
  end.

(** Induction on a filesystem tree, with the hypothesis for every entry of a
    directory. *)
Fixpoint node_tree_ind (P : node -> Prop)
    (HFile : forall text, P (File text)) (HSpecial : P Special)
    (HDir : forall ents, Forall (fun e => P (snd e)) ents -> P (Dir ents))
    (n : node) : P n :=
  match n with
  | File text => HFile text
  | Special => HSpecial
  | Dir ents =>
      HDir ents
        ((fix all (l : list (str * node)) : Forall (fun e => P (snd e)) l :=
            match l with
            | [] => Forall_nil _
            | e :: l' => Forall_cons e (node_tree_ind P HFile HSpecial HDir (snd e)) (all l')
            end) ents)
  end.

(** A node that is not a directory sits at path [p] below the directory
    [dir] with the entries [ents]. *)
Inductive fileUnder : str -> list (str * node) -> str -> node -> Prop :=
| fileUnder_here dir name n rest :
    isDirectory n = false ->
    fileUnder dir ((name, n) :: rest) (path_join [dir; name]) n
| fileUnder_sub dir name ents rest p n :
    fileUnder (path_join [dir; name]) ents p n ->
    fileUnder dir ((name, Dir ents) :: rest) p n
| fileUnder_next dir e rest p n :
    fileUnder dir rest p n ->
    fileUnder dir (e :: rest) p n.

(** No text of the corpus matches the pattern of [name]. *)
Definition uncovered (rt : Runtime) (texts : list str) (name : str) : bool :=
  negb (existsb (test rt (mkRegExp (toolRegex name) true)) texts).

(** An example runtime: an upper-case table that maps every non-ASCII code
    unit to itself, and a [JSON.parse] that knows two manifest texts. *)
Definition exampleManifestText : str :=
  lit "[{name:search_ads},{id:list_campaigns}]".

Definition exampleManifest : value :=
  VArr [VObj [(lit "name", VStr (lit "search_ads"))];
        VObj [(lit "id", VStr (lit "list_campaigns"))]].

Definition exampleRuntime : Runtime :=
  mkRuntime (fun c => [c])
    (fun s => if str_eqb s exampleManifestText then inr exampleManifest
              else if str_eqb s (lit "{}") then inr (VObj [])
              else inl (lit "Unexpected token"))
    (fun msg => lit "Error: " ++ msg).

(** An example repository at [/work/docs]: one tools page that mentions
    [search_ads] only, an overview with a banned domain on its second line,
    and a vendored manifest. *)
Definition exampleDocsEntries : list (str * node) :=
  [(lit "tools", Dir [
      (lit "search.mdx", File (lit "Use Search_Ads to search."));
      (lit "notes.txt", File (lit "list_campaigns"))]);
   (lit "overview.mdx",
      File (lit "Intro" ++ [13; 10]
            ++ lit "  See https://docs.adsgateway.io/guide for more." ++ [10]));
   (lit "tooling", Dir [(lit "mcp-tools.json", File exampleManifestText)]);
   (lit "docs.json", File (lit "{}"))].

Definition exampleTree : node :=
  Dir [(lit "work", Dir [(lit "docs", Dir exampleDocsEntries)])].

(** The one hit of the example repository. *)
Definition exampleHits : list hit :=
  [mkHit (lit "/work/docs/overview.mdx") 2 (lit "docs.adsgateway.io")
         (lit "See https://docs.adsgateway.io/guide for more.")].

Definition noNetwork : request -> response :=
  fun _ => NetworkError (mkExn (lit "connect ECONNREFUSED") []).

Definition exampleWorld : World :=
  mkWorld (lit "/work/docs") [] exampleTree noNetwork.

Definition exampleToolsRoot : str := lit "/work/docs/tools".

Definition exampleNames : list str := [lit "list_campaigns"; lit "search_ads"].

(** The same repository with a manifest that declares nothing and without
    the banned domain. *)
Definition cleanTree : node :=
  Dir [(lit "work", Dir [(lit "docs", Dir [
    (lit "tools", Dir [(lit "search.mdx", File (lit "Use Search_Ads to search."))]);
    (lit "overview.md", File (lit "Intro" ++ [10] ++ lit "Nothing to see."));
    (lit "tooling", Dir [(lit "mcp-tools.json", File (lit "{}"))])])])].

Definition cleanWorld : World := mkWorld (lit "/work/docs") [] cleanTree noNetwork.


(** A repository with a [tools] directory and no manifest anywhere. *)
Definition bareTree : node :=
  Dir [(lit "work", Dir [(lit "docs", Dir [(lit "tools", Dir [])])])].

Definition bareWorld : World := mkWorld (lit "/work/docs") [] bareTree noNetwork.

(** The example repository with the override variable set. *)
Definition overrideWorld : World :=
  mkWorld (lit "/work/docs") [(lit "MCP_TOOLS_JSON_PATH", lit " tooling/mcp-tools.json ")]
    exampleTree noNetwork.

(** A repository next to the product repository. *)
Definition siblingWorld : World :=
  mkWorld (lit "/work/docs") []
    (Dir [(lit "work", Dir [
       (lit "docs", Dir [(lit "tools", Dir [])]);
       (lit "adsgpt-gateway", Dir [(lit "fastmcp-server", Dir [(lit "docs", Dir [
          (lit "mcp-tools.json", File exampleManifestText)])])])])])
    noNetwork.

Definition exampleUrl : str := lit "https://example.test/mcp-tools.json".

(** A peer that answers 404. *)
Definition notFound : request -> response :=
  fun _ => Response 404 (lit "Not Found").

(** A bare repository with the URL variable and a token set. *)
Definition urlWorld : World :=
  mkWorld (lit "/work/docs")
    [(lit "MCP_TOOLS_JSON_URL", exampleUrl); (lit "GH_TOKEN", lit "s3cret")]
    bareTree notFound.

(** A manifest that names [toolA] twice, under [name] and under [id]. *)
Definition duplicateManifest : value :=
  VObj [(lit "tools", VArr [
    VObj [(lit "name", VStr (lit "toolB"))];
    VObj [(lit "name", VStr (lit "toolA"))];
    VObj [(lit "id", VStr (lit " toolA "))]])].

(** A field that is a string, non-empty once trimmed, gives that string. *)
Definition pickString (v : option value) : option str :=
  match v with
  | Some (VStr s) => if nonEmpty (trim s) then Some (trim s) else None
  | _ => None
  end.

(** The reading of the specification: the name of an entry is the first of
    the fields [name], [tool], [id] that is a string, non-empty once
    trimmed. *)
Definition specNameOf (t : value) : option str :=
  match pickString (getProp t "name") with
  | Some s => Some s
  | None =>
      match pickString (getProp t "tool") with
      | Some s => Some s
      | None => pickString (getProp t "id")
      end
  end.

(** A field that is absent or falsy, or a string that is non-empty once
    trimmed. *)
Definition plainField (v : option value) : bool :=
  negb (truthy v) ||
  match v with
  | Some (VStr s) => nonEmpty (trim s)
  | _ => false
  end.

(** An entry whose [name] is a number and whose [tool] is a string. *)
Definition numberNamedEntry : value :=
  VObj [(lit "name", VNum (QArith_base.Qmake 5 1)); (lit "tool", VStr (lit "x"))].

(** An entry with a clean [tool] field only. *)
Definition toolOnlyEntry : value := VObj [(lit "tool", VStr (lit " list_ads "))].

Definition str_eq_dec : forall a b : str, {a = b} + {a <> b} := list_eq_dec N.eq_dec.

(** Ascending in the order of [sort], and strictly so. *)
Definition ascending : list str -> Prop :=
  StronglySorted (fun a b => str_leb a b = true).

Definition strictlyAscending : list str -> Prop :=
  StronglySorted (fun a b => str_ltb a b = true).

(** ** Traces *)

Definition isConsole (e : event) : bool :=
  match e with
  | ConsoleLog _ => true
  | ConsoleError _ => true
  | _ => false
  end.

(** A computation that prints nothing and does not end the process itself. *)
Definition quiet {A} (m : M A) : Prop :=
  (forall code, fst m <> Exit code) /\ Forall (fun e => isConsole e = false) (snd m).

(** The lines written to the standard stream and to the error stream. *)
Definition stdoutOf (t : list event) : list str :=
  flat_map (fun e => match e with ConsoleLog s => [s] | _ => [] end) t.

Definition stderrOf (t : list event) : list str :=
  flat_map (fun e => match e with ConsoleError s => [s] | _ => [] end) t.

(** A directory walk or a file read. *)
Definition isScan (e : event) : bool :=
  match e with
  | ReaddirSync _ => true
  | ReadFileSync _ => true
  | _ => false
  end.

(** [m] with the events [t] before its own. *)
Definition after {A} (t : list event) (m : M A) : M A := (fst m, t ++ snd m).

Definition envPathOf (w : World) : str := trim (envOrEmpty w "MCP_TOOLS_JSON_PATH").

Definition urlOf (w : World) : str := trim (envOrEmpty w "MCP_TOOLS_JSON_URL").

Definition resolvedEnvPath (w : World) : str :=
  if path_isAbsolute (envPathOf w) then envPathOf w else path_join [cwd w; envPathOf w].

(** What the top-level handler prints for an error. *)
Definition failedLines (err : exn) : list str :=
  [failedHeader; if nonEmpty (stack err) then stack err else message err].

(** [txt] with every carriage return that stands before a line feed
    removed: the text with its CRLF line endings turned into LF. *)
Fixpoint lfOnly (txt : str) : str :=
  match txt with
  | [] => []
  | c :: s1 =>
      match s1 with
      | d :: _ => if (c =? 13) && (d =? 10) then lfOnly s1 else c :: lfOnly s1
      | [] => [c]
      end
  end.

(** The hits of the files [files] with the texts [texts], file by file. *)
Definition hitsOf (files texts : list str) : list hit :=
  flat_map (fun entry => scanLines (fst entry) 0 (splitLines (snd entry)))
           (combine files texts).

(** The nodes below a directory with their paths, as [flatten] lists them. *)
Fixpoint flattenEntries (p : str) (ents : list (str * node)) : list (str * node) :=
  match ents with
  | [] => []
  | (name, child) :: rest => flatten (path_join [p; name]) child ++ flattenEntries p rest
  end.

(** [l1] is [l2] with some elements left out. *)
Inductive subseq {A} : list A -> list A -> Prop :=
| subseq_nil : subseq [] []
| subseq_keep x l1 l2 : subseq l1 l2 -> subseq (x :: l1) (x :: l2)
| subseq_drop x l1 l2 : subseq l1 l2 -> subseq l1 (x :: l2).

(** No string occurs twice. *)
Fixpoint distinct (l : list str) : bool :=
  match l with
  | [] => true
  | x :: l' => negb (existsb (str_eqb x) l') && distinct l'
  end.

(** What identifies a hit: file, line number and domain. *)
Definition hitKey (h : hit) : str * nat * str := (file h, line h, domain h).

(** The diagnostic block of the missing tools, and that of the banned
    domains. *)
Definition missingBlock (missing : list str) : list event :=
  if nonEmpty missing
  then ConsoleError missingHeader :: map (fun n => ConsoleError (lit "- " ++ n)) missing
  else [].

Definition bannedBlock (w : World) (bannedHits : list hit) : list event :=
  if nonEmpty bannedHits
  then ConsoleError bannedHeader
       :: map (fun h => ConsoleError (hitLine w (cwd w) h)) bannedHits
  else [].

(** What [main] prints and how it ends once both checks have returned. *)
Definition reportOf (w : World) (toolNames missing : list str) (bannedHits : list hit)
    : M unit :=
  if nonEmpty missing || nonEmpty bannedHits
  then (Exit 1%nat, missingBlock missing ++ bannedBlock w bannedHits)
  else (Ok tt, [ConsoleLog (okLine toolNames)]).

Definition missingToolsDir : str := lit "Missing tools/ directory in docs repo.".

(** The stages of [main] before the report all returned: the tools entry
    exists, the manifest [m] was resolved, the coverage check returned
    [missing] and the scan returned [bannedHits]. *)
Definition stagesOk (rt : Runtime) (w : World) (m : value) (files missing : list str)
    (bannedHits : list hit) : Prop :=
  fs_lookup w (toolsRoot w) <> None /\
  fst (loadMcpToolsJson rt w) = Ok m /\
  fst (checkToolsCovered rt w (extractToolNames m) (toolsRoot w)) = Ok (files, missing) /\
  fst (findBannedDomains rt w (cwd w)) = Ok bannedHits.

Definition silent (t : list event) : Prop := Forall (fun e => isConsole e = false) t.

(** The lines of the two diagnostic blocks. *)
Definition diagnosticLines (w : World) (missing : list str) (bannedHits : list hit)
    : list str :=
  (if nonEmpty missing then missingHeader :: map (fun n => lit "- " ++ n) missing else [])
  ++ (if nonEmpty bannedHits
      then bannedHeader :: map (hitLine w (cwd w)) bannedHits else []).

(** ** Vocabulary of the further properties *)

(** A node that [walkFiles] lists for the predicate: not a directory, and
    its path satisfies the predicate. *)
Definition listedBy (predicate : str -> bool) (e : str * node) : bool :=
  negb (isDirectory (snd e)) && predicate (fst e).

Definition isDirEntry (e : str * node) : bool := isDirectory (snd e).

(** An entry that is an object. *)
Definition isObject (t : value) : bool :=
  match t with VObj _ => true | _ => false end.

(** A string that does not begin with whitespace: empty strings are not
    solid. *)
Definition startsSolid (s : str) : bool :=
  match s with
  | [] => false
  | c :: _ => negb (isWhiteSpace c)
  end.

(** A manifest with entries that are not objects among its tools. *)
Definition mixedItems : list value :=
  [VNull; VObj [(lit "name", VStr (lit "  search_ads "))]; VStr (lit "list_ads");
   VArr [VObj [(lit "name", VStr (lit "nested"))]]; VNum (QArith_base.Qmake 3 1);
   VObj [(lit "id", VStr (lit "list_campaigns"))]; VBool true].

Definition mixedManifest : value := VArr mixedItems.

Definition wrappedManifestProps : list (str * value) :=
  [(lit "version", VNum (QArith_base.Qmake 2 1)); (lit "tools", mixedManifest)].

(** [a] stands before [b] in [l]. *)
Definition before {A} (l : list A) (a b : A) : Prop :=
  exists l1 l2 l3, l = l1 ++ a :: l2 ++ b :: l3.

(** The order of a report: by file as the walk lists the files, then by line
    number, then by domain as the banned list has them. *)
Definition reportOrder (files : list str) (h1 h2 : hit) : Prop :=
  before files (file h1) (file h2) \/
  (file h1 = file h2 /\
   ((line h1 < line h2)%nat \/
    (line h1 = line h2 /\ before banned (domain h1) (domain h2)))).

(** A repository with both banned domains on one line of one file, one of
    them twice, and one of them again in a later file. *)
Definition twoHitsLine : str :=
  lit "status.adsgateway.io and docs.adsgateway.io and docs.adsgateway.io".

Definition twoHitsEntries : list (str * node) :=
  [(lit "a.md", File (lit "ok" ++ [10] ++ twoHitsLine));
   (lit "tools", Dir []);
   (lit "z.mdx", File (lit "x status.adsgateway.io"))].

Definition twoHitsWorld : World :=
  mkWorld (lit "/work/docs") []
    (Dir [(lit "work", Dir [(lit "docs", Dir twoHitsEntries)])])
    noNetwork.

Definition twoHits : list hit :=
  [mkHit (lit "/work/docs/a.md") 2 (lit "docs.adsgateway.io") twoHitsLine;
   mkHit (lit "/work/docs/a.md") 2 (lit "status.adsgateway.io") twoHitsLine;
   mkHit (lit "/work/docs/z.mdx") 1 (lit "status.adsgateway.io")
     (lit "x status.adsgateway.io")].

(** An access to a manifest source: a file read or a request. *)
Definition isSourceAccess (e : event) : bool :=
  match e with
  | ReadFileSync _ => true
  | HttpsRequest _ => true
  | _ => false
  end.

Definition isExistsSync (e : event) : bool :=
  match e with
  | ExistsSync _ => true
  | _ => false
  end.

(** The example repository with the override variable naming a file that
    does not exist, next to the vendored manifest. *)
Definition brokenOverrideWorld : World :=
  mkWorld (lit "/work/docs") [(lit "MCP_TOOLS_JSON_PATH", lit "missing.json")]
    exampleTree noNetwork.

(** The example repository with the override variable naming the vendored
    manifest with a separator after the file name. *)
Definition slashOverrideWorld : World :=
  mkWorld (lit "/work/docs") [(lit "MCP_TOOLS_JSON_PATH", lit "tooling/mcp-tools.json/")]
    exampleTree noNetwork.

(** A repository whose [tools] entry is a regular file. *)
Definition toolsFileWorld : World :=
  mkWorld (lit "/work/docs") []
    (Dir [(lit "work", Dir [(lit "docs", Dir [
       (lit "tools", File (lit "not a directory"));
       (lit "tooling", Dir [(lit "mcp-tools.json", File exampleManifestText)])])])])
    noNetwork.

(** A repository whose tools pages leave both names of the vendored manifest
    undocumented and whose [README.md] cannot be read. *)
Definition unreadableWorld : World :=
  mkWorld (lit "/work/docs") []
    (Dir [(lit "work", Dir [(lit "docs", Dir [
       (lit "tools", Dir [(lit "intro.mdx", File (lit "Nothing yet."))]);
       (lit "README.md", Special);
       (lit "tooling", Dir [(lit "mcp-tools.json", File exampleManifestText)])])])])
    noNetwork.

(** A string of ASCII code units. *)
Definition isAscii (s : str) : Prop := Forall (fun c => c < 128) s.

(** An engine whose upper-case table shifts every code unit: it sends
    non-ASCII letters to other code units than the example runtime does. *)
Definition shiftedRuntime : Runtime :=
  mkRuntime (fun c => [c + 1]) (JSON_parse exampleRuntime) (captureStack exampleRuntime).

(** A repository whose one tools page has accented letters, which the
    upper-case table of the engine is asked about, right before and after a
    tool name. *)
Definition accentWorld : World :=
  mkWorld (lit "/work/docs") []
    (Dir [(lit "work", Dir [(lit "docs", Dir [
       (lit "tools", Dir [
          (lit "search.mdx", File ([201] ++ lit "search_ads" ++ [233]))])])])])
    noNetwork.








(** The requests of a trace, in order. *)
Definition requestsOf (t : list event) : list request :=
  flat_map (fun e => match e with HttpsRequest r => [r] | _ => [] end) t.

(** A computation that sends no request. *)
Definition offline {A} (m : M A) : Prop := requestsOf (snd m) = [].

(** * Theorems *)

(** ** Strings *)

Lemma str_eqb_eq (a b : str) : str_eqb a b = true <-> a = b.
Proof.
  revert b; induction a as [|x a IH]; destruct b as [|y b]; simpl; split;
    try congruence; try reflexivity.
  - intros H. apply andb_true_iff in H as [Hx Hab].
    apply N.eqb_eq in Hx. apply IH in Hab. congruence.
  - intros H. injection H as -> ->. rewrite N.eqb_refl. simpl. now apply IH.
Qed.

Lemma str_eqb_refl (a : str) : str_eqb a a = true.
Proof. now apply str_eqb_eq. Qed.


Lemma startsWith_spec (s p : str) :
  startsWith s p = true <-> exists rest, s = p ++ rest.
Proof.
  revert s; induction p as [|y p IH]; intros s; simpl.
  - split; [intros _; now exists s | reflexivity].
  - destruct s as [|x s].
    + split; [discriminate | intros [rest H]; discriminate].
    + rewrite andb_true_iff, N.eqb_eq, IH. split.
      * intros [-> [rest ->]]. now exists rest.
      * intros [rest H]. injection H as -> ->. split; [reflexivity | now exists rest].
Qed.

Lemma includes_spec (s p : str) :
  includes s p = true <-> exists pre post, s = pre ++ p ++ post.
Proof.
  induction s as [|x s IH].
  - simpl. rewrite orb_false_r, startsWith_spec. split.
    + intros [rest H]. now exists [], rest.
    + intros (pre & post & H). destruct pre; [|discriminate].
      simpl in H. now exists post.
  - cbn [includes]. rewrite orb_true_iff, IH, startsWith_spec. split.
    + intros [[rest H] | (pre & post & H)].
      * now exists [], rest.
      * exists (x :: pre), post. simpl. now rewrite H.
    + intros (pre & post & H). destruct pre as [|y pre].
      * left. now exists post.
      * right. injection H as -> H. now exists pre, post.
Qed.

Lemma includes_refl (s : str) : includes s s = true.
Proof. apply includes_spec. exists [], []. now rewrite app_nil_r. Qed.

(** ** The pattern of a tool name *)

Lemma existsb_eqb_In (c : N) (l : list N) : existsb (N.eqb c) l = true <-> In c l.
Proof.
  rewrite existsb_exists. split.
  - intros [x [Hin Heq]]. apply N.eqb_eq in Heq. now subst.
  - intros Hin. exists c. split; [assumption | apply N.eqb_refl].
Qed.

Lemma escaped_isSyntaxCharacter (c : N) :
  existsb (N.eqb c) (lit ".*+?^${}()|[]\") = isSyntaxCharacter c.
Proof.
  apply eq_true_iff_eq. unfold isSyntaxCharacter.
  rewrite !existsb_eqb_In. simpl. intuition.
Qed.

Lemma option_map_Some {A B} (f : A -> B) (o : option A) (b : B) :
  option_map f o = Some b -> exists a, o = Some a /\ b = f a.
Proof. destruct o; simpl; [|discriminate]. intros H. injection H as <-. eauto. Qed.

Lemma lex_mono (f : nat) :
  forall s ts f', lex f s = Some ts -> (f <= f')%nat -> lex f' s = Some ts.
Proof.
  induction f as [|f IH]; intros s ts f' H Hle; [discriminate|].
  destruct f' as [|f']; [lia|]. assert (Hf : (f <= f')%nat) by lia.
  simpl in *. destruct s as [|c s1]; [assumption|].
  repeat match type of H with
  | context [if ?b then _ else _] => destruct b
  | context [match ?l with [] => _ | _ :: _ => _ end] => destruct l
  | context [match lexClassBody ?b ?a with _ => _ end] => destruct (lexClassBody b a) as [[? ?]|]
  end; try discriminate;
  apply option_map_Some in H as (ts' & H & ->);
  now rewrite (IH _ _ _ H Hf).
Qed.

Lemma escapeRegExp_cons (c : N) (s : str) :
  escapeRegExp (c :: s) =
  (if isSyntaxCharacter c then [92; c] else [c]) ++ escapeRegExp s.
Proof. unfold escapeRegExp. cbn [flat_map]. now rewrite escaped_isSyntaxCharacter. Qed.

Lemma lex_plain (f : nat) (c : N) (s : str) :
  isSyntaxCharacter c = false ->
  lex (S f) (c :: s) = option_map (cons (TChar c)) (lex f s).
Proof.
  intros H. unfold isSyntaxCharacter in H. simpl in H.
  repeat match type of H with
  | _ || _ = false => apply orb_false_iff in H; destruct H as [? H]
  end.
  simpl.
  repeat match goal with E : (c =? _) = false |- _ => rewrite E; clear E end.
  reflexivity.
Qed.

Lemma lex_escaped (f : nat) (c : N) (s : str) :
  isSyntaxCharacter c = true ->
  lex (S f) (92 :: c :: s) = option_map (cons (TChar c)) (lex f s).
Proof. intros H. simpl. now rewrite H. Qed.

(** The escaped name lexes to its own characters, each a literal. *)
Lemma lex_escapeRegExp (name : str) :
  forall f rest ts,
    lex f rest = Some ts ->
    lex (length name + f) (escapeRegExp name ++ rest) = Some (map TChar name ++ ts).
Proof.
  induction name as [|c name IH]; intros f rest ts H; [exact H|].
  rewrite escapeRegExp_cons. cbn [length Nat.add].
  destruct (isSyntaxCharacter c) eqn:E.
  - cbn [app]. rewrite (lex_escaped _ _ _ E), (IH _ _ _ H). reflexivity.
  - cbn [app]. rewrite (lex_plain _ _ _ E), (IH _ _ _ H). reflexivity.
Qed.

Lemma escapeRegExp_length (name : str) :
  (length name <= length (escapeRegExp name))%nat.
Proof.
  induction name as [|c name IH]; [simpl; lia|].
  rewrite escapeRegExp_cons, length_app.
  destruct (isSyntaxCharacter c); simpl; lia.
Qed.

Lemma lex_toolPattern (name : str) :
  lex (S (length (toolPattern name))) (toolPattern name) = Some (toolTokens name).
Proof.
  apply lex_mono with (f := (5 + (length name + 15))%nat).
  - unfold toolPattern.
    change (lit "(^|[^a-z0-9_])")
      with [40; 94; 124; 91; 94; 97; 45; 122; 48; 45; 57; 95; 93; 41].
    rewrite <- app_comm_cons.
    cbn [Nat.add lex N.eqb Pos.eqb app orb lexClassBody andb negb N.leb N.compare
         Pos.compare Pos.compare_cont rev].
    rewrite (lex_escapeRegExp name 15 _
               [TLParen; TClass true boundaryClass; TBar; TDollar; TRParen])
      by reflexivity.
    reflexivity.
  - unfold toolPattern. rewrite !length_app.
    pose proof (escapeRegExp_length name). simpl. lia.
Qed.

Lemma parse_mono (f : nat) :
  (forall ts r f', parseDisjunction f ts = Some r -> (f <= f')%nat ->
                   parseDisjunction f' ts = Some r) /\
  (forall ts r f', parseAlternative f ts = Some r -> (f <= f')%nat ->
                   parseAlternative f' ts = Some r).
Proof.
  induction f as [|f [IHd IHa]]; split; intros ts r f' H Hle; try discriminate;
    (destruct f' as [|f']; [lia|]); assert (Hf : (f <= f')%nat) by lia;
    simpl in H |- *.
  - destruct (parseAlternative f ts) as [[a rest]|] eqn:E; [|discriminate].
    rewrite (IHa _ _ _ E Hf).
    destruct rest as [|[] rest]; try assumption.
    destruct (parseDisjunction f rest) as [[d rest']|] eqn:E2; [|discriminate].
    now rewrite (IHd _ _ _ E2 Hf).
  - destruct ts as [|t rest]; [assumption|].
    destruct t; try assumption; try discriminate;
    repeat match type of H with
    | context [quantified ?a ?l] => destruct (quantified a l) as [? ?]
    | context [parseAlternative f ?l] =>
        let E := fresh "E" in
        destruct (parseAlternative f l) as [[? ?]|] eqn:E;
        [rewrite (IHa _ _ _ E Hf) | discriminate]
    | context [parseDisjunction f ?l] =>
        let E := fresh "E" in
        destruct (parseDisjunction f l) as [[? [|[] ?]]|] eqn:E;
        try discriminate; rewrite (IHd _ _ _ E Hf)
    end; assumption.
Qed.

Lemma parseAlternative_chars (name : str) :
  forall f ts r rest,
    startsAtom ts ->
    parseAlternative f ts = Some (r, rest) ->
    parseAlternative (length name + f) (map TChar name ++ ts)
    = Some (seqChars name r, rest).
Proof.
  induction name as [|c name IH]; intros f ts r rest Hq H; [exact H|].
  cbn [length Nat.add map app parseAlternative seqChars].
  assert (Hs : quantified (Char c) (map TChar name ++ ts) = (Char c, map TChar name ++ ts)).
  { destruct name; [apply Hq | reflexivity]. }
  rewrite Hs, (IH _ _ _ _ Hq H). reflexivity.
Qed.

Lemma parse_toolTokens (name : str) :
  parseDisjunction (2 * length (toolTokens name) + 2) (toolTokens name)
  = Some (toolRegex name, []).
Proof.
  apply (proj1 (parse_mono (S (S (length name + 12))))).
  - remember (length name + 12)%nat as g eqn:Hg.
    unfold toolTokens. cbn [app parseDisjunction parseAlternative].
    set (tail := map TChar name ++ _).
    assert (Hgroup : parseDisjunction g (TCaret :: TBar :: TClass true boundaryClass :: TRParen :: tail)
                     = Some (Alt (Seq Bol Empty) (Seq (Class true boundaryClass) Empty),
                             TRParen :: tail)).
    { apply (proj1 (parse_mono 6)); [reflexivity | lia]. }
    rewrite Hgroup.
    assert (Hq : forall a, quantified a tail = (a, tail)).
    { intros a. unfold tail. destruct name; reflexivity. }
    rewrite Hq. unfold tail. rewrite Hg.
    rewrite (parseAlternative_chars name 12
               [TLParen; TClass true boundaryClass; TBar; TDollar; TRParen]
               (Seq (Group (Alt (Seq (Class true boundaryClass) Empty) (Seq Eol Empty))) Empty)
               []); [reflexivity | intros a; reflexivity | reflexivity].
  - unfold toolTokens. rewrite !length_app, length_map. simpl. lia.
Qed.

Theorem RegExp_new_toolPattern (name : str) :
  RegExp_new (toolPattern name) (lit "i") = Some (mkRegExp (toolRegex name) true).
Proof.
  unfold RegExp_new. rewrite lex_toolPattern, parse_toolTokens. reflexivity.
Qed.

(** ** Matching the pattern of a tool name *)

Lemma matchAt_seqChars (rt : Runtime) (name : str) :
  forall r i s k,
    matchAt rt true (seqChars name r) i s k =
    match stripName rt name s with
    | Some rest => matchAt rt true r (length name + i) rest k
    | None => false
    end.
Proof.
  induction name as [|c name IH]; intros r i s k; [reflexivity|].
  cbn [seqChars matchAt stripName length]. destruct s as [|x s]; [reflexivity|].
  destruct (Canonicalize rt true x =? Canonicalize rt true c); [|reflexivity].
  cbn [andb]. rewrite IH. now rewrite Nat.add_succ_r.
Qed.

Lemma stripName_spec (rt : Runtime) (name : str) :
  forall s rest,
    stripName rt name s = Some rest <->
    exists mid, s = mid ++ rest /\ Forall2 (sameLetter rt) mid name.
Proof.
  induction name as [|c name IH]; intros s rest; cbn [stripName].
  - split.
    + intros H. injection H as ->. exists []. split; [reflexivity | constructor].
    + intros (mid & -> & H). inversion H. reflexivity.
  - destruct s as [|x s].
    + split; [discriminate|]. intros (mid & H & HF). inversion HF; subst. discriminate.
    + destruct (Canonicalize rt true x =? Canonicalize rt true c) eqn:E.
      * apply N.eqb_eq in E. rewrite IH. split.
        -- intros (mid & -> & HF). exists (x :: mid). split; [reflexivity|].
           constructor; assumption.
        -- intros (mid & H & HF). inversion HF; subst. injection H as -> ->.
           eauto.
      * apply N.eqb_neq in E. split; [discriminate|].
        intros (mid & H & HF). inversion HF; subst. injection H as -> ->.
        contradiction.
Qed.

Lemma forall_below (P : N -> bool) (n : nat) :
  forallb P (map N.of_nat (seq 0 n)) = true ->
  forall x, x < N.of_nat n -> P x = true.
Proof.
  intros H x Hx. rewrite forallb_forall in H. apply H.
  rewrite <- (N2Nat.id x). apply in_map. apply in_seq. lia.
Qed.

Lemma Canonicalize_high (rt : Runtime) (x : N) :
  128 <= x -> 128 <= Canonicalize rt true x.
Proof.
  intros H. unfold Canonicalize. cbn [negb].
  destruct (x <? 128) eqn:E; [apply N.ltb_lt in E; lia|].
  destruct (toUpperCase rt x) as [|cu [|]]; try assumption.
  destruct (cu <? 128) eqn:E2; [assumption | now apply N.ltb_ge in E2].
Qed.

Lemma Canonicalize_low (rt : Runtime) (a : N) :
  a < 128 -> Canonicalize rt true a < 128.
Proof.
  intros H. unfold Canonicalize. cbn [negb].
  destruct (a <? 128) eqn:E; [|apply N.ltb_ge in E; lia].
  unfold asciiUpper. destruct ((97 <=? a) && (a <=? 122)); lia.
Qed.

Lemma existsb_low_high (rt : Runtime) (x : N) (l : list N) :
  forallb (fun a => a <? 128) l = true -> 128 <= x ->
  existsb (fun a => Canonicalize rt true a =? Canonicalize rt true x) l = false.
Proof.
  intros Hl Hx. induction l as [|a l IH]; [reflexivity|].
  cbn [forallb] in Hl. apply andb_true_iff in Hl as [Ha Hl].
  cbn [existsb]. rewrite (IH Hl), orb_false_r. apply N.eqb_neq.
  apply N.ltb_lt in Ha.
  pose proof (Canonicalize_low rt a Ha). pose proof (Canonicalize_high rt x Hx). lia.
Qed.

(** Under the [i] flag the class [[^a-z0-9_]] accepts exactly the code units
    that are not ASCII letters, digits or the underscore, whatever the
    upper-case table of the engine. *)
Lemma boundaryClass_nonword (rt : Runtime) (x : N) :
  classMatches rt true true boundaryClass x = negb (isWordChar x).
Proof.
  destruct (x <? 128) eqn:E.
  - apply N.ltb_lt in E. apply Bool.eqb_prop.
    apply (forall_below
             (fun x => Bool.eqb (classMatches rt true true boundaryClass x)
                                (negb (isWordChar x))) 128);
      [vm_compute; reflexivity | exact E].
  - apply N.ltb_ge in E. unfold classMatches, boundaryClass. cbn [existsb].
    rewrite !(existsb_low_high rt x) by (reflexivity || assumption).
    unfold isWordChar.
    replace (x <=? 57) with false by (symmetry; apply N.leb_gt; lia).
    replace (x <=? 90) with false by (symmetry; apply N.leb_gt; lia).
    replace (x <=? 122) with false by (symmetry; apply N.leb_gt; lia).
    replace (x =? 95) with false by (symmetry; apply N.eqb_neq; lia).
    now rewrite !andb_false_r.
Qed.

Lemma searchFrom_spec (rt : Runtime) (ic : bool) (r : regex) (s : str) :
  forall i,
    searchFrom rt ic r i s = true <->
    exists pre post, s = pre ++ post /\
      matchAt rt ic r (i + length pre) post (fun _ _ => true) = true.
Proof.
  induction s as [|x s IH]; intros i; cbn [searchFrom]; rewrite orb_true_iff.
  - split.
    + intros [H | H]; [|discriminate]. exists [], []. now rewrite Nat.add_0_r.
    + intros (pre & post & H & Hm). destruct pre; [|discriminate].
      simpl in H. subst post. left. now rewrite Nat.add_0_r in Hm.
  - rewrite IH. split.
    + intros [H | (pre & post & -> & Hm)].
      * exists [], (x :: s). now rewrite Nat.add_0_r.
      * exists (x :: pre), post. split; [reflexivity|].
        cbn [length]. now rewrite Nat.add_succ_r.
    + intros (pre & post & H & Hm). destruct pre as [|y pre].
      * simpl in H. subst post. left. now rewrite Nat.add_0_r in Hm.
      * injection H as -> ->. right. exists pre, post. split; [reflexivity|].
        cbn [length] in Hm. now rewrite Nat.add_succ_r in Hm.
Qed.

Lemma matchAt_toolRegex (rt : Runtime) (name : str) (j : nat) (post : str) :
  matchAt rt true (toolRegex name) j post (fun _ _ => true) =
  (Nat.eqb j 0 && occursAtHead rt name post)
  || match post with
     | x :: post' => negb (isWordChar x) && occursAtHead rt name post'
     | [] => false
     end.
Proof.
  assert (Htail : forall i t,
    matchAt rt true (seqChars name
       (Seq (Group (Alt (Seq (Class true boundaryClass) Empty) (Seq Eol Empty))) Empty))
       i t (fun _ _ => true) = occursAtHead rt name t).
  { intros i t. rewrite matchAt_seqChars. unfold occursAtHead.
    destruct (stripName rt name t) as [[|x rest]|]; cbn [matchAt]; try reflexivity.
    rewrite boundaryClass_nonword. now rewrite andb_true_r, orb_false_r. }
  unfold toolRegex. cbn [matchAt]. rewrite Htail.
  destruct post as [|x post']; [reflexivity|].
  now rewrite Htail, boundaryClass_nonword.
Qed.

Lemma occursAtHead_spec (rt : Runtime) (name t : str) :
  occursAtHead rt name t = true <->
  exists mid post, t = mid ++ post /\ Forall2 (sameLetter rt) mid name /\
    (post = [] \/ exists x post', post = x :: post' /\ isWordChar x = false).
Proof.
  unfold occursAtHead. split.
  - destruct (stripName rt name t) as [rest|] eqn:E; [|discriminate].
    apply stripName_spec in E as (mid & -> & HF). intros H.
    exists mid, rest. repeat split; try assumption.
    destruct rest as [|x rest]; [now left | right].
    exists x, rest. split; [reflexivity | now apply negb_true_iff].
  - intros (mid & post & -> & HF & Hpost).
    assert (E : stripName rt name (mid ++ post) = Some post)
      by (apply stripName_spec; eauto).
    rewrite E. destruct Hpost as [-> | (x & post' & -> & Hx)]; [reflexivity|].
    now rewrite Hx.
Qed.

(** The pattern built for a tool name is a valid regular expression, and it
    matches a text exactly when the name occurs in it as a whole word, letter
    case apart. *)
Theorem toolPattern_wholeWord (rt : Runtime) (name text : str) :
  exists re, RegExp_new (toolPattern name) (lit "i") = Some re /\
    (test rt re text = true <-> wholeWordIn rt name text).
Proof.
  exists (mkRegExp (toolRegex name) true). split; [apply RegExp_new_toolPattern|].
  unfold test. cbn [source ignoreCase]. rewrite searchFrom_spec. unfold wholeWordIn.
  split.
  - intros (pre & post & -> & Hm). rewrite matchAt_toolRegex in Hm.
    apply orb_true_iff in Hm as [Hm | Hm].
    + apply andb_true_iff in Hm as [Hj Ho]. apply Nat.eqb_eq in Hj.
      destruct pre; [|simpl in Hj; lia].
      apply occursAtHead_spec in Ho as (mid & post' & -> & HF & Hp).
      exists [], mid, post'. repeat split; try assumption. now left.
    + destruct post as [|x post]; [discriminate|].
      apply andb_true_iff in Hm as [Hx Ho]. apply negb_true_iff in Hx.
      apply occursAtHead_spec in Ho as (mid & post' & -> & HF & Hp).
      exists (pre ++ [x]), mid, post'. repeat split; try assumption.
      * now rewrite <- app_assoc.
      * right. eauto.
  - intros (pre & mid & post & -> & HF & Hpre & Hpost).
    assert (Ho : occursAtHead rt name (mid ++ post) = true)
      by (apply occursAtHead_spec; exists mid, post; auto).
    destruct Hpre as [-> | (pre' & x & -> & Hx)].
    + exists [], (mid ++ post). split; [reflexivity|].
      rewrite matchAt_toolRegex, Ho. reflexivity.
    + exists pre', (x :: mid ++ post). split; [now rewrite <- app_assoc|].
      rewrite matchAt_toolRegex, Ho, Hx. cbn. apply orb_true_r.
Qed.

(** Without the escaping the dot of a name would match any character; with
    it the name matches only itself, in either letter case, and only as a
    whole word. *)
Example escapeRegExp_matters :
  option_map (fun re => test exampleRuntime re (lit "use axb now"))
    (RegExp_new (lit "(^|[^a-z0-9_])" ++ lit "a.b" ++ lit "([^a-z0-9_]|$)") (lit "i"))
  = Some true /\
  option_map (fun re => test exampleRuntime re (lit "use axb now"))
    (RegExp_new (toolPattern (lit "a.b")) (lit "i")) = Some false /\
  option_map (fun re => test exampleRuntime re (lit "use A.B now"))
    (RegExp_new (toolPattern (lit "a.b")) (lit "i")) = Some true /\
  option_map (fun re => test exampleRuntime re (lit "search_ads_v2"))
    (RegExp_new (toolPattern (lit "search_ads")) (lit "i")) = Some false /\
  option_map (fun re => test exampleRuntime re (lit "(search_ads)"))
    (RegExp_new (toolPattern (lit "search_ads")) (lit "i")) = Some true.
Proof. repeat split; vm_compute; reflexivity. Qed.

(** ** Effects *)

Lemma bind_Ok {A B} (m : M A) (f : A -> M B) (b : B) (t : list event) :
  bind m f = (Ok b, t) ->
  exists a t1 t2, m = (Ok a, t1) /\ f a = (Ok b, t2) /\ t = t1 ++ t2.
Proof.
  destruct m as [[a | e | c] t1]; cbn [bind]; try discriminate.
  destruct (f a) as [r t2] eqn:E. intros H. injection H as -> <-.
  exists a, t1, t2. auto.
Qed.

Lemma fst_bind_Ok {A B} (m : M A) (f : A -> M B) (b : B) :
  fst (bind m f) = Ok b ->
  exists a, fst m = Ok a /\ fst (f a) = Ok b.
Proof.
  destruct m as [[a | e | c] t1]; cbn [bind fst]; try discriminate.
  destruct (f a) as [r t2] eqn:E. cbn [fst]. intros ->.
  exists a. rewrite E. auto.
Qed.

Lemma fst_bind {A B} (m : M A) (f : A -> M B) :
  fst (bind m f) =
  match fst m with
  | Ok a => fst (f a)
  | Throw e => Throw e
  | Exit c => Exit c
  end.
Proof.
  destruct m as [[a | e | c] t1]; cbn [bind fst]; try reflexivity.
  now destruct (f a).
Qed.

Lemma fst_mapM_Ok {A B} (f : A -> M B) (l : list A) :
  forall ys, fst (mapM f l) = Ok ys -> Forall2 (fun x y => fst (f x) = Ok y) l ys.
Proof.
  induction l as [|x l IH]; intros ys H.
  - cbn in H. injection H as <-. constructor.
  - cbn [mapM] in H. apply fst_bind_Ok in H as (y & Hy & H).
    apply fst_bind_Ok in H as (ys' & Hys & H). cbn in H. injection H as <-.
    constructor; [assumption | now apply IH].
Qed.

(** ** The filesystem *)

Lemma fs_lookup_Found (w : World) (p : str) (n : node) :
  fs_lookup w p = Some n <-> fs_resolve w p = Found n.
Proof. unfold fs_lookup. destruct (fs_resolve w p); split; congruence. Qed.

Lemma fs_lookup_None (w : World) (p : str) :
  fs_lookup w p = None <-> fs_resolve w p = NoEntry \/ fs_resolve w p = NotDirectory.
Proof.
  unfold fs_lookup. destruct (fs_resolve w p); split; try congruence; auto.
  intros [H | H]; discriminate.
Qed.

Lemma readText_Ok (rt : Runtime) (w : World) (p txt : str) :
  fst (readText rt w p) = Ok txt <-> fs_lookup w p = Some (File txt).
Proof.
  unfold readText, fs_lookup. rewrite fst_bind. cbn [emit fst].
  destruct (fs_resolve w p) as [[t | | ents] | |]; cbn; split; congruence.
Qed.

Lemma walkFiles_Found (rt : Runtime) (w : World) (dir : str) (predicate : str -> bool)
    (n : node) :
  fs_lookup w dir = Some n -> walkFiles rt w dir predicate = walkNode rt n dir predicate.
Proof. intros H. apply fs_lookup_Found in H. unfold walkFiles. now rewrite H. Qed.

Lemma walkNode_Dir (rt : Runtime) (ents : list (str * node)) (dir : str)
    (predicate : str -> bool) :
  walkNode rt (Dir ents) dir predicate =
  (emit (ReaddirSync dir) ;;; walkEntries rt dir predicate ents).
Proof.
  cbn [walkNode].
  match goal with
  | |- bind _ (fun _ => ?loop ents) = _ =>
      assert (H : forall l, loop l = walkEntries rt dir predicate l)
  end.
  { induction l as [|[name child] rest IH]; [reflexivity|].
    cbn [walkEntries]. now rewrite <- IH. }
  now rewrite H.
Qed.

Lemma walkNode_notDir (rt : Runtime) (n : node) (dir : str) (predicate : str -> bool) :
  isDirectory n = false ->
  fst (walkNode rt n dir predicate)
  = Throw (fsError rt "ENOTDIR: not a directory, scandir" dir).
Proof. destruct n; cbn; congruence. Qed.

(** Walking a directory never fails, and returns exactly the paths of the
    nodes below it that are not directories and satisfy the predicate. *)
Lemma walkEntries_spec (rt : Runtime) (predicate : str -> bool) (ents : list (str * node)) :
  forall dir, exists files,
    fst (walkEntries rt dir predicate ents) = Ok files /\
    forall p, In p files <->
              exists n, fileUnder dir ents p n /\ predicate p = true.
Proof.
  assert (HP : forall n, forall dir,
    match n with
    | Dir ents => exists files,
        fst (walkEntries rt dir predicate ents) = Ok files /\
        forall p, In p files <-> exists n, fileUnder dir ents p n /\ predicate p = true
    | _ => True
    end).
  { induction n as [text | | ents' IH] using node_tree_ind; intros dir; try exact I.
    revert dir. induction ents' as [|[name child] rest IHrest]; intros dir.
    - exists []. split; [reflexivity|]. intros p. split; [intros []|].
      intros (n & H & _). inversion H.
    - inversion IH as [|? ? Hchild Hrest]; subst. cbn [snd] in Hchild.
      destruct (IHrest Hrest dir) as (out & Hout & Hspec).
      cbn [walkEntries]. destruct child as [text | | sub].
      + cbn [isDirectory]. destruct (predicate (path_join [dir; name])) eqn:Ep.
        * exists (path_join [dir; name] :: out). split.
          { rewrite fst_bind, Hout. reflexivity. }
          intros p. cbn [In]. rewrite Hspec. split.
          -- intros [<- | (n & H & Hp)].
             ++ exists (File text). split; [now constructor | assumption].
             ++ exists n. split; [now apply fileUnder_next | assumption].
          -- intros (n & H & Hp). inversion H; subst; [now left | right; eauto].
        * exists out. split; [assumption|]. intros p. rewrite Hspec. split.
          -- intros (n & H & Hp). exists n. split; [now apply fileUnder_next | assumption].
          -- intros (n & H & Hp). inversion H; subst; [congruence | eauto].
      + cbn [isDirectory]. destruct (predicate (path_join [dir; name])) eqn:Ep.
        * exists (path_join [dir; name] :: out). split.
          { rewrite fst_bind, Hout. reflexivity. }
          intros p. cbn [In]. rewrite Hspec. split.
          -- intros [<- | (n & H & Hp)].
             ++ exists Special. split; [now constructor | assumption].
             ++ exists n. split; [now apply fileUnder_next | assumption].
          -- intros (n & H & Hp). inversion H; subst; [now left | right; eauto].
        * exists out. split; [assumption|]. intros p. rewrite Hspec. split.
          -- intros (n & H & Hp). exists n. split; [now apply fileUnder_next | assumption].
          -- intros (n & H & Hp). inversion H; subst; [congruence | eauto].
      + cbn [isDirectory].
        destruct (Hchild (path_join [dir; name])) as (subfiles & Hsub & Hsubspec).
        exists (subfiles ++ out). split.
        { rewrite fst_bind, walkNode_Dir, fst_bind. cbn [emit fst].
          rewrite Hsub, fst_bind, Hout. reflexivity. }
        intros p. rewrite in_app_iff, Hspec, Hsubspec. split.
        * intros [(n & H & Hp) | (n & H & Hp)]; exists n; split; try assumption.
          -- now apply fileUnder_sub.
          -- now apply fileUnder_next.
        * intros (n & H & Hp). inversion H; subst.
          -- discriminate.
          -- left. eauto.
          -- right. eauto. }
  intros dir. exact (HP (Dir ents) dir).
Qed.

Lemma walkFiles_Ok (rt : Runtime) (w : World) (dir : str) (predicate : str -> bool)
    (files : list str) :
  fst (walkFiles rt w dir predicate) = Ok files ->
  exists ents, fs_lookup w dir = Some (Dir ents) /\
    forall p, In p files <-> exists n, fileUnder dir ents p n /\ predicate p = true.
Proof.
  unfold walkFiles, fs_lookup.
  destruct (fs_resolve w dir) as [[text | | ents] | |]; try discriminate.
  rewrite walkNode_Dir, fst_bind. cbn [emit fst].
  destruct (walkEntries_spec rt predicate ents dir) as (files' & Hf & Hspec).
  rewrite Hf. intros H. injection H as <-. eauto.
Qed.

(** ** Coverage *)

Lemma test_toolRegex (rt : Runtime) (name text : str) :
  test rt (mkRegExp (toolRegex name) true) text = true <-> wholeWordIn rt name text.
Proof.
  destruct (toolPattern_wholeWord rt name text) as (re & Hre & H).
  rewrite RegExp_new_toolPattern in Hre. injection Hre as <-. exact H.
Qed.

Lemma uncovered_spec (rt : Runtime) (texts : list str) (name : str) :
  uncovered rt texts name = true <->
  forall txt, In txt texts -> ~ wholeWordIn rt name txt.
Proof.
  unfold uncovered. rewrite negb_true_iff. split.
  - intros H txt Hin Hw. apply test_toolRegex in Hw.
    assert (E : existsb (test rt (mkRegExp (toolRegex name) true)) texts = true)
      by (apply existsb_exists; eauto).
    congruence.
  - intros H. destruct (existsb _ texts) eqn:E; [|reflexivity].
    apply existsb_exists in E as (txt & Hin & Ht).
    apply test_toolRegex in Ht. now destruct (H txt Hin).
Qed.

Lemma existsb_snd {A} (f : str -> bool) (l : list (A * str)) :
  existsb (fun entry => f (snd entry)) l = existsb f (map snd l).
Proof. induction l as [|e l IH]; [reflexivity|]. cbn. now rewrite IH. Qed.

Lemma collectMissing_spec (rt : Runtime) (corpus : list (str * str)) (toolNames : list str) :
  forall missing,
    collectMissing rt corpus toolNames missing =
    ret (missing ++ filter (uncovered rt (map snd corpus)) toolNames).
Proof.
  induction toolNames as [|name rest IH]; intros missing; cbn [collectMissing filter].
  - now rewrite app_nil_r.
  - rewrite RegExp_new_toolPattern, IH, existsb_snd. unfold uncovered at 2.
    destruct (existsb _ (map snd corpus)); cbn [negb]; [reflexivity|].
    now rewrite <- app_assoc.
Qed.

(** The coverage check, when it returns: the files of the walk, their
    texts, and the names no text covers. *)
Lemma checkToolsCovered_filter (rt : Runtime) (w : World) (toolNames : list str)
    (toolsDocsRoot : str) (toolFiles missing : list str) :
  fst (checkToolsCovered rt w toolNames toolsDocsRoot) = Ok (toolFiles, missing) ->
  exists texts,
    fst (walkFiles rt w toolsDocsRoot isMdx) = Ok toolFiles /\
    Forall2 (fun f txt => fs_lookup w f = Some (File txt)) toolFiles texts /\
    missing = filter (uncovered rt texts) toolNames.
Proof.
  intros H. unfold checkToolsCovered in H.
  apply fst_bind_Ok in H as (files & Hwalk & H).
  apply fst_bind_Ok in H as (corpus & Hcorpus & H).
  rewrite collectMissing_spec in H. cbn in H. injection H as <- <-.
  apply fst_mapM_Ok in Hcorpus.
  exists (map snd corpus). split; [exact Hwalk|]. split; [|reflexivity].
  clear Hwalk.
  induction Hcorpus as [|f entry fs es Hf Hrest IH]; cbn [map]; constructor.
  - apply fst_bind_Ok in Hf as (txt & Hr & He). cbn in He. injection He as <-.
    now apply readText_Ok in Hr.
  - exact IH.
Qed.

(** C1.  When the coverage check returns, its missing list is the
    sub-list (in order) of the tool names that occur as a whole word, letter
    case apart, in the text of no [.mdx] file below the tools documentation
    root; the pattern built for a name matches a text exactly when the name
    occurs so ([toolPattern_wholeWord]).  Hence no name is missing when
    every name occurs in some file, and a name that occurs in no file is
    reported. *)
Theorem checkToolsCovered_missing_exact (rt : Runtime) (w : World)
    (toolNames : list str) (toolsDocsRoot : str) (toolFiles missing : list str) :
  fst (checkToolsCovered rt w toolNames toolsDocsRoot) = Ok (toolFiles, missing) ->
  exists ents texts,
    fs_lookup w toolsDocsRoot = Some (Dir ents) /\
    (forall p, In p toolFiles <->
               exists n, fileUnder toolsDocsRoot ents p n /\ endsWith p (lit ".mdx") = true) /\
    Forall2 (fun f txt => fs_lookup w f = Some (File txt)) toolFiles texts /\
    missing = filter (fun name => negb (existsb (fun txt =>
        match RegExp_new (toolPattern name) (lit "i") with
        | Some re => test rt re txt
        | None => false
        end) texts)) toolNames /\
    (forall name, In name missing <->
       In name toolNames /\ forall txt, In txt texts -> ~ wholeWordIn rt name txt) /\
    ((forall name, In name toolNames ->
        exists txt, In txt texts /\ wholeWordIn rt name txt) -> missing = []) /\
    (forall name, In name toolNames ->
       (forall txt, In txt texts -> ~ wholeWordIn rt name txt) -> In name missing).
Proof.
  intros H.
  apply checkToolsCovered_filter in H as (texts & Hwalk & Htexts & ->).
  apply walkFiles_Ok in Hwalk as (ents & Hroot & Hfiles).
  assert (Hin : forall name, In name (filter (uncovered rt texts) toolNames) <->
       In name toolNames /\ forall txt, In txt texts -> ~ wholeWordIn rt name txt).
  { intros name. now rewrite filter_In, uncovered_spec. }
  exists ents, texts.
  split; [exact Hroot|]. split; [exact Hfiles|]. split; [exact Htexts|].
  split; [|split; [exact Hin|split]].
  - apply filter_ext. intros name. unfold uncovered.
    now rewrite RegExp_new_toolPattern.
  - intros Hall. destruct (filter _ toolNames) as [|name rest]; [reflexivity|].
    destruct (proj1 (Hin name) (or_introl eq_refl)) as [Hn Hno].
    destruct (Hall name Hn) as (txt & Htxt & Hw).
    now destruct (Hno txt Htxt).
  - intros name Hn Hno. apply Hin. auto.
Qed.

(** ** Extraction of the tool names *)

Lemma str_ltb_irrefl (a : str) : str_ltb a a = false.
Proof.
  induction a as [|x a IH]; [reflexivity|].
  cbn [str_ltb]. now rewrite N.ltb_irrefl, N.eqb_refl, IH.
Qed.

Lemma str_ltb_trans (a : str) :
  forall b c, str_ltb a b = true -> str_ltb b c = true -> str_ltb a c = true.
Proof.
  induction a as [|x a IH]; intros [|y b] [|z c]; cbn [str_ltb]; try congruence.
  rewrite !orb_true_iff, !andb_true_iff, !N.ltb_lt, !N.eqb_eq.
  intros [Hxy | [-> Hab]] [Hyz | [-> Hbc]].
  - left. lia.
  - now left.
  - now left.
  - right. split; [reflexivity | eapply IH; eassumption].
Qed.

Lemma str_ltb_total (a : str) :
  forall b, str_ltb a b = false -> str_ltb b a = false -> a = b.
Proof.
  induction a as [|x a IH]; intros [|y b]; cbn [str_ltb]; try congruence.
  rewrite !orb_false_iff, !andb_false_iff, !N.ltb_ge, !N.eqb_neq.
  intros [Hyx Hab] [Hxy Hba].
  assert (x = y) by lia. subst y. f_equal.
  apply IH; [destruct Hab | destruct Hba]; congruence.
Qed.

Lemma str_ltb_asym (a b : str) : str_ltb a b = true -> str_ltb b a = false.
Proof.
  intros H. destruct (str_ltb b a) eqn:E; [|reflexivity].
  pose proof (str_ltb_trans _ _ _ H E) as Haa.
  now rewrite str_ltb_irrefl in Haa.
Qed.

Lemma insertSorted_In (x y : str) (l : list str) :
  In x (insertSorted y l) <-> x = y \/ In x l.
Proof.
  induction l as [|z l IH]; cbn [insertSorted In].
  - intuition congruence.
  - destruct (str_leb y z); cbn [In]; rewrite ?IH; intuition congruence.
Qed.

Lemma str_leb_trans (a b c : str) :
  str_leb a b = true -> str_leb b c = true -> str_leb a c = true.
Proof.
  unfold str_leb. rewrite !negb_true_iff. intros Hba Hcb.
  destruct (str_ltb c a) eqn:Hca; [|reflexivity].
  destruct (str_ltb a b) eqn:Hab.
  - pose proof (str_ltb_trans _ _ _ Hca Hab). congruence.
  - assert (a = b) by now apply str_ltb_total. subst. congruence.
Qed.

Lemma insertSorted_ascending (x : str) (l : list str) :
  ascending l -> ascending (insertSorted x l).
Proof.
  unfold ascending. induction 1 as [|y l Hl IH Hy]; cbn [insertSorted].
  - repeat constructor.
  - destruct (str_leb x y) eqn:E.
    + constructor; [now constructor|]. constructor; [assumption|].
      rewrite Forall_forall in Hy |- *. intros z Hz.
      eapply str_leb_trans; [exact E | now apply Hy].
    + constructor; [assumption|]. rewrite Forall_forall in Hy |- *.
      intros z Hz. apply insertSorted_In in Hz as [-> | Hz]; [|now apply Hy].
      unfold str_leb in E |- *. apply negb_false_iff in E.
      now rewrite (str_ltb_asym _ _ E).
Qed.

Lemma insertSorted_NoDup (x : str) (l : list str) :
  ~ In x l -> NoDup l -> NoDup (insertSorted x l).
Proof.
  induction l as [|y l IH]; intros Hx Hl; cbn [insertSorted].
  - repeat constructor. intros [].
  - destruct (str_leb x y); [now constructor|].
    inversion Hl as [|? ? Hy Hl']; subst. constructor.
    + rewrite insertSorted_In. intros [-> | H]; [apply Hx; now left | contradiction].
    + apply IH; [|assumption]. intros H. apply Hx. now right.
Qed.

Lemma sortStrings_In (x : str) (l : list str) : In x (sortStrings l) <-> In x l.
Proof.
  induction l as [|y l IH]; [reflexivity|].
  cbn [sortStrings fold_right]. fold (sortStrings l).
  rewrite insertSorted_In, IH. cbn [In]. intuition congruence.
Qed.

Lemma sortStrings_ascending (l : list str) : ascending (sortStrings l).
Proof.
  induction l as [|y l IH]; [constructor|].
  cbn [sortStrings fold_right]. now apply insertSorted_ascending.
Qed.

Lemma sortStrings_NoDup (l : list str) : NoDup l -> NoDup (sortStrings l).
Proof.
  induction 1 as [|y l Hy Hl IH]; [constructor|].
  cbn [sortStrings fold_right]. fold (sortStrings l).
  apply insertSorted_NoDup; [now rewrite sortStrings_In | assumption].
Qed.

Lemma setAdd_In (set : list str) (x y : str) :
  In y (setAdd set x) <-> In y set \/ y = x.
Proof.
  unfold setAdd. destruct (existsb (str_eqb x) set) eqn:E.
  - apply existsb_exists in E as (z & Hz & Ez). apply str_eqb_eq in Ez. subst z.
    intuition congruence.
  - rewrite in_app_iff. cbn [In]. intuition congruence.
Qed.

Lemma setAdd_NoDup (set : list str) (x : str) : NoDup set -> NoDup (setAdd set x).
Proof.
  intros H. unfold setAdd. destruct (existsb (str_eqb x) set) eqn:E; [assumption|].
  apply NoDup_app; [assumption | repeat constructor; intros [] |].
  intros a Ha [E' | []]. subst a.
  assert (existsb (str_eqb x) set = true); [|congruence].
  apply existsb_exists. exists x. split; [assumption | apply str_eqb_refl].
Qed.

Lemma fold_setAdd (names : list str) :
  forall set, NoDup set ->
    NoDup (fold_left setAdd names set) /\
    forall y, In y (fold_left setAdd names set) <-> In y set \/ In y names.
Proof.
  induction names as [|x names IH]; intros set Hset; cbn [fold_left].
  - split; [assumption|]. intros y. cbn [In]. tauto.
  - destruct (IH (setAdd set x) (setAdd_NoDup _ _ Hset)) as [Hnd Hin].
    split; [assumption|]. intros y. rewrite Hin, setAdd_In. cbn [In].
    intuition congruence.
Qed.

Lemma uniqueOf_spec (names : list str) :
  NoDup (uniqueOf names) /\ forall y, In y (uniqueOf names) <-> In y names.
Proof.
  destruct (fold_setAdd names [] (NoDup_nil _)) as [Hnd Hin].
  split; [assumption|]. intros y. unfold uniqueOf. rewrite Hin. cbn [In]. tauto.
Qed.

Lemma ascending_NoDup_strict (l : list str) :
  ascending l -> NoDup l -> strictlyAscending l.
Proof.
  induction 1 as [|x l Hl IH Hx]; intros Hnd; [constructor|].
  inversion Hnd as [|? ? Hnot Hnd']; subst.
  constructor; [now apply IH|].
  rewrite Forall_forall in Hx |- *. intros y Hy.
  specialize (Hx y Hy). unfold str_leb in Hx. apply negb_true_iff in Hx.
  destruct (str_ltb x y) eqn:E; [reflexivity|].
  assert (x = y) by now apply str_ltb_total. subst. contradiction.
Qed.

(** A strictly ascending list is determined by its elements. *)
Lemma strictlyAscending_unique (l1 : list str) :
  forall l2, strictlyAscending l1 -> strictlyAscending l2 ->
    (forall x, In x l1 <-> In x l2) -> l1 = l2.
Proof.
  induction l1 as [|a l1 IH]; intros [|b l2] H1 H2 Hin.
  - reflexivity.
  - destruct (proj2 (Hin b) (or_introl eq_refl)).
  - destruct (proj1 (Hin a) (or_introl eq_refl)).
  - inversion H1 as [|? ? Hs1 Ha]; inversion H2 as [|? ? Hs2 Hb]; subst.
    rewrite Forall_forall in Ha, Hb.
    assert (a = b).
    { destruct (proj1 (Hin a) (or_introl eq_refl)) as [E | Hal2]; [congruence|].
      destruct (proj2 (Hin b) (or_introl eq_refl)) as [E | Hbl1]; [congruence|].
      pose proof (Ha _ Hbl1) as Hab. pose proof (Hb _ Hal2) as Hba.
      now rewrite (str_ltb_asym _ _ Hab) in Hba. }
    subst b. f_equal. apply IH; try assumption.
    intros x. split; intros Hx.
    + destruct (proj1 (Hin x) (or_intror Hx)) as [E | H]; [|assumption].
      subst x. pose proof (Ha _ Hx) as Haa. now rewrite str_ltb_irrefl in Haa.
    + destruct (proj2 (Hin x) (or_intror Hx)) as [E | H]; [|assumption].
      subst x. pose proof (Hb _ Hx) as Haa. now rewrite str_ltb_irrefl in Haa.
Qed.

(** C6.  The extracted list is strictly ascending in code-unit order, so it
    has no duplicates; it holds exactly the names the entries yield, each
    once, however many entries yield it; and it is determined by that set of
    names alone. *)
Theorem extractToolNames_sorted_unique (mcpToolsJson : value) :
  let names := fold_left pushName (toolsOf mcpToolsJson) [] in
  let out := extractToolNames mcpToolsJson in
  StronglySorted (fun a b => str_ltb a b = true) out /\
  NoDup out /\
  (forall x, In x out <-> In x names) /\
  (forall x, In x names -> count_occ str_eq_dec out x = 1%nat) /\
  (forall other,
     (forall x, In x names <-> In x (fold_left pushName (toolsOf other) [])) ->
     extractToolNames other = out).
Proof.
  intros names out.
  assert (Hgen : forall m,
    strictlyAscending (extractToolNames m) /\ NoDup (extractToolNames m) /\
    forall x, In x (extractToolNames m) <-> In x (fold_left pushName (toolsOf m) [])).
  { intros m. unfold extractToolNames.
    destruct (uniqueOf_spec (fold_left pushName (toolsOf m) [])) as [Hnd Hin].
    assert (Hnd' := sortStrings_NoDup _ Hnd).
    split; [|split].
    - apply ascending_NoDup_strict; [apply sortStrings_ascending | assumption].
    - assumption.
    - intros x. now rewrite sortStrings_In, Hin. }
  subst names out. destruct (Hgen mcpToolsJson) as (Hs & Hnd & Hin).
  split; [exact Hs|]. split; [exact Hnd|]. split; [exact Hin|]. split.
  - intros x Hx. apply Hin in Hx.
    pose proof (proj1 (NoDup_count_occ str_eq_dec _) Hnd x) as Hle.
    pose proof (proj1 (count_occ_In str_eq_dec _ x) Hx). lia.
  - intros other Hsame. destruct (Hgen other) as (Hs' & _ & Hin').
    apply strictlyAscending_unique; try assumption.
    intros x. rewrite Hin', Hin. symmetry. apply Hsame.
Qed.

(** C2, as stated, fails: with a number under [name] and a string under
    [tool], the specification's reading yields the [tool] string, while the
    entry yields no name at all. *)
Lemma pushName_number_blocks_fallthrough :
  specNameOf numberNamedEntry = Some (lit "x") /\
  pushName [] numberNamedEntry = [] /\
  extractToolNames (VArr [numberNamedEntry]) = [] /\
  extractToolNames (VArr [numberNamedEntry]) <> [lit "x"].
Proof. repeat split; try reflexivity. discriminate. Qed.

Lemma falsy_pickString (v : option value) :
  truthy v = false -> pickString v = None.
Proof.
  destruct v as [[| b | q | s | l | o]|]; try reflexivity.
  cbn [truthy pickString]. destruct s; [reflexivity | discriminate].
Qed.

Lemma pickString_truthy (v : option value) (s : str) :
  pickString v = Some s -> truthy v = true.
Proof.
  destruct (truthy v) eqn:E; [reflexivity|].
  rewrite (falsy_pickString v E). discriminate.
Qed.

(** The step of the extraction loop in terms of the value [n] it tests. *)
Lemma pushName_pick (names : list str) (t : value) :
  pushName names t =
  match pickString
          (orElse (orElse (getProp t "name") (getProp t "tool")) (getProp t "id")) with
  | Some s => names ++ [s]
  | None => names
  end.
Proof.
  unfold pushName, pickString.
  destruct (orElse _ _) as [[| b | q | s | l | o]|]; try reflexivity.
  now destruct (nonEmpty (trim s)).
Qed.

Lemma plainField_pick (v : option value) :
  plainField v = true -> truthy v = true -> exists s, pickString v = Some s.
Proof.
  unfold plainField. intros H Ht. rewrite Ht in H. cbn [negb orb] in H.
  destruct v as [[| b | q | s | l | o]|]; try discriminate.
  cbn [pickString]. rewrite H. eauto.
Qed.

(** C2, amended.  The value considered is the first truthy one among the
    fields [name], [tool], [id]: when it is a string that is non-empty once
    trimmed, the trimmed string is the name, and otherwise the entry yields
    no name, later fields are not consulted.  On entries whose three fields
    are each absent, falsy or a string non-empty once trimmed, this is the
    first field that is a non-empty string. *)
Theorem pushName_first_truthy (names : list str) (t : value) :
  let fields := [getProp t "name"; getProp t "tool"; getProp t "id"] in
  pushName names t =
    match find truthy fields with
    | Some (Some (VStr s)) => if nonEmpty (trim s) then names ++ [trim s] else names
    | _ => names
    end /\
  (forallb plainField fields = true ->
   pushName names t =
     match specNameOf t with
     | Some s => names ++ [s]
     | None => names
     end).
Proof.
  cbn zeta. rewrite pushName_pick. unfold specNameOf, orElse. cbn [find forallb].
  generalize (getProp t "name") (getProp t "tool") (getProp t "id").
  intros v1 v2 v3. split.
  - destruct (truthy v1) eqn:E1; [|destruct (truthy v2) eqn:E2; [|destruct (truthy v3) eqn:E3]];
      rewrite ?E1, ?E2, ?E3.
    + unfold pickString. destruct v1 as [[| b | q | s | l | o]|]; try reflexivity.
      now destruct (nonEmpty (trim s)).
    + unfold pickString. destruct v2 as [[| b | q | s | l | o]|]; try reflexivity.
      now destruct (nonEmpty (trim s)).
    + unfold pickString. destruct v3 as [[| b | q | s | l | o]|]; try reflexivity.
      now destruct (nonEmpty (trim s)).
    + now rewrite (falsy_pickString v3 E3).
  - rewrite !andb_true_iff. intros (H1 & H2 & H3 & _).
    destruct (truthy v1) eqn:E1; rewrite ?E1.
    { destruct (plainField_pick v1 H1 E1) as (s & Hs). now rewrite Hs. }
    rewrite (falsy_pickString v1 E1).
    destruct (truthy v2) eqn:E2; rewrite ?E2.
    { destruct (plainField_pick v2 H2 E2) as (s & Hs). now rewrite Hs. }
    rewrite (falsy_pickString v2 E2). reflexivity.
Qed.

Lemma specNameOf_None (t : value) :
  specNameOf t = None ->
  pickString (getProp t "name") = None /\
  pickString (getProp t "tool") = None /\
  pickString (getProp t "id") = None.
Proof.
  unfold specNameOf.
  destruct (pickString (getProp t "name")); [discriminate|].
  destruct (pickString (getProp t "tool")); [discriminate|]. auto.
Qed.

Lemma pushName_nameless (names : list str) (t : value) :
  specNameOf t = None -> pushName names t = names.
Proof.
  intros H. apply specNameOf_None in H as (H1 & H2 & H3).
  rewrite pushName_pick. unfold orElse.
  destruct (truthy (getProp t "name")); [|destruct (truthy (getProp t "tool"))];
    repeat match goal with
    | |- context [if truthy ?v then _ else _] => destruct (truthy v)
    end; now rewrite ?H1, ?H2, ?H3.
Qed.

Lemma fold_pushName_nameless (tools : list value) (names : list str) :
  (forall t, In t tools -> specNameOf t = None) ->
  fold_left pushName tools names = names.
Proof.
  revert names. induction tools as [|t tools IH]; intros names H; [reflexivity|].
  cbn [fold_left]. rewrite pushName_nameless by (apply H; now left).
  apply IH. intros t' Ht'. apply H. now right.
Qed.

Lemma toolsOf_other (mcpToolsJson : value) :
  (forall items, mcpToolsJson <> VArr items) ->
  (forall items, getProp mcpToolsJson "tools" <> Some (VArr items)) ->
  toolsOf mcpToolsJson = [].
Proof.
  intros Harr Htools. destruct mcpToolsJson as [| b | q | s | items | props];
    try reflexivity.
  - now destruct (Harr items).
  - unfold toolsOf. destruct (getProp (VObj props) "tools") as [[| b | q | s | items | o]|];
      try reflexivity.
    now destruct (Htools items).
Qed.

(** A manifest of another shape, or one whose entries carry no name, gives
    no tool names. *)
Lemma extractToolNames_empty (mcpToolsJson : value) :
  ((forall items, mcpToolsJson <> VArr items) /\
   (forall items, getProp mcpToolsJson "tools" <> Some (VArr items)))
  \/ (forall t, In t (toolsOf mcpToolsJson) -> specNameOf t = None) ->
  extractToolNames mcpToolsJson = [].
Proof.
  intros H. unfold extractToolNames.
  assert (E : fold_left pushName (toolsOf mcpToolsJson) [] = []).
  { destruct H as [[Harr Htools] | H].
    - now rewrite toolsOf_other.
    - now apply fold_pushName_nameless. }
  now rewrite E.
Qed.

(** ** Quiet computations *)

Lemma quiet_ret {A} (a : A) : quiet (ret a).
Proof. split; [discriminate | constructor]. Qed.

Lemma quiet_throw {A} (e : exn) : quiet (@throw A e).
Proof. split; [discriminate | constructor]. Qed.

Lemma quiet_emit (e : event) : isConsole e = false -> quiet (emit e).
Proof. intros H. split; [discriminate | repeat constructor; exact H]. Qed.

Lemma quiet_bind {A B} (m : M A) (f : A -> M B) :
  quiet m -> (forall a, quiet (f a)) -> quiet (bind m f).
Proof.
  intros [Hm Ht] Hf. destruct m as [[a | e | c] t]; cbn [bind fst snd] in *.
  - destruct (Hf a) as [Hfa Hft]. destruct (f a) as [r t'].
    cbn [fst snd] in *. split; [exact Hfa | now apply Forall_app].
  - split; [discriminate | assumption].
  - now destruct (Hm c).
Qed.

Create HintDb quiet.

#[local] Hint Resolve quiet_ret quiet_throw quiet_bind : quiet.

Lemma quiet_existsSync (w : World) (p : str) : quiet (existsSync w p).
Proof. unfold existsSync. apply quiet_bind; [now apply quiet_emit | auto with quiet]. Qed.

Lemma quiet_readText (rt : Runtime) (w : World) (p : str) : quiet (readText rt w p).
Proof.
  unfold readText. apply quiet_bind; [now apply quiet_emit|]. intros _.
  destruct (fs_resolve w p) as [[] | |]; auto with quiet.
Qed.

#[local] Hint Resolve quiet_existsSync quiet_readText : quiet.

Lemma quiet_readJson (rt : Runtime) (w : World) (p : str) : quiet (readJson rt w p).
Proof.
  unfold readJson. apply quiet_bind; [auto with quiet|]. intros text.
  destruct (JSON_parse rt text); auto with quiet.
Qed.

Lemma quiet_fetchJson (rt : Runtime) (w : World) (url : str) : quiet (fetchJson rt w url).
Proof.
  unfold fetchJson. apply quiet_bind; [now apply quiet_emit|]. intros _.
  destruct (https_request w _) as [e | status data]; [auto with quiet|].
  destruct (Nat.leb 400 status); [auto with quiet|].
  destruct (JSON_parse rt data); auto with quiet.
Qed.

#[local] Hint Resolve quiet_readJson quiet_fetchJson : quiet.

Lemma quiet_loadMcpToolsJson (rt : Runtime) (w : World) : quiet (loadMcpToolsJson rt w).
Proof.
  unfold loadMcpToolsJson. destruct (nonEmpty _); [auto with quiet|].
  apply quiet_bind; [auto with quiet|]. intros [|]; [auto with quiet|].
  destruct (nonEmpty _); [auto with quiet|].
  apply quiet_bind; [auto with quiet|]. intros [|]; auto with quiet.
Qed.

Lemma quiet_walkEntries (rt : Runtime) (predicate : str -> bool) (ents : list (str * node)) :
  forall dir, quiet (walkEntries rt dir predicate ents).
Proof.
  assert (HP : forall n dir,
    match n with
    | Dir ents => quiet (walkEntries rt dir predicate ents)
    | _ => True
    end).
  { induction n as [text | | ents' IH] using node_tree_ind; intros dir; try exact I.
    revert dir. induction ents' as [|[name child] rest IHrest]; intros dir.
    - apply quiet_ret.
    - inversion IH as [|? ? Hchild Hrest]; subst. cbn [snd] in Hchild.
      specialize (IHrest Hrest dir). cbn [walkEntries].
      destruct child as [text | | sub]; cbn [isDirectory].
      + destruct (predicate _); [|assumption].
        apply quiet_bind; [assumption | auto with quiet].
      + destruct (predicate _); [|assumption].
        apply quiet_bind; [assumption | auto with quiet].
      + apply quiet_bind.
        * rewrite walkNode_Dir. apply quiet_bind; [now apply quiet_emit|].
          intros _. apply Hchild.
        * intros sub'. apply quiet_bind; [assumption | auto with quiet]. }
  intros dir. exact (HP (Dir ents) dir).
Qed.

Lemma quiet_walkFiles (rt : Runtime) (w : World) (dir : str) (predicate : str -> bool) :
  quiet (walkFiles rt w dir predicate).
Proof.
  unfold walkFiles. destruct (fs_resolve w dir) as [[text | | ents] | |].
  - cbn. split; [discriminate | repeat constructor].
  - cbn. split; [discriminate | repeat constructor].
  - rewrite walkNode_Dir. apply quiet_bind; [now apply quiet_emit|].
    intros _. apply quiet_walkEntries.
  - apply quiet_bind; [now apply quiet_emit | auto with quiet].
  - apply quiet_bind; [now apply quiet_emit | auto with quiet].
Qed.

#[local] Hint Resolve quiet_loadMcpToolsJson quiet_walkFiles : quiet.

Lemma quiet_mapM {A B} (f : A -> M B) (l : list A) :
  (forall x, quiet (f x)) -> quiet (mapM f l).
Proof.
  intros Hf. induction l as [|x l IH]; cbn [mapM]; [apply quiet_ret|].
  apply quiet_bind; [apply Hf|]. intros y.
  apply quiet_bind; [exact IH | auto with quiet].
Qed.

Lemma quiet_checkToolsCovered (rt : Runtime) (w : World) (toolNames : list str) (dir : str) :
  quiet (checkToolsCovered rt w toolNames dir).
Proof.
  unfold checkToolsCovered. apply quiet_bind; [auto with quiet|]. intros files.
  apply quiet_bind.
  - apply quiet_mapM. intros f. apply quiet_bind; auto with quiet.
  - intros corpus. rewrite collectMissing_spec. apply quiet_bind; auto with quiet.
Qed.

Lemma quiet_scanFiles (rt : Runtime) (w : World) (files : list str) :
  quiet (scanFiles rt w files).
Proof.
  induction files as [|f files IH]; cbn [scanFiles]; [apply quiet_ret|].
  apply quiet_bind; [auto with quiet|]. intros txt.
  apply quiet_bind; [exact IH | auto with quiet].
Qed.

Lemma quiet_findBannedDomains (rt : Runtime) (w : World) (repoRoot : str) :
  quiet (findBannedDomains rt w repoRoot).
Proof.
  unfold findBannedDomains. apply quiet_bind; [auto with quiet|].
  intros files. apply quiet_scanFiles.
Qed.

(** ** The manifest resolver *)

Lemma nonEmpty_false {A} (l : list A) : nonEmpty l = false <-> l = [].
Proof. destruct l; split; (reflexivity || discriminate). Qed.

Lemma nonEmpty_true {A} (l : list A) : nonEmpty l = true <-> l <> [].
Proof. destruct l; split; try reflexivity; try discriminate; congruence. Qed.

Lemma existsSync_eq (w : World) (p : str) :
  existsSync w p =
  (Ok (match fs_lookup w p with Some _ => true | None => false end), [ExistsSync p]).
Proof. reflexivity. Qed.

Lemma bind_after {A B} (a : A) (t : list event) (f : A -> M B) :
  bind (Ok a, t) f = after t (f a).
Proof. cbn [bind]. now destruct (f a). Qed.

(** C7.  The request of the remote fetch and what becomes of the
    response: a GET with [Accept: application/json], the fixed user agent
    and, when [GITHUB_TOKEN] or else [GH_TOKEN] is non-empty, a Bearer
    authorization with it; a status of 400 or more fails with the status and
    the URL, and a body that is not JSON fails with the URL and the parser's
    message. *)
Theorem fetchJson_contract (rt : Runtime) (w : World) (url : str) :
  let req := fetchRequest w url in
  let token1 := envOrEmpty w "GITHUB_TOKEN" in
  let token2 := envOrEmpty w "GH_TOKEN" in
  req_method req = lit "GET" /\
  req_url req = url /\
  assoc (lit "Accept") (req_headers req) = Some (lit "application/json") /\
  assoc (lit "User-Agent") (req_headers req) = Some (lit "adsgateway-docs-guardrails") /\
  assoc (lit "Authorization") (req_headers req) =
    (if nonEmpty token1 then Some (lit "Bearer " ++ token1)
     else if nonEmpty token2 then Some (lit "Bearer " ++ token2)
     else None) /\
  snd (fetchJson rt w url) = [HttpsRequest req] /\
  (forall e, https_request w req = NetworkError e ->
     fst (fetchJson rt w url) = Throw e) /\
  (forall status body, https_request w req = Response status body ->
     (400 <= status)%nat ->
     fst (fetchJson rt w url) =
       Throw (newError rt (lit "Fetch failed (" ++ decimal status ++ lit ") for " ++ url))) /\
  (forall status body msg, https_request w req = Response status body ->
     (status < 400)%nat -> JSON_parse rt body = inl msg ->
     fst (fetchJson rt w url) =
       Throw (newError rt (lit "Invalid JSON from " ++ url ++ lit ": " ++ msg))) /\
  (forall status body v, https_request w req = Response status body ->
     (status < 400)%nat -> JSON_parse rt body = inr v ->
     fst (fetchJson rt w url) = Ok v).
Proof.
  cbn zeta. split; [reflexivity|]. split; [reflexivity|].
  split; [|split; [|split]].
  - unfold fetchRequest. cbn [req_headers]. reflexivity.
  - unfold fetchRequest. cbn [req_headers].
    match goal with
    | |- context [if ?b then [_] else []] => destruct b
    end; reflexivity.
  - unfold fetchRequest. cbn [req_headers].
    destruct (nonEmpty (envOrEmpty w "GITHUB_TOKEN")) eqn:E1.
    + rewrite E1. reflexivity.
    + destruct (nonEmpty (envOrEmpty w "GH_TOKEN")) eqn:E2.
      * rewrite E2. reflexivity.
      * reflexivity.
  - unfold fetchJson, emit. cbn zeta. rewrite bind_after. cbn [after fst snd].
    split; [|split; [|split; [|split]]].
    + destruct (https_request w _) as [e | status data]; [reflexivity|].
      destruct (Nat.leb 400 status); [reflexivity|].
      destruct (JSON_parse rt data); reflexivity.
    + intros e ->. reflexivity.
    + intros status body -> Hs. apply Nat.leb_le in Hs. now rewrite Hs.
    + intros status body msg -> Hs Hp.
      apply Nat.leb_gt in Hs. now rewrite Hs, Hp.
    + intros status body v -> Hs Hp.
      apply Nat.leb_gt in Hs. now rewrite Hs, Hp.
Qed.

Lemma after_after {A} (t1 t2 : list event) (m : M A) :
  after t1 (after t2 m) = after (t1 ++ t2) m.
Proof. unfold after. cbn [fst snd]. now rewrite app_assoc. Qed.

Lemma after_nil {A} (m : M A) : after [] m = m.
Proof. now destruct m. Qed.

(** C3.  The four sources of the manifest in their order: a non-empty
    [MCP_TOOLS_JSON_PATH] is read and nothing else is looked at; otherwise the
    sibling file if it exists; otherwise a non-empty [MCP_TOOLS_JSON_URL] is
    fetched; otherwise the vendored file if it exists; otherwise the resolver
    throws an error that names both variables and the vendored file, and the
    run ends with status 1 after the three existence checks alone, without a
    directory walk or a file read. *)
Theorem loadMcpToolsJson_priority (rt : Runtime) (w : World) :
  (envPathOf w <> [] ->
     loadMcpToolsJson rt w = readJson rt w (resolvedEnvPath w)) /\
  (envPathOf w = [] -> fs_lookup w (siblingPath w) <> None ->
     loadMcpToolsJson rt w =
     after [ExistsSync (siblingPath w)] (readJson rt w (siblingPath w))) /\
  (envPathOf w = [] -> fs_lookup w (siblingPath w) = None -> urlOf w <> [] ->
     loadMcpToolsJson rt w =
     after [ExistsSync (siblingPath w)] (fetchJson rt w (urlOf w))) /\
  (envPathOf w = [] -> fs_lookup w (siblingPath w) = None -> urlOf w = [] ->
   fs_lookup w (vendoredPath w) <> None ->
     loadMcpToolsJson rt w =
     after [ExistsSync (siblingPath w); ExistsSync (vendoredPath w)]
           (readJson rt w (vendoredPath w))) /\
  (envPathOf w = [] -> fs_lookup w (siblingPath w) = None -> urlOf w = [] ->
   fs_lookup w (vendoredPath w) = None ->
     loadMcpToolsJson rt w =
       (Throw (newError rt notLocated),
        [ExistsSync (siblingPath w); ExistsSync (vendoredPath w)]) /\
     includes notLocated (lit "MCP_TOOLS_JSON_PATH") = true /\
     includes notLocated (lit "MCP_TOOLS_JSON_URL") = true /\
     includes notLocated (lit "tooling/mcp-tools.json") = true /\
     (fs_lookup w (toolsRoot w) <> None ->
        run rt w =
          ([ExistsSync (toolsRoot w); ExistsSync (siblingPath w);
            ExistsSync (vendoredPath w);
            ConsoleError failedHeader;
            ConsoleError (if nonEmpty (stack (newError rt notLocated))
                          then stack (newError rt notLocated) else notLocated)],
           1%nat))).
Proof.
  unfold loadMcpToolsJson. fold (envPathOf w) (urlOf w).
  split; [|split; [|split; [|split]]].
  - intros H. apply nonEmpty_true in H. rewrite H. reflexivity.
  - intros H Hs. rewrite H. cbn [nonEmpty]. rewrite existsSync_eq, bind_after.
    destruct (fs_lookup w (siblingPath w)); [reflexivity | congruence].
  - intros H Hs Hu. rewrite H. cbn [nonEmpty].
    rewrite existsSync_eq, bind_after, Hs.
    apply nonEmpty_true in Hu. now rewrite Hu.
  - intros H Hs Hu Hv. rewrite H, Hu. cbn [nonEmpty].
    rewrite existsSync_eq, bind_after, Hs, existsSync_eq, bind_after, after_after.
    destruct (fs_lookup w (vendoredPath w)); [reflexivity | congruence].
  - intros H Hs Hu Hv.
    assert (Hload : loadMcpToolsJson rt w =
      (Throw (newError rt notLocated),
       [ExistsSync (siblingPath w); ExistsSync (vendoredPath w)])).
    { unfold loadMcpToolsJson. fold (envPathOf w) (urlOf w).
      rewrite H, Hu. cbn [nonEmpty].
      now rewrite existsSync_eq, bind_after, Hs, existsSync_eq, bind_after, Hv. }
    split; [exact Hload|]. split; [reflexivity|]. split; [reflexivity|].
    split; [reflexivity|].
    intros Ht. unfold run, main. fold (toolsRoot w).
    rewrite existsSync_eq, bind_after.
    destruct (fs_lookup w (toolsRoot w)); [|congruence].
    cbn [negb]. rewrite Hload. reflexivity.
Qed.

(** ** The banned-domain scanner *)

Lemma splitLinesFrom_nonempty (s : str) : forall cur, splitLinesFrom s cur <> [].
Proof.
  induction s as [|c s IH]; intros cur; cbn [splitLinesFrom]; [discriminate|].
  destruct (c =? 10); [discriminate|].
  destruct s as [|d s2]; [discriminate|].
  destruct ((c =? 13) && (d =? 10)); [discriminate | apply IH].
Qed.

Lemma joinWith_cons (sep p : str) (rest : list str) :
  rest <> [] -> joinWith sep (p :: rest) = p ++ sep ++ joinWith sep rest.
Proof. destruct rest; [congruence | reflexivity]. Qed.

Lemma lfOnly_LF (s : str) : lfOnly (10 :: s) = 10 :: lfOnly s.
Proof. destruct s; reflexivity. Qed.

Lemma lfOnly_cons2 (c d : N) (s : str) :
  lfOnly (c :: d :: s) =
  if (c =? 13) && (d =? 10) then lfOnly (d :: s) else c :: lfOnly (d :: s).
Proof. reflexivity. Qed.

(** The lines, joined by line feeds, are the text with its CRLF endings
    turned into LF. *)
Lemma splitLinesFrom_join (n : nat) :
  forall s cur, (length s <= n)%nat ->
    joinWith [10] (splitLinesFrom s cur) = rev cur ++ lfOnly s.
Proof.
  induction n as [|n IH]; intros s cur Hn.
  - destruct s; [|cbn in Hn; lia]. cbn. now rewrite ?app_nil_r.
  - destruct s as [|c s1]; [cbn; now rewrite ?app_nil_r|].
    cbn [length] in Hn. cbn [splitLinesFrom].
    destruct (c =? 10) eqn:E10.
    + apply N.eqb_eq in E10. subst c.
      rewrite joinWith_cons by apply splitLinesFrom_nonempty.
      rewrite IH by lia. now rewrite lfOnly_LF.
    + destruct s1 as [|d s2].
      * cbn. now rewrite ?app_nil_r.
      * rewrite lfOnly_cons2. destruct ((c =? 13) && (d =? 10)) eqn:E.
        -- apply andb_true_iff in E as [_ Ed]. apply N.eqb_eq in Ed. subst d.
           rewrite joinWith_cons by apply splitLinesFrom_nonempty.
           cbn [length] in Hn. rewrite IH by lia. now rewrite lfOnly_LF.
        -- rewrite IH by lia. cbn [rev]. now rewrite <- app_assoc.
Qed.

Lemma splitLinesFrom_no_LF (n : nat) :
  forall s cur, (length s <= n)%nat -> ~ In 10 cur ->
    Forall (fun line => ~ In 10 line) (splitLinesFrom s cur).
Proof.
  induction n as [|n IH]; intros s cur Hn Hcur.
  - destruct s; [|cbn in Hn; lia]. repeat constructor. now rewrite <- in_rev.
  - destruct s as [|c s1]; [repeat constructor; now rewrite <- in_rev|].
    cbn [length] in Hn. cbn [splitLinesFrom].
    destruct (c =? 10) eqn:E10.
    + constructor; [now rewrite <- in_rev | apply IH; [lia | intros []]].
    + apply N.eqb_neq in E10.
      assert (Hc : ~ In 10 (c :: cur)) by (intros [E | H]; [congruence | contradiction]).
      destruct s1 as [|d s2].
      * apply IH; [cbn [length] in Hn |- *; lia | assumption].
      * destruct ((c =? 13) && (d =? 10)).
        -- constructor; [now rewrite <- in_rev|].
           cbn [length] in Hn. apply IH; [lia | intros []].
        -- apply IH; [cbn [length] in Hn |- *; lia | assumption].
Qed.

(** Every line is a piece of the text. *)
Lemma splitLinesFrom_substring (n : nat) :
  forall s cur line, (length s <= n)%nat -> In line (splitLinesFrom s cur) ->
    exists pre post, rev cur ++ s = pre ++ line ++ post.
Proof.
  induction n as [|n IH]; intros s cur line Hn Hin.
  - destruct s; [|cbn in Hn; lia]. destruct Hin as [<- | []].
    exists [], []. cbn. now rewrite ?app_nil_r.
  - destruct s as [|c s1].
    { destruct Hin as [<- | []]. exists [], []. cbn. now rewrite ?app_nil_r. }
    cbn [length] in Hn. cbn [splitLinesFrom] in Hin.
    destruct (c =? 10) eqn:E10.
    + destruct Hin as [<- | Hin].
      * exists [], (c :: s1). reflexivity.
      * apply IH in Hin as (pre & post & H); [|lia]. cbn [rev app] in H.
        exists (rev cur ++ c :: pre), post. rewrite H, <- app_assoc. reflexivity.
    + destruct s1 as [|d s2].
      * apply IH in Hin as (pre & post & H); [|cbn [length] in Hn |- *; lia].
        exists pre, post. rewrite <- H. cbn [rev]. now rewrite <- app_assoc.
      * destruct ((c =? 13) && (d =? 10)).
        -- destruct Hin as [<- | Hin].
           ++ exists [], (c :: d :: s2). reflexivity.
           ++ cbn [length] in Hn. apply IH in Hin as (pre & post & H); [|lia].
              cbn [rev app] in H.
              exists (rev cur ++ c :: d :: pre), post. rewrite H, <- app_assoc.
              reflexivity.
        -- apply IH in Hin as (pre & post & H); [|cbn [length] in Hn |- *; lia].
           exists pre, post. rewrite <- H. cbn [rev]. now rewrite <- app_assoc.
Qed.

(** Splitting on LF or CRLF: no line holds a line feed, the lines joined by
    line feeds are the text with CRLF turned into LF, and a domain inside a
    line is inside the text. *)
Lemma splitLines_spec (txt : str) :
  Forall (fun line => ~ In 10 line) (splitLines txt) /\
  joinWith [10] (splitLines txt) = lfOnly txt /\
  forall line d, In line (splitLines txt) -> includes line d = true ->
                 includes txt d = true.
Proof.
  unfold splitLines. split; [|split].
  - apply (splitLinesFrom_no_LF (length txt)); [lia | intros []].
  - now rewrite (splitLinesFrom_join (length txt)) by lia.
  - intros line d Hin Hd.
    apply (splitLinesFrom_substring (length txt)) in Hin as (pre & post & H); [|lia].
    cbn [rev app] in H. apply includes_spec in Hd as (pre' & post' & ->).
    apply includes_spec. exists (pre ++ pre'), (post' ++ post).
    rewrite H, <- !app_assoc. reflexivity.
Qed.

Lemma scanLine_In (f : str) (i : nat) (ln : str) (h : hit) :
  In h (scanLine f i ln) <->
  In (domain h) banned /\ includes ln (domain h) = true /\
  h = mkHit f (i + 1) (domain h) (trim ln).
Proof.
  unfold scanLine. rewrite in_flat_map. split.
  - intros (d & Hd & Hin). destruct (includes ln d) eqn:E; [|destruct Hin].
    destruct Hin as [<- | []]. cbn [domain]. auto.
  - intros (Hd & Hinc & Hh). exists (domain h). split; [assumption|].
    rewrite Hinc. left. now symmetry.
Qed.

Lemma scanLines_In (f : str) (lines : list str) :
  forall i0 h,
    In h (scanLines f i0 lines) <->
    exists k ln, nth_error lines k = Some ln /\
      In (domain h) banned /\ includes ln (domain h) = true /\
      h = mkHit f (i0 + k + 1) (domain h) (trim ln).
Proof.
  induction lines as [|l lines IH]; intros i0 h; cbn [scanLines].
  - split; [intros [] | intros (k & ln & H & _)]. now destruct k.
  - rewrite in_app_iff, scanLine_In, IH. split.
    + intros [(Hd & Hi & Hh) | (k & ln & Hk & Hd & Hi & Hh)].
      * exists 0%nat, l. rewrite Nat.add_0_r. auto.
      * exists (S k), ln. replace (i0 + S k + 1)%nat with (S i0 + k + 1)%nat by lia. auto.
    + intros (k & ln & Hk & Hd & Hi & Hh). destruct k as [|k].
      * left. cbn in Hk. injection Hk as ->. rewrite Nat.add_0_r in Hh. auto.
      * right. exists k, ln. replace (S i0 + k + 1)%nat with (i0 + S k + 1)%nat by lia.
        auto.
Qed.

Lemma scanFiles_spec (rt : Runtime) (w : World) (files : list str) :
  forall hits, fst (scanFiles rt w files) = Ok hits ->
    exists texts,
      Forall2 (fun f txt => fs_lookup w f = Some (File txt)) files texts /\
      hits = hitsOf files texts.
Proof.
  induction files as [|f files IH]; intros hits H; cbn [scanFiles] in H.
  - injection H as <-. exists []. split; [constructor | reflexivity].
  - apply fst_bind_Ok in H as (txt & Hr & H).
    apply fst_bind_Ok in H as (more & Hm & H). cbn in H. injection H as <-.
    apply readText_Ok in Hr. destruct (IH _ Hm) as (texts & HF & ->).
    exists (txt :: texts). split; [now constructor | reflexivity].
Qed.

Lemma hitsOf_In (files texts : list str) (h : hit) :
  In h (hitsOf files texts) <->
  exists f txt, In (f, txt) (combine files texts) /\
                In h (scanLines f 0 (splitLines txt)).
Proof.
  unfold hitsOf. rewrite in_flat_map. split.
  - intros ([f txt] & Hin & Hh). eauto.
  - intros (f & txt & Hin & Hh). exists (f, txt). auto.
Qed.

Lemma isDocFile_spec (p : str) :
  isDocFile p = true <->
  endsWith p (lit ".mdx") = true \/ endsWith p (lit ".md") = true
  \/ path_basename p = lit "docs.json".
Proof.
  unfold isDocFile. rewrite !orb_true_iff, str_eqb_eq. tauto.
Qed.

Lemma Forall2_combine_In {A B} (R : A -> B -> Prop) (l1 : list A) (l2 : list B) :
  Forall2 R l1 l2 ->
  (forall a b, In (a, b) (combine l1 l2) -> R a b) /\
  (forall a, In a l1 -> exists b, In (a, b) (combine l1 l2)).
Proof.
  induction 1 as [|a b l1 l2 Hab HF [IH1 IH2]]; cbn [combine In].
  - split; [intros a b [] | intros a []].
  - split.
    + intros a' b' [E | Hin]; [now injection E as <- <- | now apply IH1].
    + intros a' [<- | Hin]; [eauto|]. destruct (IH2 a' Hin) as (b' & Hb'). eauto.
Qed.

(** C4.  When the scan returns, the files it read are the nodes below the
    repository root that are not directories and whose path ends in [.mdx]
    or [.md] or has the base name [docs.json]; each content is split at LF
    and CRLF ([splitLines_spec]); and the hits are exactly the records of a
    file, a line of it and a banned domain contained in that line as a
    substring, with the path, the line's index plus one, the domain and the
    trimmed line.  A file whose content holds no banned domain has no hit. *)
Theorem findBannedDomains_hits (rt : Runtime) (w : World) (repoRoot : str)
    (hits : list hit) :
  fst (findBannedDomains rt w repoRoot) = Ok hits ->
  exists ents files texts,
    fs_lookup w repoRoot = Some (Dir ents) /\
    (forall p, In p files <->
       exists n, fileUnder repoRoot ents p n /\
         (endsWith p (lit ".mdx") = true \/ endsWith p (lit ".md") = true
          \/ path_basename p = lit "docs.json")) /\
    Forall2 (fun f txt => fs_lookup w f = Some (File txt)) files texts /\
    (forall h, In h hits <->
       exists f txt i ln pre post,
         In (f, txt) (combine files texts) /\
         nth_error (splitLines txt) i = Some ln /\
         In (domain h) banned /\
         ln = pre ++ domain h ++ post /\
         h = mkHit f (i + 1) (domain h) (trim ln)) /\
    (forall f txt, In f files -> fs_lookup w f = Some (File txt) ->
       (forall d, In d banned -> includes txt d = false) ->
       forall h, In h hits -> file h <> f) /\
    (forall txt, In txt texts ->
       Forall (fun ln => ~ In 10 ln) (splitLines txt) /\
       joinWith [10] (splitLines txt) = lfOnly txt).
Proof.
  intros H. unfold findBannedDomains in H.
  apply fst_bind_Ok in H as (files & Hwalk & H).
  apply walkFiles_Ok in Hwalk as (ents & Hroot & Hfiles).
  apply scanFiles_spec in H as (texts & HF & ->).
  assert (Hhit : forall h, In h (hitsOf files texts) <->
       exists f txt i ln pre post,
         In (f, txt) (combine files texts) /\
         nth_error (splitLines txt) i = Some ln /\
         In (domain h) banned /\
         ln = pre ++ domain h ++ post /\
         h = mkHit f (i + 1) (domain h) (trim ln)).
  { intros h. rewrite hitsOf_In. split.
    - intros (f & txt & Hin & Hh). apply scanLines_In in Hh as (k & ln & Hk & Hd & Hi & Hh).
      apply includes_spec in Hi as (pre & post & Hln).
      exists f, txt, k, ln, pre, post. auto.
    - intros (f & txt & i & ln & pre & post & Hin & Hk & Hd & Hln & Hh).
      exists f, txt. split; [assumption|]. apply scanLines_In.
      exists i, ln. repeat split; try assumption.
      apply includes_spec. eauto. }
  exists ents, files, texts.
  split; [exact Hroot|]. split; [|split; [exact HF | split; [exact Hhit | split]]].
  - intros p. rewrite Hfiles. now setoid_rewrite isDocFile_spec.
  - intros f txt Hf Hlook Hclean h Hh Hfile.
    apply Hhit in Hh as (f' & txt' & i & ln & pre & post & Hin & Hk & Hd & Hln & Hh').
    assert (f' = f) by (rewrite Hh' in Hfile; exact Hfile). subst f'.
    destruct (Forall2_combine_In _ _ _ HF) as [Hlk _].
    specialize (Hlk _ _ Hin). cbn beta in Hlk. rewrite Hlook in Hlk.
    injection Hlk as ->.
    destruct (splitLines_spec txt') as (_ & _ & Hsub).
    assert (includes txt' (domain h) = true).
    { apply (Hsub ln); [eapply nth_error_In; eassumption|].
      apply includes_spec. eauto. }
    rewrite (Hclean _ Hd) in H. discriminate.
  - intros txt _. destruct (splitLines_spec txt) as (H1 & H2 & _). auto.
Qed.

(** ** One hit per file, line and domain *)

Lemma flatten_Dir (p : str) (ents : list (str * node)) :
  flatten p (Dir ents) = (p, Dir ents) :: flattenEntries p ents.
Proof.
  cbn [flatten]. f_equal.
  induction ents as [|[name child] rest IH]; [reflexivity|].
  cbn [flattenEntries]. now rewrite <- IH.
Qed.

Lemma subseq_app {A} (a1 a2 b1 b2 : list A) :
  subseq a1 a2 -> subseq b1 b2 -> subseq (a1 ++ b1) (a2 ++ b2).
Proof. induction 1; intros Hb; cbn [app]; try constructor; auto. Qed.

Lemma subseq_nil_l {A} (l : list A) : subseq [] l.
Proof. induction l; constructor; assumption. Qed.

Lemma subseq_In {A} (l1 l2 : list A) (x : A) : subseq l1 l2 -> In x l1 -> In x l2.
Proof.
  induction 1 as [|y l1 l2 H IH | y l1 l2 H IH]; cbn [In]; intuition.
Qed.

Lemma subseq_NoDup {A} (l1 l2 : list A) : subseq l1 l2 -> NoDup l2 -> NoDup l1.
Proof.
  induction 1 as [|y l1 l2 H IH | y l1 l2 H IH]; intros Hnd.
  - constructor.
  - inversion Hnd as [|? ? Hy Hl2]; subst. constructor; [|now apply IH].
    intros Hin. apply Hy. eapply subseq_In; eassumption.
  - inversion Hnd; subst. now apply IH.
Qed.

Lemma distinct_NoDup (l : list str) : distinct l = true -> NoDup l.
Proof.
  induction l as [|x l IH]; cbn [distinct]; [constructor|].
  rewrite andb_true_iff, negb_true_iff. intros [Hx Hl].
  constructor; [|now apply IH]. intros Hin.
  assert (existsb (str_eqb x) l = true); [|congruence].
  apply existsb_exists. exists x. split; [assumption | apply str_eqb_refl].
Qed.

(** The walk lists paths in the order of the tree, each node at most once. *)
Lemma walkEntries_subseq (rt : Runtime) (predicate : str -> bool)
    (ents : list (str * node)) :
  forall dir files,
    fst (walkEntries rt dir predicate ents) = Ok files ->
    subseq files (map fst (flattenEntries dir ents)).
Proof.
  assert (HP : forall n dir files,
    match n with
    | Dir ents =>
        fst (walkEntries rt dir predicate ents) = Ok files ->
        subseq files (map fst (flattenEntries dir ents))
    | _ => True
    end).
  { induction n as [text | | ents' IH] using node_tree_ind; intros dir; try (intros; exact I).
    revert dir. induction ents' as [|[name child] rest IHrest]; intros dir files.
    - cbn. intros H. injection H as <-. constructor.
    - inversion IH as [|? ? Hchild Hrest]; subst. cbn [snd] in Hchild.
      specialize (IHrest Hrest dir). cbn [walkEntries flattenEntries].
      rewrite map_app.
      destruct child as [text | | sub]; cbn [isDirectory].
      + cbn [flatten map fst app]. destruct (predicate _).
        * intros H. apply fst_bind_Ok in H as (out & Hout & H).
          cbn in H. injection H as <-. constructor. now apply IHrest.
        * intros H. constructor. now apply IHrest.
      + cbn [flatten map fst app]. destruct (predicate _).
        * intros H. apply fst_bind_Ok in H as (out & Hout & H).
          cbn in H. injection H as <-. constructor. now apply IHrest.
        * intros H. constructor. now apply IHrest.
      + intros H. apply fst_bind_Ok in H as (subfiles & Hsub & H).
        apply fst_bind_Ok in H as (out & Hout & H). cbn in H. injection H as <-.
        rewrite walkNode_Dir, fst_bind in Hsub. cbn [emit fst] in Hsub.
        rewrite flatten_Dir.
        cbn [map fst]. rewrite <- app_comm_cons. constructor.
        apply subseq_app; [now apply Hchild | now apply IHrest]. }
  intros dir files. exact (HP (Dir ents) dir files).
Qed.

Lemma scanLine_keys (f : str) (i : nat) (ln : str) :
  map hitKey (scanLine f i ln) =
  map (fun d => (f, (i + 1)%nat, d)) (filter (includes ln) banned).
Proof.
  unfold scanLine. generalize banned. intros l.
  induction l as [|d l IH]; [reflexivity|].
  cbn [flat_map filter]. rewrite map_app, IH.
  destruct (includes ln d); reflexivity.
Qed.

Lemma banned_NoDup : NoDup banned.
Proof. apply distinct_NoDup. reflexivity. Qed.

Lemma NoDup_map_injective {A B} (g : A -> B) (l : list A) :
  (forall x y, g x = g y -> x = y) -> NoDup l -> NoDup (map g l).
Proof.
  intros Hg. induction 1 as [|x l Hx Hl IH]; cbn [map]; constructor; [|exact IH].
  intros Hin. apply in_map_iff in Hin as (y & E & Hy).
  apply Hg in E. now subst y.
Qed.

Lemma scanLine_NoDup (f : str) (i : nat) (ln : str) :
  NoDup (map hitKey (scanLine f i ln)).
Proof.
  rewrite scanLine_keys. apply NoDup_map_injective.
  - intros d1 d2 E. now injection E.
  - apply NoDup_filter, banned_NoDup.
Qed.

Lemma scanLines_file_line (f : str) (lines : list str) (i0 : nat) (h : hit) :
  In h (scanLines f i0 lines) -> file h = f /\ (i0 < line h)%nat.
Proof.
  intros H. apply scanLines_In in H as (k & ln & _ & _ & _ & ->).
  cbn [file line]. split; [reflexivity | lia].
Qed.

Lemma scanLines_NoDup (f : str) (lines : list str) :
  forall i0, NoDup (map hitKey (scanLines f i0 lines)).
Proof.
  induction lines as [|ln lines IH]; intros i0; cbn [scanLines]; [constructor|].
  rewrite map_app. apply NoDup_app; [apply scanLine_NoDup | apply IH|].
  intros key H1 H2.
  apply in_map_iff in H1 as (h1 & <- & H1). apply in_map_iff in H2 as (h2 & E & H2).
  apply scanLine_In in H1 as (_ & _ & Hh1).
  apply scanLines_file_line in H2 as [_ Hlt].
  unfold hitKey in E. injection E as _ El _. rewrite Hh1 in El. cbn [line] in El. lia.
Qed.

Lemma hitsOf_cons (f txt : str) (files texts : list str) :
  hitsOf (f :: files) (txt :: texts) =
  scanLines f 0 (splitLines txt) ++ hitsOf files texts.
Proof. reflexivity. Qed.

Lemma hitsOf_file (files texts : list str) (h : hit) :
  In h (hitsOf files texts) -> In (file h) files.
Proof.
  intros H. apply hitsOf_In in H as (f & txt & Hin & Hh).
  apply scanLines_file_line in Hh as [-> _]. eapply in_combine_l; eassumption.
Qed.

Lemma hitsOf_NoDup (files : list str) :
  forall texts, NoDup files -> NoDup (map hitKey (hitsOf files texts)).
Proof.
  induction files as [|f files IH]; intros texts Hnd; [constructor|].
  destruct texts as [|txt texts]; [constructor|].
  inversion Hnd as [|? ? Hf Hfiles]; subst.
  rewrite hitsOf_cons, map_app.
  apply NoDup_app; [apply scanLines_NoDup | now apply IH|].
  intros key H1 H2.
  apply in_map_iff in H1 as (h1 & <- & H1). apply in_map_iff in H2 as (h2 & E & H2).
  apply scanLines_file_line in H1 as [Hf1 _]. apply hitsOf_file in H2.
  unfold hitKey in E. injection E as Ef _ _. congruence.
Qed.

Lemma NoDup_map_filter_le1 {A K} (g : A -> K) (p : A -> bool) (k : K) (l : list A) :
  NoDup (map g l) -> (forall x, p x = true -> g x = k) ->
  (length (filter p l) <= 1)%nat.
Proof.
  intros Hnd Hp. induction l as [|x l IH]; [cbn; lia|].
  cbn [map] in Hnd. inversion Hnd as [|? ? Hx Hl]; subst.
  cbn [filter]. destruct (p x) eqn:E; [|now apply IH].
  assert (Hnone : filter p l = []).
  { destruct (filter p l) as [|y ys] eqn:Ef; [reflexivity|].
    assert (Hy : In y (filter p l)) by (rewrite Ef; now left).
    apply filter_In in Hy as [Hy Hpy]. destruct Hx.
    rewrite (Hp x E), <- (Hp y Hpy). now apply in_map. }
  rewrite Hnone. cbn. lia.
Qed.

(** C10.  In a filesystem whose paths below the root are pairwise distinct,
    the hits of a scan are pairwise distinct in file, line number and domain:
    a line gives one hit for a banned domain, however often the domain occurs
    in it, and every banned domain a line contains gives a hit of its own. *)
Theorem findBannedDomains_one_hit_per_triple (rt : Runtime) (w : World)
    (repoRoot : str) (ents : list (str * node)) (hits : list hit) :
  fs_lookup w repoRoot = Some (Dir ents) ->
  distinct (map fst (flatten repoRoot (Dir ents))) = true ->
  fst (findBannedDomains rt w repoRoot) = Ok hits ->
  NoDup (map hitKey hits) /\
  (forall f l d,
     (length (filter (fun h => str_eqb (file h) f && Nat.eqb (line h) l
                               && str_eqb (domain h) d) hits) <= 1)%nat) /\
  (forall f n txt i ln d,
     fileUnder repoRoot ents f n -> isDocFile f = true ->
     fs_lookup w f = Some (File txt) ->
     nth_error (splitLines txt) i = Some ln ->
     In d banned -> includes ln d = true ->
     In (mkHit f (i + 1) d (trim ln)) hits).
Proof.
  intros Hroot Hdistinct H. unfold findBannedDomains in H.
  apply fst_bind_Ok in H as (files & Hwalk & H).
  assert (Hfiles : forall p, In p files <->
            exists n, fileUnder repoRoot ents p n /\ isDocFile p = true).
  { apply walkFiles_Ok in Hwalk as (ents' & Hroot' & Hfiles).
    rewrite Hroot in Hroot'. now injection Hroot' as <-. }
  assert (Hnd : NoDup files).
  { rewrite (walkFiles_Found _ _ _ _ _ Hroot), walkNode_Dir, fst_bind in Hwalk.
    cbn [emit fst] in Hwalk. apply walkEntries_subseq in Hwalk.
    apply distinct_NoDup in Hdistinct. rewrite flatten_Dir in Hdistinct.
    cbn [map] in Hdistinct. inversion Hdistinct; subst.
    eapply subseq_NoDup; eassumption. }
  apply scanFiles_spec in H as (texts & HF & ->).
  assert (Hkeys := hitsOf_NoDup files texts Hnd).
  split; [exact Hkeys|]. split.
  - intros f l d. apply (NoDup_map_filter_le1 hitKey _ (f, l, d)); [exact Hkeys|].
    intros h Hh. apply andb_true_iff in Hh as [Hh Hd].
    apply andb_true_iff in Hh as [Hf Hl].
    apply str_eqb_eq in Hf, Hd. apply Nat.eqb_eq in Hl.
    unfold hitKey. congruence.
  - intros f n txt i ln d Hunder Hdoc Hlook Hi Hd Hinc.
    assert (Hf : In f files) by (apply Hfiles; eauto).
    destruct (Forall2_combine_In _ _ _ HF) as [Hlk Hex].
    destruct (Hex f Hf) as (txt' & Hin). pose proof (Hlk _ _ Hin) as E.
    cbn beta in E. rewrite Hlook in E. injection E as <-.
    apply hitsOf_In. exists f, txt. split; [assumption|].
    apply scanLines_In. exists i, ln. cbn [domain]. auto.
Qed.

(** ** The checks return on a readable tree *)

Lemma walkFiles_returns (rt : Runtime) (w : World) (dir : str) (predicate : str -> bool)
    (ents : list (str * node)) :
  fs_lookup w dir = Some (Dir ents) ->
  exists files, fst (walkFiles rt w dir predicate) = Ok files /\
    forall p, In p files <-> exists n, fileUnder dir ents p n /\ predicate p = true.
Proof.
  intros Hroot. rewrite (walkFiles_Found _ _ _ _ _ Hroot), walkNode_Dir, fst_bind.
  cbn [emit fst]. apply walkEntries_spec.
Qed.

Lemma readAll_returns (rt : Runtime) (w : World) (files : list str) :
  (forall f, In f files -> exists txt, fs_lookup w f = Some (File txt)) ->
  exists corpus,
    fst (mapM (fun f => text <- readText rt w f ;; ret (f, text)) files) = Ok corpus.
Proof.
  induction files as [|f files IH]; intros H; [now exists []|].
  destruct (H f (or_introl eq_refl)) as (txt & Htxt).
  destruct IH as (corpus & Hc); [intros f' Hf'; apply H; now right|].
  exists ((f, txt) :: corpus). cbn [mapM].
  apply readText_Ok with (rt := rt) in Htxt.
  rewrite fst_bind, fst_bind, Htxt. cbn [ret fst]. rewrite fst_bind, Hc. reflexivity.
Qed.

Lemma scanFiles_returns (rt : Runtime) (w : World) (files : list str) :
  (forall f, In f files -> exists txt, fs_lookup w f = Some (File txt)) ->
  exists hits, fst (scanFiles rt w files) = Ok hits.
Proof.
  induction files as [|f files IH]; intros H; [now exists []|].
  destruct (H f (or_introl eq_refl)) as (txt & Htxt).
  destruct IH as (more & Hm); [intros f' Hf'; apply H; now right|].
  exists (scanLines f 0 (splitLines txt) ++ more). cbn [scanFiles].
  apply readText_Ok with (rt := rt) in Htxt.
  rewrite fst_bind, Htxt, fst_bind, Hm. reflexivity.
Qed.

(** The coverage check returns when the tools root is a directory and every
    [.mdx] node below it is a file that can be read at its path. *)
Lemma checkToolsCovered_returns (rt : Runtime) (w : World) (toolNames : list str)
    (toolsDocsRoot : str) (ents : list (str * node)) :
  fs_lookup w toolsDocsRoot = Some (Dir ents) ->
  (forall p n, fileUnder toolsDocsRoot ents p n -> isMdx p = true ->
     exists txt, fs_lookup w p = Some (File txt)) ->
  exists files missing,
    fst (checkToolsCovered rt w toolNames toolsDocsRoot) = Ok (files, missing).
Proof.
  intros Hroot Hread.
  destruct (walkFiles_returns rt w toolsDocsRoot isMdx ents Hroot) as (files & Hw & Hin).
  destruct (readAll_returns rt w files) as (corpus & Hc).
  { intros f Hf. apply Hin in Hf as (n & Hn & Hp). eauto. }
  exists files. eexists. unfold checkToolsCovered.
  rewrite fst_bind, Hw, fst_bind, Hc, collectMissing_spec. reflexivity.
Qed.

(** The scan returns when the repository root is a directory and every
    documentation node below it is a file that can be read at its path. *)
Lemma findBannedDomains_returns (rt : Runtime) (w : World) (repoRoot : str)
    (ents : list (str * node)) :
  fs_lookup w repoRoot = Some (Dir ents) ->
  (forall p n, fileUnder repoRoot ents p n -> isDocFile p = true ->
     exists txt, fs_lookup w p = Some (File txt)) ->
  exists hits, fst (findBannedDomains rt w repoRoot) = Ok hits.
Proof.
  intros Hroot Hread.
  destruct (walkFiles_returns rt w repoRoot isDocFile ents Hroot) as (files & Hw & Hin).
  destruct (scanFiles_returns rt w files) as (hits & Hs).
  { intros f Hf. apply Hin in Hf as (n & Hn & Hp). eauto. }
  exists hits. unfold findBannedDomains. now rewrite fst_bind, Hw.
Qed.

(** ** The run *)

Lemma forEach_console_error {A} (g : A -> str) (l : list A) :
  forEach (fun x => console_error (g x)) l = (Ok tt, map (fun x => ConsoleError (g x)) l).
Proof.
  induction l as [|x l IH]; [reflexivity|].
  cbn [forEach map]. unfold console_error at 1. unfold emit.
  now rewrite bind_after, IH.
Qed.

Lemma bind_ext {A B} (m : M A) (f g : A -> M B) :
  (forall a, f a = g a) -> bind m f = bind m g.
Proof. intros H. destruct m as [[a | e | c] t]; cbn [bind]; now rewrite ?H. Qed.

Lemma block_eq {A} (header : str) (g : A -> str) (l : list A) :
  (console_error header ;;; forEach (fun x => console_error (g x)) l ;;; ret false)
  = (Ok false, ConsoleError header :: map (fun x => ConsoleError (g x)) l).
Proof.
  unfold console_error at 1. unfold emit.
  rewrite bind_after, forEach_console_error, bind_after.
  unfold after, ret. cbn [fst snd app]. now rewrite app_nil_r.
Qed.

(** [main] stage by stage. *)
Lemma main_stages (rt : Runtime) (w : World) :
  main rt w =
  match fs_lookup w (toolsRoot w) with
  | None => (Throw (newError rt missingToolsDir), [ExistsSync (toolsRoot w)])
  | Some _ =>
      after [ExistsSync (toolsRoot w)]
        (mcpToolsJson <- loadMcpToolsJson rt w ;;
         covered <- checkToolsCovered rt w (extractToolNames mcpToolsJson) (toolsRoot w) ;;
         bannedHits <- findBannedDomains rt w (cwd w) ;;
         reportOf w (extractToolNames mcpToolsJson) (snd covered) bannedHits)
  end.
Proof.
  unfold main. fold (toolsRoot w). rewrite existsSync_eq, bind_after.
  destruct (fs_lookup w (toolsRoot w)); [|reflexivity].
  cbn [negb]. f_equal.
  apply bind_ext. intros m. apply bind_ext. intros covered.
  apply bind_ext. intros hits.
  unfold reportOf, missingBlock, bannedBlock.
  destruct (snd covered) as [|name1 ms]; destruct hits as [|hit1 hs];
    cbn [nonEmpty orb]; rewrite ?block_eq; unfold ret; rewrite bind_after;
    rewrite ?block_eq; rewrite bind_after;
    unfold after, process_exit, console_log, emit; cbn [negb fst snd app];
    rewrite ?app_nil_r; reflexivity.
Qed.

Lemma silent_streams (t : list event) :
  silent t -> stdoutOf t = [] /\ stderrOf t = [].
Proof.
  induction 1 as [|e t He Ht [IH1 IH2]]; [split; reflexivity|].
  unfold stdoutOf, stderrOf in *. cbn [flat_map]. rewrite IH1, IH2.
  destruct e; try discriminate; split; reflexivity.
Qed.

Lemma stdoutOf_app (a b : list event) : stdoutOf (a ++ b) = stdoutOf a ++ stdoutOf b.
Proof. apply flat_map_app. Qed.

Lemma stderrOf_app (a b : list event) : stderrOf (a ++ b) = stderrOf a ++ stderrOf b.
Proof. apply flat_map_app. Qed.

Lemma streams_errors {A} (g : A -> str) (l : list A) :
  stdoutOf (map (fun x => ConsoleError (g x)) l) = [] /\
  stderrOf (map (fun x => ConsoleError (g x)) l) = map g l.
Proof.
  induction l as [|x l [IH1 IH2]]; [split; reflexivity|].
  unfold stdoutOf, stderrOf in *. cbn [map flat_map app]. now rewrite IH1, IH2.
Qed.

Lemma streams_report (w : World) (toolNames missing : list str) (bannedHits : list hit) :
  let t := snd (reportOf w toolNames missing bannedHits) in
  (missing = [] /\ bannedHits = [] ->
     fst (reportOf w toolNames missing bannedHits) = Ok tt /\
     stdoutOf t = [okLine toolNames] /\ stderrOf t = []) /\
  (missing <> [] \/ bannedHits <> [] ->
     fst (reportOf w toolNames missing bannedHits) = Exit 1%nat /\
     stdoutOf t = [] /\ stderrOf t = diagnosticLines w missing bannedHits).
Proof.
  cbn zeta. split.
  - intros [-> ->]. repeat split; reflexivity.
  - intros H.
    assert (E : nonEmpty missing || nonEmpty bannedHits = true).
    { destruct missing, bannedHits; try reflexivity. now destruct H. }
    unfold reportOf. rewrite E. cbn [fst snd].
    rewrite stdoutOf_app, stderrOf_app.
    unfold missingBlock, bannedBlock, diagnosticLines.
    destruct (streams_errors (fun n => lit "- " ++ n) missing) as [Hm1 Hm2].
    destruct (streams_errors (hitLine w (cwd w)) bannedHits) as [Hb1 Hb2].
    split; [reflexivity|].
    destruct (nonEmpty missing), (nonEmpty bannedHits);
      unfold stdoutOf, stderrOf in *; cbn [flat_map app];
      rewrite ?Hm1, ?Hm2, ?Hb1, ?Hb2, ?app_nil_r; split; reflexivity.
Qed.

Lemma main_of_stages (rt : Runtime) (w : World) (m : value) (files missing : list str)
    (bannedHits : list hit) :
  stagesOk rt w m files missing bannedHits ->
  exists t, silent t /\
    main rt w = after t (reportOf w (extractToolNames m) missing bannedHits).
Proof.
  intros (Ht & Hl & Hc & Hf). rewrite main_stages.
  destruct (fs_lookup w (toolsRoot w)); [|congruence].
  destruct (quiet_loadMcpToolsJson rt w) as [_ Q1].
  destruct (loadMcpToolsJson rt w) as [r1 t1]. cbn [fst snd] in Hl, Q1. subst r1.
  rewrite bind_after.
  destruct (quiet_checkToolsCovered rt w (extractToolNames m) (toolsRoot w)) as [_ Q2].
  destruct (checkToolsCovered rt w _ _) as [r2 t2]. cbn [fst snd] in Hc, Q2. subst r2.
  rewrite bind_after.
  destruct (quiet_findBannedDomains rt w (cwd w)) as [_ Q3].
  destruct (findBannedDomains rt w _) as [r3 t3]. cbn [fst snd] in Hf, Q3. subst r3.
  rewrite bind_after, !after_after. cbn [snd].
  exists ((([ExistsSync (toolsRoot w)] ++ t1) ++ t2) ++ t3). split; [|reflexivity].
  unfold silent. apply Forall_app. split; [|exact Q3].
  apply Forall_app. split; [|exact Q2].
  apply Forall_app. split; [|exact Q1].
  repeat constructor.
Qed.

Lemma main_throw_or_stages (rt : Runtime) (w : World) :
  (exists err, fst (main rt w) = Throw err /\ silent (snd (main rt w)))
  \/ (exists m files missing bannedHits, stagesOk rt w m files missing bannedHits).
Proof.
  unfold stagesOk, silent. rewrite main_stages.
  destruct (fs_lookup w (toolsRoot w)).
  2: { left. eexists. split; [reflexivity | repeat constructor]. }
  assert (Hhead : Forall (fun e => isConsole e = false) [ExistsSync (toolsRoot w)])
    by (repeat constructor).
  destruct (quiet_loadMcpToolsJson rt w) as [X1 Q1].
  destruct (loadMcpToolsJson rt w) as [[m | e | c] t1]; cbn [fst snd] in X1, Q1;
    [| | now destruct (X1 c)].
  2: { left. exists e. cbn [bind after fst snd]. split; [reflexivity|].
       apply Forall_app. split; assumption. }
  rewrite bind_after.
  destruct (quiet_checkToolsCovered rt w (extractToolNames m) (toolsRoot w)) as [X2 Q2].
  destruct (checkToolsCovered rt w _ _) as [[[files missing] | e | c] t2] eqn:Hc;
    cbn [fst snd] in X2, Q2; [| | now destruct (X2 c)].
  2: { left. exists e. cbn [bind after fst snd]. split; [reflexivity|].
       repeat (apply Forall_app; split); assumption. }
  rewrite bind_after.
  destruct (quiet_findBannedDomains rt w (cwd w)) as [X3 Q3].
  destruct (findBannedDomains rt w _) as [[hits | e | c] t3] eqn:Hf;
    cbn [fst snd] in X3, Q3; [| | now destruct (X3 c)].
  - right. exists m, files, missing, hits.
    split; [discriminate|]. split; [reflexivity|].
    split; [now rewrite Hc | reflexivity].
  - left. exists e. cbn [bind after fst snd]. split; [reflexivity|].
    repeat (apply Forall_app; split); assumption.
Qed.

Lemma run_of_throw (rt : Runtime) (w : World) (err : exn) :
  fst (main rt w) = Throw err ->
  run rt w = (snd (main rt w) ++ map ConsoleError (failedLines err), 1%nat).
Proof.
  unfold run. destruct (main rt w) as [r t]. cbn [fst snd]. now intros ->.
Qed.

Lemma run_of_report (rt : Runtime) (w : World) (t : list event) (toolNames missing : list str)
    (bannedHits : list hit) :
  main rt w = after t (reportOf w toolNames missing bannedHits) ->
  run rt w =
  (t ++ snd (reportOf w toolNames missing bannedHits),
   if nonEmpty missing || nonEmpty bannedHits then 1%nat else 0%nat).
Proof.
  unfold run. intros ->. unfold reportOf.
  destruct (nonEmpty missing || nonEmpty bannedHits); reflexivity.
Qed.

Lemma stagesOk_functional (rt : Runtime) (w : World) (m m' : value)
    (files files' missing missing' : list str) (hits hits' : list hit) :
  stagesOk rt w m files missing hits -> stagesOk rt w m' files' missing' hits' ->
  m = m' /\ files = files' /\ missing = missing' /\ hits = hits'.
Proof.
  intros (_ & Hl & Hc & Hf) (_ & Hl' & Hc' & Hf').
  rewrite Hl in Hl'. injection Hl' as <-. rewrite Hc in Hc'. injection Hc' as <- <-.
  rewrite Hf in Hf'. injection Hf' as <-. auto.
Qed.

(** The run once every stage before the report has returned. *)
Lemma run_of_stages (rt : Runtime) (w : World) (m : value) (files missing : list str)
    (bannedHits : list hit) :
  stagesOk rt w m files missing bannedHits ->
  (missing = [] /\ bannedHits = [] ->
     snd (run rt w) = 0%nat /\ stdoutOf (fst (run rt w)) = [okLine (extractToolNames m)]
     /\ stderrOf (fst (run rt w)) = []) /\
  (missing <> [] \/ bannedHits <> [] ->
     snd (run rt w) = 1%nat /\ stdoutOf (fst (run rt w)) = [] /\
     stderrOf (fst (run rt w)) = diagnosticLines w missing bannedHits).
Proof.
  intros Hok.
  destruct (main_of_stages _ _ _ _ _ _ Hok) as (t & Ht & Hmain).
  rewrite (run_of_report _ _ _ _ _ _ Hmain). cbn [fst snd].
  rewrite stdoutOf_app, stderrOf_app.
  destruct (silent_streams t Ht) as [-> ->]. cbn [app].
  destruct (streams_report w (extractToolNames m) missing bannedHits) as [Hclean Hdirty].
  split.
  - intros Hempty. destruct (Hclean Hempty) as (_ & H1 & H2).
    destruct Hempty as [-> ->]. auto.
  - intros Hne. destruct (Hdirty Hne) as (_ & H1 & H2).
    split; [|auto]. destruct missing, bannedHits; try reflexivity. now destruct Hne.
Qed.

(** C5.  The exit status is 0 or 1.  It is 0 exactly when the tools entry
    exists, the manifest is resolved and both checks return with an empty
    missing list and an empty hit list; the standard stream then holds the
    summary line alone and the error stream nothing.  When the checks return
    and a list is non-empty, the status is 1 and the error stream holds the
    diagnostic blocks.  When [main] throws, the handler prints the header and
    the stack, or the message when there is no stack, and the status is 1;
    the message is in what is printed whenever the stack, as the engine
    builds it, holds the message. *)
Theorem run_exit_policy (rt : Runtime) (w : World) :
  let t := fst (run rt w) in
  let code := snd (run rt w) in
  (code = 0%nat \/ code = 1%nat) /\
  (code = 0%nat <->
     exists m files, stagesOk rt w m files [] []) /\
  (forall m files missing bannedHits,
     stagesOk rt w m files missing bannedHits ->
     (missing = [] /\ bannedHits = [] ->
        code = 0%nat /\ stdoutOf t = [okLine (extractToolNames m)] /\ stderrOf t = []) /\
     (missing <> [] \/ bannedHits <> [] ->
        code = 1%nat /\ stdoutOf t = [] /\
        stderrOf t = diagnosticLines w missing bannedHits)) /\
  (forall err, fst (main rt w) = Throw err ->
     code = 1%nat /\ stdoutOf t = [] /\ stderrOf t = failedLines err /\
     (stack err = [] \/ includes (stack err) (message err) = true ->
      exists ln, In ln (stderrOf t) /\ includes ln (message err) = true)).
Proof.
  cbn zeta.
  pose proof (run_of_stages rt w) as Hstages.
  assert (Hthrow : forall err, fst (main rt w) = Throw err ->
     snd (run rt w) = 1%nat /\ stdoutOf (fst (run rt w)) = [] /\
     stderrOf (fst (run rt w)) = failedLines err /\
     (stack err = [] \/ includes (stack err) (message err) = true ->
      exists ln, In ln (stderrOf (fst (run rt w))) /\ includes ln (message err) = true)).
  { intros err Herr.
    destruct (main_throw_or_stages rt w) as [(err' & Herr' & Hsilent) | (m & f & ms & hs & Hok)].
    - rewrite (run_of_throw _ _ _ Herr). cbn [fst snd].
      rewrite stdoutOf_app, stderrOf_app.
      destruct (silent_streams _ Hsilent) as [-> ->].
      split; [reflexivity|]. split; [reflexivity|]. split; [reflexivity|].
      intros Hstack. cbn [app]. unfold failedLines, stderrOf. cbn [map flat_map app].
      exists (if nonEmpty (stack err) then stack err else message err).
      split; [right; now left|].
      destruct Hstack as [-> | Hinc]; [apply includes_refl|].
      destruct (stack err); [apply includes_refl | exact Hinc].
    - destruct (main_of_stages _ _ _ _ _ _ Hok) as (t & _ & Hmain).
      rewrite Hmain in Herr. unfold reportOf, after in Herr.
      destruct (nonEmpty ms || nonEmpty hs); discriminate. }
  assert (Hcode : snd (run rt w) = 0%nat \/ snd (run rt w) = 1%nat).
  { destruct (main_throw_or_stages rt w) as [(err & Herr & _) | (m & f & ms & hs & Hok)].
    - right. now apply Hthrow in Herr.
    - destruct (Hstages _ _ _ _ Hok) as [Hclean Hdirty].
      destruct ms as [|n ms]; [destruct hs as [|h hs]|].
      + left. now apply Hclean.
      + right. apply Hdirty. right. discriminate.
      + right. apply Hdirty. left. discriminate. }
  split; [exact Hcode|]. split; [|split; [exact Hstages | exact Hthrow]].
  split.
  - intros H0.
    destruct (main_throw_or_stages rt w) as [(err & Herr & _) | (m & f & ms & hs & Hok)].
    + apply Hthrow in Herr as [H1 _]. congruence.
    + destruct (Hstages _ _ _ _ Hok) as [_ Hdirty].
      destruct ms as [|n ms]; [destruct hs as [|h hs]|].
      * eauto.
      * assert (snd (run rt w) = 1%nat) by (apply Hdirty; right; discriminate). congruence.
      * assert (snd (run rt w) = 1%nat) by (apply Hdirty; left; discriminate). congruence.
  - intros (m & files & Hok). now apply (Hstages _ _ _ _ Hok).
Qed.



(** C9.  A manifest that is neither an array nor an object with a [tools]
    array, or whose entries have no field among [name], [tool], [id] that is a
    string non-empty once trimmed, gives no tool names; the coverage check
    then reports nothing missing whatever the tools tree holds, and it does
    return on every tools tree whose [.mdx] files can be read; and when the
    scan finds no banned domain either, the run ends with status 0 and the
    summary line for 0 tools. *)
Theorem empty_manifest_vacuous_success (rt : Runtime) (w : World) (m : value) :
  ((forall items, m <> VArr items) /\
   (forall items, getProp m "tools" <> Some (VArr items)))
  \/ (forall t, In t (toolsOf m) -> specNameOf t = None) ->
  extractToolNames m = [] /\
  (forall toolsDocsRoot files missing,
     fst (checkToolsCovered rt w (extractToolNames m) toolsDocsRoot) = Ok (files, missing) ->
     missing = []) /\
  (forall toolsDocsRoot ents,
     fs_lookup w toolsDocsRoot = Some (Dir ents) ->
     (forall p n, fileUnder toolsDocsRoot ents p n -> endsWith p (lit ".mdx") = true ->
        exists txt, fs_lookup w p = Some (File txt)) ->
     exists files,
       fst (checkToolsCovered rt w (extractToolNames m) toolsDocsRoot) = Ok (files, [])) /\
  (forall files missing,
     stagesOk rt w m files missing [] ->
     missing = [] /\
     snd (run rt w) = 0%nat /\
     stdoutOf (fst (run rt w))
       = [lit "[guardrails] OK: 0 tools covered; no banned domains found."] /\
     stderrOf (fst (run rt w)) = []).
Proof.
  intros H. pose proof (extractToolNames_empty m H) as E.
  assert (Hcheck : forall toolsDocsRoot files missing,
     fst (checkToolsCovered rt w (extractToolNames m) toolsDocsRoot) = Ok (files, missing) ->
     missing = []).
  { intros root files missing Hc. rewrite E in Hc.
    now apply checkToolsCovered_filter in Hc as (texts & _ & _ & ->). }
  split; [exact E|]. split; [exact Hcheck|]. split.
  - intros root ents Hroot Hread.
    destruct (checkToolsCovered_returns rt w (extractToolNames m) root ents Hroot Hread)
      as (files & missing & Hc).
    exists files. now rewrite (Hcheck _ _ _ Hc) in Hc.
  - intros files missing Hok.
    assert (missing = []) by (destruct Hok as (_ & _ & Hc & _); eapply Hcheck; eassumption).
    subst missing. split; [reflexivity|].
    destruct (run_of_stages rt w m files [] [] Hok) as [Hclean _].
    destruct (Hclean (conj eq_refl eq_refl)) as (Hcode & Hout & Herr).
    rewrite E in Hout. auto.
Qed.

(** * Witnesses on the example worlds *)

(** The example repository: [list_campaigns] is missing, [search_ads] is
    covered by [Search_Ads] in the tools page. *)
Lemma checkToolsCovered_missing_exact_witness :
  (fst (checkToolsCovered exampleRuntime exampleWorld exampleNames exampleToolsRoot) = Ok ([lit "/work/docs/tools/search.mdx"], [lit "list_campaigns"])) /\
  (exists ents texts,
    fs_lookup exampleWorld exampleToolsRoot = Some (Dir ents) /\
    (forall p, In p [lit "/work/docs/tools/search.mdx"] <->
               exists n, fileUnder exampleToolsRoot ents p n /\ endsWith p (lit ".mdx") = true) /\
    Forall2 (fun f txt => fs_lookup exampleWorld f = Some (File txt)) [lit "/work/docs/tools/search.mdx"] texts /\
    [lit "list_campaigns"] = filter (fun name => negb (existsb (fun txt =>
        match RegExp_new (toolPattern name) (lit "i") with
        | Some re => test exampleRuntime re txt
        | None => false
        end) texts)) exampleNames /\
    (forall name, In name [lit "list_campaigns"] <->
       In name exampleNames /\ forall txt, In txt texts -> ~ wholeWordIn exampleRuntime name txt) /\
    ((forall name, In name exampleNames ->
        exists txt, In txt texts /\ wholeWordIn exampleRuntime name txt) -> [lit "list_campaigns"] = []) /\
    (forall name, In name exampleNames ->
       (forall txt, In txt texts -> ~ wholeWordIn exampleRuntime name txt) -> In name [lit "list_campaigns"])).
Proof.
  split; [vm_compute; reflexivity|].
  apply (checkToolsCovered_missing_exact exampleRuntime exampleWorld exampleNames exampleToolsRoot [lit "/work/docs/tools/search.mdx"] [lit "list_campaigns"]); vm_compute; reflexivity.
Defined.

(** The example repository: the banned domain on the second line of the
    overview. *)
Lemma findBannedDomains_hits_witness :
  (fst (findBannedDomains exampleRuntime exampleWorld (lit "/work/docs")) = Ok exampleHits) /\
  (exists ents files texts,
    fs_lookup exampleWorld (lit "/work/docs") = Some (Dir ents) /\
    (forall p, In p files <->
       exists n, fileUnder (lit "/work/docs") ents p n /\
         (endsWith p (lit ".mdx") = true \/ endsWith p (lit ".md") = true
          \/ path_basename p = lit "docs.json")) /\
    Forall2 (fun f txt => fs_lookup exampleWorld f = Some (File txt)) files texts /\
    (forall h, In h exampleHits <->
       exists f txt i ln pre post,
         In (f, txt) (combine files texts) /\
         nth_error (splitLines txt) i = Some ln /\
         In (domain h) banned /\
         ln = pre ++ domain h ++ post /\
         h = mkHit f (i + 1) (domain h) (trim ln)) /\
    (forall f txt, In f files -> fs_lookup exampleWorld f = Some (File txt) ->
       (forall d, In d banned -> includes txt d = false) ->
       forall h, In h exampleHits -> file h <> f) /\
    (forall txt, In txt texts ->
       Forall (fun ln => ~ In 10 ln) (splitLines txt) /\
       joinWith [10] (splitLines txt) = lfOnly txt)).
Proof.
  split; [vm_compute; reflexivity|].
  apply (findBannedDomains_hits exampleRuntime exampleWorld (lit "/work/docs") exampleHits); vm_compute; reflexivity.
Defined.

(** A repository where one line holds [docs.adsgateway.io] twice and
    [status.adsgateway.io] once: the line gives one hit for each of the two
    domains, and no more. *)
Lemma findBannedDomains_one_hit_per_triple_witness :
  (fs_lookup twoHitsWorld (lit "/work/docs") = Some (Dir twoHitsEntries)) /\
  (distinct (map fst (flatten (lit "/work/docs") (Dir twoHitsEntries))) = true) /\
  (fst (findBannedDomains exampleRuntime twoHitsWorld (lit "/work/docs")) = Ok twoHits) /\
  includes twoHitsLine (lit "docs.adsgateway.io and docs.adsgateway.io") = true /\
  includes twoHitsLine (lit "status.adsgateway.io") = true /\
  filter (fun h => str_eqb (file h) (lit "/work/docs/a.md") && Nat.eqb (line h) 2) twoHits
  = [mkHit (lit "/work/docs/a.md") 2 (lit "docs.adsgateway.io") twoHitsLine;
     mkHit (lit "/work/docs/a.md") 2 (lit "status.adsgateway.io") twoHitsLine] /\
  (NoDup (map hitKey twoHits) /\
  (forall f l d,
     (length (filter (fun h => str_eqb (file h) f && Nat.eqb (line h) l
                               && str_eqb (domain h) d) twoHits) <= 1)%nat) /\
  (forall f n txt i ln d,
     fileUnder (lit "/work/docs") twoHitsEntries f n -> isDocFile f = true ->
     fs_lookup twoHitsWorld f = Some (File txt) ->
     nth_error (splitLines txt) i = Some ln ->
     In d banned -> includes ln d = true ->
     In (mkHit f (i + 1) d (trim ln)) twoHits)).
Proof.
  split; [vm_compute; reflexivity|].
  split; [vm_compute; reflexivity|].
  split; [vm_compute; reflexivity|].
  split; [vm_compute; reflexivity|].
  split; [vm_compute; reflexivity|].
  split; [vm_compute; reflexivity|].
  apply (findBannedDomains_one_hit_per_triple exampleRuntime twoHitsWorld (lit "/work/docs")
           twoHitsEntries twoHits); vm_compute; reflexivity.
Defined.


(** An entry with a [tool] field only. *)
Lemma pushName_first_truthy_witness :
  forallb plainField
    [getProp toolOnlyEntry "name"; getProp toolOnlyEntry "tool"; getProp toolOnlyEntry "id"]
    = true /\
  specNameOf toolOnlyEntry = Some (lit "list_ads") /\
  pushName [] toolOnlyEntry = [lit "list_ads"].
Proof.
  split; [reflexivity|]. split; [reflexivity|].
  rewrite (proj2 (pushName_first_truthy [] toolOnlyEntry) eq_refl). reflexivity.
Defined.

(** [toolA] under [name] and under [id] comes out once, before [toolB]. *)
Lemma extractToolNames_sorted_unique_witness :
  In (lit "toolA") (fold_left pushName (toolsOf duplicateManifest) []) /\
  extractToolNames duplicateManifest = [lit "toolA"; lit "toolB"] /\
  count_occ str_eq_dec (extractToolNames duplicateManifest) (lit "toolA") = 1%nat.
Proof.
  assert (H : In (lit "toolA") (fold_left pushName (toolsOf duplicateManifest) []))
    by (vm_compute; tauto).
  split; [exact H|]. split; [reflexivity|].
  destruct (extractToolNames_sorted_unique duplicateManifest) as (_ & _ & _ & Hcount & _).
  exact (Hcount _ H).
Defined.

(** A 404 answer, with [GH_TOKEN] set. *)
Lemma fetchJson_contract_witness :
  https_request urlWorld (fetchRequest urlWorld exampleUrl) = Response 404 (lit "Not Found") /\
  (400 <= 404)%nat /\
  assoc (lit "Authorization") (req_headers (fetchRequest urlWorld exampleUrl))
    = Some (lit "Bearer s3cret") /\
  fst (fetchJson exampleRuntime urlWorld exampleUrl) =
    Throw (newError exampleRuntime
             (lit "Fetch failed (404) for https://example.test/mcp-tools.json")).
Proof.
  assert (Hle : (400 <= 404)%nat) by (apply Nat.leb_le; reflexivity).
  destruct (fetchJson_contract exampleRuntime urlWorld exampleUrl)
    as (_ & _ & _ & _ & Hauth & _ & _ & Hstatus & _).
  split; [reflexivity|]. split; [exact Hle|]. split; [exact Hauth|].
  exact (Hstatus 404%nat (lit "Not Found") eq_refl Hle).
Defined.

(** One world for each of the four sources, and one with none. *)
Lemma loadMcpToolsJson_priority_witness :
  (envPathOf overrideWorld <> [] /\
   loadMcpToolsJson exampleRuntime overrideWorld
   = readJson exampleRuntime overrideWorld (lit "/work/docs/tooling/mcp-tools.json")) /\
  (envPathOf siblingWorld = [] /\ fs_lookup siblingWorld (siblingPath siblingWorld) <> None /\
   fst (loadMcpToolsJson exampleRuntime siblingWorld) = Ok exampleManifest) /\
  (envPathOf urlWorld = [] /\ fs_lookup urlWorld (siblingPath urlWorld) = None /\
   urlOf urlWorld <> [] /\
   loadMcpToolsJson exampleRuntime urlWorld
   = after [ExistsSync (siblingPath urlWorld)] (fetchJson exampleRuntime urlWorld exampleUrl)) /\
  (envPathOf exampleWorld = [] /\ fs_lookup exampleWorld (siblingPath exampleWorld) = None /\
   urlOf exampleWorld = [] /\ fs_lookup exampleWorld (vendoredPath exampleWorld) <> None /\
   fst (loadMcpToolsJson exampleRuntime exampleWorld) = Ok exampleManifest) /\
  (envPathOf bareWorld = [] /\ fs_lookup bareWorld (siblingPath bareWorld) = None /\
   urlOf bareWorld = [] /\ fs_lookup bareWorld (vendoredPath bareWorld) = None /\
   fs_lookup bareWorld (toolsRoot bareWorld) <> None /\
   snd (run exampleRuntime bareWorld) = 1%nat /\
   Forall (fun e => isScan e = false) (fst (run exampleRuntime bareWorld))).
Proof.
  assert (H1 : envPathOf overrideWorld <> []) by (vm_compute; discriminate).
  assert (H2 : fs_lookup siblingWorld (siblingPath siblingWorld) <> None)
    by (vm_compute; discriminate).
  assert (H3 : urlOf urlWorld <> []) by (vm_compute; discriminate).
  assert (H4 : fs_lookup exampleWorld (vendoredPath exampleWorld) <> None)
    by (vm_compute; discriminate).
  assert (H5 : fs_lookup bareWorld (toolsRoot bareWorld) <> None)
    by (vm_compute; discriminate).
  split; [|split; [|split; [|split]]].
  - split; [exact H1|].
    exact (proj1 (loadMcpToolsJson_priority exampleRuntime overrideWorld) H1).
  - split; [reflexivity|]. split; [exact H2|].
    destruct (loadMcpToolsJson_priority exampleRuntime siblingWorld) as (_ & Hs & _).
    rewrite (Hs eq_refl H2). reflexivity.
  - split; [reflexivity|]. split; [reflexivity|]. split; [exact H3|].
    destruct (loadMcpToolsJson_priority exampleRuntime urlWorld) as (_ & _ & Hu & _).
    exact (Hu eq_refl eq_refl H3).
  - split; [reflexivity|]. split; [reflexivity|]. split; [reflexivity|]. split; [exact H4|].
    destruct (loadMcpToolsJson_priority exampleRuntime exampleWorld) as (_ & _ & _ & Hv & _).
    rewrite (Hv eq_refl eq_refl eq_refl H4). reflexivity.
  - split; [reflexivity|]. split; [reflexivity|]. split; [reflexivity|].
    split; [reflexivity|]. split; [exact H5|].
    destruct (loadMcpToolsJson_priority exampleRuntime bareWorld) as (_ & _ & _ & _ & Hn).
    destruct (Hn eq_refl eq_refl eq_refl eq_refl) as (_ & _ & _ & _ & Hrun).
    rewrite (Hrun H5). cbn [fst snd]. split; [reflexivity|].
    repeat constructor.
Defined.

(** A clean run, a run with violations and a run whose manifest cannot be
    located. *)
Lemma run_exit_policy_witness :
  stagesOk exampleRuntime cleanWorld (VObj []) [lit "/work/docs/tools/search.mdx"] [] [] /\
  snd (run exampleRuntime cleanWorld) = 0%nat /\
  stdoutOf (fst (run exampleRuntime cleanWorld))
  = [lit "[guardrails] OK: 0 tools covered; no banned domains found."] /\
  stagesOk exampleRuntime exampleWorld exampleManifest
    [lit "/work/docs/tools/search.mdx"] [lit "list_campaigns"] exampleHits /\
  snd (run exampleRuntime exampleWorld) = 1%nat /\
  stderrOf (fst (run exampleRuntime exampleWorld))
  = diagnosticLines exampleWorld [lit "list_campaigns"] exampleHits /\
  fst (main exampleRuntime bareWorld) = Throw (newError exampleRuntime notLocated) /\
  stderrOf (fst (run exampleRuntime bareWorld))
  = failedLines (newError exampleRuntime notLocated).
Proof.
  assert (Hclean : stagesOk exampleRuntime cleanWorld (VObj [])
                     [lit "/work/docs/tools/search.mdx"] [] []).
  { unfold stagesOk. split; [vm_compute; discriminate|].
    repeat split; vm_compute; reflexivity. }
  assert (Hdirty : stagesOk exampleRuntime exampleWorld exampleManifest
                     [lit "/work/docs/tools/search.mdx"] [lit "list_campaigns"] exampleHits).
  { unfold stagesOk. split; [vm_compute; discriminate|].
    repeat split; vm_compute; reflexivity. }
  assert (Hthrow : fst (main exampleRuntime bareWorld)
                   = Throw (newError exampleRuntime notLocated))
    by (vm_compute; reflexivity).
  split; [exact Hclean|]. split.
  { apply (proj1 (proj2 (run_exit_policy exampleRuntime cleanWorld))). eauto. }
  split.
  { exact (proj1 (proj2 (proj1 (proj1 (proj2 (proj2 (run_exit_policy exampleRuntime
             cleanWorld))) _ _ _ _ Hclean) (conj eq_refl eq_refl)))). }
  split; [exact Hdirty|].
  assert (Hne : [lit "list_campaigns"] <> [] \/ exampleHits <> [])
    by (left; discriminate).
  pose proof (proj2 (proj1 (proj2 (proj2 (run_exit_policy exampleRuntime exampleWorld)))
                       _ _ _ _ Hdirty) Hne) as Hd.
  split; [exact (proj1 Hd)|]. split; [exact (proj2 (proj2 Hd))|]. split; [exact Hthrow|].
  pose proof (proj2 (proj2 (proj2 (run_exit_policy exampleRuntime bareWorld))) _ Hthrow)
    as Hth.
  exact (proj1 (proj2 (proj2 Hth))).
Defined.

(** The manifest [{}] on a clean repository. *)
Lemma empty_manifest_vacuous_success_witness :
  ((forall items, VObj [] <> VArr items) /\
   (forall items, getProp (VObj []) "tools" <> Some (VArr items))) /\
  stagesOk exampleRuntime cleanWorld (VObj []) [lit "/work/docs/tools/search.mdx"] [] [] /\
  extractToolNames (VObj []) = [] /\
  snd (run exampleRuntime cleanWorld) = 0%nat /\
  stdoutOf (fst (run exampleRuntime cleanWorld))
  = [lit "[guardrails] OK: 0 tools covered; no banned domains found."].
Proof.
  assert (Hshape : (forall items, VObj [] <> VArr items) /\
                   (forall items, getProp (VObj []) "tools" <> Some (VArr items)))
    by (split; intros items; discriminate).
  assert (Hclean : stagesOk exampleRuntime cleanWorld (VObj [])
                     [lit "/work/docs/tools/search.mdx"] [] []).
  { unfold stagesOk. split; [vm_compute; discriminate|].
    repeat split; vm_compute; reflexivity. }
  pose proof (empty_manifest_vacuous_success exampleRuntime cleanWorld (VObj [])
                (or_introl Hshape)) as Hthm.
  pose proof (proj2 (proj2 (proj2 Hthm)) _ _ Hclean) as Hrun.
  split; [exact Hshape|]. split; [exact Hclean|]. split; [exact (proj1 Hthm)|].
  split; [exact (proj1 (proj2 Hrun)) | exact (proj1 (proj2 (proj2 Hrun)))].
Defined.

(** * Further properties of the script *)

(** ** The directory walker *)

Lemma walkEntries_preorder (rt : Runtime) (predicate : str -> bool)
    (ents : list (str * node)) :
  forall dir,
    walkEntries rt dir predicate ents =
    (Ok (map fst (filter (listedBy predicate) (flattenEntries dir ents))),
     map ReaddirSync (map fst (filter isDirEntry (flattenEntries dir ents)))).
Proof.
  assert (HP : forall n dir,
    match n with
    | Dir ents =>
        walkEntries rt dir predicate ents =
        (Ok (map fst (filter (listedBy predicate) (flattenEntries dir ents))),
         map ReaddirSync (map fst (filter isDirEntry (flattenEntries dir ents))))
    | _ => True
    end).
  { induction n as [text | | ents' IH] using node_tree_ind; intros dir; try exact I.
    revert dir. induction ents' as [|[name child] rest IHrest]; intros dir; [reflexivity|].
    inversion IH as [|? ? Hchild Hrest]; subst. cbn [snd] in Hchild.
    specialize (IHrest Hrest dir). cbn [walkEntries flattenEntries].
    rewrite !filter_app, !map_app, IHrest.
    destruct child as [text | | sub]; cbn [isDirectory].
    - cbn [flatten filter listedBy isDirEntry isDirectory snd fst negb andb map app].
      destruct (predicate (path_join [dir; name])); [|reflexivity].
      cbn [bind ret map fst app]. now rewrite app_nil_r.
    - cbn [flatten filter listedBy isDirEntry isDirectory snd fst negb andb map app].
      destruct (predicate (path_join [dir; name])); [|reflexivity].
      cbn [bind ret map fst app]. now rewrite app_nil_r.
    - rewrite walkNode_Dir, (Hchild (path_join [dir; name])), flatten_Dir.
      cbn [filter listedBy isDirEntry isDirectory snd fst negb andb map app].
      unfold emit. cbn [bind ret app]. now rewrite app_nil_r. }
  intros dir. exact (HP (Dir ents) dir).
Qed.

(** X1.  On a directory the walk returns the paths of the nodes below it
    that are not directories and satisfy the predicate, in the order of a
    pre-order traversal that follows the order of the directory entries; it
    lists each directory once, the root first, in that same order, whatever
    the predicate, and reads no file. *)
Theorem walkFiles_preorder (rt : Runtime) (w : World) (dir : str)
    (predicate : str -> bool) (ents : list (str * node)) :
  fs_lookup w dir = Some (Dir ents) ->
  walkFiles rt w dir predicate =
  (Ok (map fst (filter (listedBy predicate) (flattenEntries dir ents))),
   map ReaddirSync (dir :: map fst (filter isDirEntry (flattenEntries dir ents)))).
Proof.
  intros H. rewrite (walkFiles_Found _ _ _ _ _ H), walkNode_Dir, walkEntries_preorder.
  reflexivity.
Qed.

Lemma walkFiles_preorder_witness :
  fs_lookup exampleWorld (lit "/work/docs") = Some (Dir exampleDocsEntries) /\
  walkFiles exampleRuntime exampleWorld (lit "/work/docs") isDocFile =
  (Ok [lit "/work/docs/tools/search.mdx"; lit "/work/docs/overview.mdx";
       lit "/work/docs/docs.json"],
   [ReaddirSync (lit "/work/docs"); ReaddirSync (lit "/work/docs/tools");
    ReaddirSync (lit "/work/docs/tooling")]).
Proof.
  split; [reflexivity|].
  rewrite (walkFiles_preorder exampleRuntime exampleWorld (lit "/work/docs") isDocFile
             exampleDocsEntries eq_refl).
  reflexivity.
Defined.

(** X2.  The predicate only filters: the walk with a predicate succeeds or
    fails as the walk that accepts every path does, returns the paths of that
    walk that satisfy the predicate, in the same order, and performs the same
    directory listings. *)
Theorem walkFiles_predicate_filters (rt : Runtime) (w : World) (dir : str)
    (predicate : str -> bool) :
  fst (walkFiles rt w dir predicate) =
    match fst (walkFiles rt w dir (fun _ => true)) with
    | Ok all => Ok (filter predicate all)
    | Throw e => Throw e
    | Exit code => Exit code
    end /\
  snd (walkFiles rt w dir predicate) = snd (walkFiles rt w dir (fun _ => true)).
Proof.
  unfold walkFiles. destruct (fs_resolve w dir) as [[text | | ents] | |];
    try (split; reflexivity).
  rewrite !walkNode_Dir, !walkEntries_preorder. cbn [emit bind fst snd]. split; [|reflexivity].
  f_equal. generalize (flattenEntries dir ents). intros l.
  induction l as [|[p n] l IH]; [reflexivity|].
  cbn [filter].
  change (listedBy predicate (p, n)) with (negb (isDirectory n) && predicate p).
  change (listedBy (fun _ : str => true) (p, n)) with (negb (isDirectory n) && true).
  destruct (isDirectory n); cbn [negb andb]; [exact IH|].
  cbn [map fst filter]. destruct (predicate p); cbn [map fst]; now rewrite IH.
Qed.

(** X3.  How a walk ends.  It returns only when its root resolves to a
    directory.  On the empty path, a path that names nothing, a path that
    leads through something that is not a directory, and a root that is not
    a directory, it throws the error of the one listing it attempted: ENOENT
    for the first two, ENOTDIR for the others.  It never ends the process,
    and all it does is list directories. *)
Theorem walkFiles_outcome (rt : Runtime) (w : World) (dir : str) (predicate : str -> bool) :
  (forall files, fst (walkFiles rt w dir predicate) = Ok files ->
     exists ents, fs_lookup w dir = Some (Dir ents)) /\
  (dir = [] \/ fs_resolve w dir = NoEntry ->
     walkFiles rt w dir predicate =
     (Throw (fsError rt "ENOENT: no such file or directory, scandir" dir),
      [ReaddirSync dir])) /\
  (fs_resolve w dir = NotDirectory \/
   (exists n, fs_lookup w dir = Some n /\ isDirectory n = false) ->
     walkFiles rt w dir predicate =
     (Throw (fsError rt "ENOTDIR: not a directory, scandir" dir), [ReaddirSync dir])) /\
  (forall code, fst (walkFiles rt w dir predicate) <> Exit code) /\
  Forall (fun e => exists p, e = ReaddirSync p) (snd (walkFiles rt w dir predicate)).
Proof.
  split; [|split; [|split; [|split]]].
  - intros files H. destruct (walkFiles_Ok _ _ _ _ _ H) as (ents & Hd & _). eauto.
  - intros [-> | H]; unfold walkFiles; [reflexivity | now rewrite H].
  - intros [H | (n & Hn & Hd)].
    + unfold walkFiles. now rewrite H.
    + rewrite (walkFiles_Found _ _ _ _ _ Hn). destruct n; [reflexivity.. | discriminate].
  - intros code. unfold walkFiles.
    destruct (fs_resolve w dir) as [[text | | ents] | |]; try discriminate.
    rewrite walkNode_Dir, walkEntries_preorder. discriminate.
  - unfold walkFiles.
    destruct (fs_resolve w dir) as [[text | | ents] | |];
      try (repeat constructor; now exists dir).
    rewrite walkNode_Dir, walkEntries_preorder. cbn [emit bind fst snd app].
    constructor; [now exists dir|].
    apply Forall_forall. intros e He. apply in_map_iff in He as (p & <- & _). eauto.
Qed.

Lemma walkFiles_outcome_witness :
  fs_lookup exampleWorld (lit "/work/docs/docs.json") = Some (File (lit "{}")) /\
  walkFiles exampleRuntime exampleWorld (lit "/work/docs/docs.json") isMdx
  = (Throw (fsError exampleRuntime "ENOTDIR: not a directory, scandir"
              (lit "/work/docs/docs.json")),
     [ReaddirSync (lit "/work/docs/docs.json")]) /\
  walkFiles exampleRuntime exampleWorld (lit "/work/docs/docs.json/..") isMdx
  = (Throw (fsError exampleRuntime "ENOTDIR: not a directory, scandir"
              (lit "/work/docs/docs.json/..")),
     [ReaddirSync (lit "/work/docs/docs.json/..")]) /\
  walkFiles exampleRuntime exampleWorld [] isMdx
  = (Throw (fsError exampleRuntime "ENOENT: no such file or directory, scandir" []),
     [ReaddirSync []]).
Proof.
  assert (H : fs_lookup exampleWorld (lit "/work/docs/docs.json") = Some (File (lit "{}")))
    by (vm_compute; reflexivity).
  assert (Hup : fs_resolve exampleWorld (lit "/work/docs/docs.json/..") = NotDirectory)
    by (vm_compute; reflexivity).
  split; [exact H|]. split; [|split].
  - apply (proj1 (proj2 (proj2 (walkFiles_outcome exampleRuntime exampleWorld
                                   (lit "/work/docs/docs.json") isMdx)))).
    right. exists (File (lit "{}")). split; [exact H | reflexivity].
  - apply (proj1 (proj2 (proj2 (walkFiles_outcome exampleRuntime exampleWorld
                                   (lit "/work/docs/docs.json/..") isMdx)))).
    left. exact Hup.
  - apply (proj1 (proj2 (walkFiles_outcome exampleRuntime exampleWorld [] isMdx))).
    left. reflexivity.
Defined.

(** ** The escaping of a name *)

Lemma lex_escapeRegExp_alone (s : str) :
  lex (S (length (escapeRegExp s))) (escapeRegExp s) = Some (map TChar s).
Proof.
  apply lex_mono with (f := (length s + 1)%nat).
  - rewrite <- (app_nil_r (escapeRegExp s)), <- (app_nil_r (map TChar s)).
    now apply lex_escapeRegExp.
  - pose proof (escapeRegExp_length s). lia.
Qed.

Lemma parse_chars_alone (s : str) :
  parseDisjunction (2 * length (map TChar s) + 2) (map TChar s)
  = Some (seqChars s Empty, []).
Proof.
  apply (proj1 (parse_mono (S (length s + 1)))).
  - cbn [parseDisjunction].
    assert (H : parseAlternative (length s + 1) (map TChar s ++ [])
                = Some (seqChars s Empty, [])).
    { apply parseAlternative_chars; [intros a; reflexivity | reflexivity]. }
    rewrite app_nil_r in H. now rewrite H.
  - rewrite length_map. lia.
Qed.

Lemma matchAt_seqChars_plain (rt : Runtime) (s : str) :
  forall r i t k,
    matchAt rt false (seqChars s r) i t k =
    if startsWith t s
    then matchAt rt false r (length s + i) (skipn (length s) t) k
    else false.
Proof.
  induction s as [|c s IH]; intros r i t k; [reflexivity|].
  cbn [seqChars matchAt startsWith length]. destruct t as [|x t]; [reflexivity|].
  cbn [Canonicalize negb skipn]. destruct (x =? c); [|reflexivity].
  cbn [andb]. rewrite IH. now rewrite Nat.add_succ_r.
Qed.

Lemma searchFrom_literal (rt : Runtime) (s text : str) :
  forall i, searchFrom rt false (seqChars s Empty) i text = includes text s.
Proof.
  induction text as [|x text IH]; intros i; cbn [searchFrom includes];
    rewrite matchAt_seqChars_plain; cbn [matchAt].
  - now destruct (startsWith [] s).
  - rewrite IH. now destruct (startsWith (x :: text) s).
Qed.

(** X4.  The escaped form of a string is always a valid pattern, and as a
    pattern it stands for the string itself: it matches a text exactly when
    the text contains the string, character for character, whatever
    metacharacters the string holds. *)
Theorem escapeRegExp_literal (rt : Runtime) (s text : str) :
  exists re, RegExp_new (escapeRegExp s) [] = Some re /\
    test rt re text = includes text s.
Proof.
  exists (mkRegExp (seqChars s Empty) false). split.
  - unfold RegExp_new. rewrite lex_escapeRegExp_alone, parse_chars_alone. reflexivity.
  - unfold test. cbn [source ignoreCase]. apply searchFrom_literal.
Qed.

(** X5.  Escaping loses nothing: two strings with the same escaped form are
    the same string, and the escaped form is at least as long as the string
    and at most twice as long. *)
Theorem escapeRegExp_injective (s1 s2 : str) :
  (escapeRegExp s1 = escapeRegExp s2 -> s1 = s2) /\
  (length s1 <= length (escapeRegExp s1) <= 2 * length s1)%nat.
Proof.
  split.
  - intros E. pose proof (lex_escapeRegExp_alone s1) as H1.
    pose proof (lex_escapeRegExp_alone s2) as H2.
    rewrite E, H2 in H1. injection H1 as H1.
    revert s2 E H2 H1. induction s1 as [|c s1 IH]; intros [|d s2] E H2 H1;
      try discriminate; [reflexivity|].
    cbn [map] in H1. injection H1 as -> H1. f_equal.
    clear IH E H2. revert s2 H1. induction s1 as [|a s1 IH]; intros [|b s2] H;
      try discriminate; [reflexivity|].
    cbn [map] in H. injection H as -> H. f_equal. now apply IH.
  - split; [apply escapeRegExp_length|].
    induction s1 as [|c s1 IH]; [cbn; lia|].
    rewrite escapeRegExp_cons, length_app.
    destruct (isSyntaxCharacter c); cbn [length] in *; lia.
Qed.

Lemma escapeRegExp_injective_witness :
  escapeRegExp (lit "a.b") = escapeRegExp ([97; 46] ++ [98]) /\
  lit "a.b" = [97; 46] ++ [98].
Proof.
  assert (H : escapeRegExp (lit "a.b") = escapeRegExp ([97; 46] ++ [98])) by reflexivity.
  split; [exact H|].
  exact (proj1 (escapeRegExp_injective (lit "a.b") ([97; 46] ++ [98])) H).
Defined.

(** ** More on the extraction of the tool names *)

Lemma trimStart_fixed (s : str) :
  (s = [] \/ startsSolid s = true) -> trimStart s = s.
Proof.
  destruct s as [|c s]; [reflexivity|]. intros [H | H]; [discriminate|].
  cbn [startsSolid] in H. apply negb_true_iff in H. cbn [trimStart]. now rewrite H.
Qed.

Lemma trimStart_shape (s : str) :
  (trimStart s = [] \/ startsSolid (trimStart s) = true) /\
  exists pre, s = pre ++ trimStart s.
Proof.
  induction s as [|c s [IH1 (pre & IH2)]]; [split; [now left | now exists []]|].
  cbn [trimStart]. destruct (isWhiteSpace c) eqn:E.
  - split; [exact IH1|]. exists (c :: pre). cbn [app]. now rewrite <- IH2.
  - split; [right; cbn; now rewrite E | now exists []].
Qed.

(** Trimming a trimmed string changes nothing, and a trimmed string that is
    not empty begins and ends with a character that is not whitespace. *)
Lemma trim_shape (s : str) :
  trim (trim s) = trim s /\
  (trim s <> [] -> startsSolid (trim s) = true /\ startsSolid (rev (trim s)) = true).
Proof.
  unfold trim.
  destruct (trimStart_shape s) as [Ha _].
  destruct (trimStart_shape (rev (trimStart s))) as [Hb (pre & Hpre)].
  set (a := trimStart s) in *. set (b := trimStart (rev a)) in *.
  assert (Hrevb : rev b = [] \/ startsSolid (rev b) = true).
  { destruct b as [|x b'] eqn:Eb; [now left|]. right.
    assert (Ha' : a = rev (x :: b') ++ rev pre).
    { rewrite <- rev_app_distr, <- Hpre. now rewrite rev_involutive. }
    destruct (rev (x :: b')) as [|y r] eqn:Er.
    - apply (f_equal (@length N)) in Er. rewrite length_rev in Er. discriminate.
    - destruct Ha as [Ha | Ha]; rewrite Ha' in Ha; [discriminate | exact Ha]. }
  split.
  - rewrite (trimStart_fixed (rev b) Hrevb), rev_involutive.
    now rewrite (trimStart_fixed b Hb).
  - intros Hne. rewrite rev_involutive. split.
    + destruct Hrevb as [H | H]; [contradiction | exact H].
    + destruct Hb as [H | H]; [|exact H]. rewrite H in Hne. now destruct Hne.
Qed.

Lemma pushName_cases (names : list str) (t : value) :
  pushName names t = names \/
  exists s, nonEmpty (trim s) = true /\ pushName names t = names ++ [trim s].
Proof.
  unfold pushName. destruct (orElse _ _) as [[| b | q | s | l | o]|]; try now left.
  destruct (nonEmpty (trim s)) eqn:E; [right; eauto | now left].
Qed.

Lemma fold_pushName_shape (tools : list value) :
  forall names,
    (length (fold_left pushName tools names) <= length names + length tools)%nat /\
    forall x, In x (fold_left pushName tools names) ->
      In x names \/ exists s, x = trim s /\ trim s <> [].
Proof.
  induction tools as [|t tools IH]; intros names; cbn [fold_left length].
  - split; [lia | auto].
  - destruct (IH (pushName names t)) as [Hlen Hin].
    destruct (pushName_cases names t) as [E | (s & Hs & E)]; rewrite E in Hlen, Hin |- *.
    + split; [lia | exact Hin].
    + rewrite length_app in Hlen. cbn [length] in Hlen. split; [lia|].
      intros x Hx. destruct (Hin x Hx) as [H | H]; [|now right].
      apply in_app_iff in H as [H | [<- | []]]; [now left|].
      right. exists s. split; [reflexivity|]. now apply nonEmpty_true.
Qed.

Lemma fold_setAdd_length (names : list str) :
  forall set, (length (fold_left setAdd names set) <= length set + length names)%nat.
Proof.
  induction names as [|x names IH]; intros set; cbn [fold_left length]; [lia|].
  specialize (IH (setAdd set x)).
  assert (H : (length (setAdd set x) <= S (length set))%nat).
  { unfold setAdd. destruct (existsb (str_eqb x) set); [lia|].
    rewrite length_app. cbn [length]. lia. }
  lia.
Qed.

Lemma insertSorted_length (x : str) (l : list str) :
  length (insertSorted x l) = S (length l).
Proof.
  induction l as [|y l IH]; [reflexivity|]. cbn [insertSorted].
  destruct (str_leb x y); cbn [length]; now rewrite ?IH.
Qed.

Lemma sortStrings_length (l : list str) : length (sortStrings l) = length l.
Proof.
  induction l as [|x l IH]; [reflexivity|].
  cbn [sortStrings fold_right]. fold (sortStrings l).
  now rewrite insertSorted_length, IH.
Qed.

(** X6.  Every extracted name is non-empty and carries no whitespace at
    either end (trimming it again changes nothing), and there are at most
    as many names as the manifest has entries. *)
Theorem extractToolNames_names_trimmed (mcpToolsJson : value) :
  (forall x, In x (extractToolNames mcpToolsJson) ->
     x <> [] /\ trim x = x /\ startsSolid x = true /\ startsSolid (rev x) = true) /\
  (length (extractToolNames mcpToolsJson) <= length (toolsOf mcpToolsJson))%nat.
Proof.
  unfold extractToolNames.
  destruct (fold_pushName_shape (toolsOf mcpToolsJson) []) as [Hlen Hin].
  destruct (uniqueOf_spec (fold_left pushName (toolsOf mcpToolsJson) [])) as [_ Hu].
  split.
  - intros x Hx. apply sortStrings_In, Hu, Hin in Hx as [[] | (s & -> & Hne)].
    destruct (trim_shape s) as [Hidem Hsolid]. destruct (Hsolid Hne). auto.
  - rewrite sortStrings_length. unfold uniqueOf.
    pose proof (fold_setAdd_length (fold_left pushName (toolsOf mcpToolsJson) []) []).
    cbn [length] in *. lia.
Qed.

Lemma extractToolNames_names_trimmed_witness :
  In (lit "search_ads") (extractToolNames mixedManifest) /\
  trim (lit "search_ads") = lit "search_ads".
Proof.
  assert (H : In (lit "search_ads") (extractToolNames mixedManifest))
    by (vm_compute; tauto).
  split; [exact H|].
  exact (proj1 (proj2 (proj1 (extractToolNames_names_trimmed mixedManifest) _ H))).
Defined.

Lemma pushName_non_object (names : list str) (t : value) :
  isObject t = false -> pushName names t = names.
Proof. destruct t; try reflexivity. discriminate. Qed.

Lemma fold_pushName_objects (items : list value) :
  forall names,
    fold_left pushName (filter isObject items) names = fold_left pushName items names.
Proof.
  induction items as [|t items IH]; intros names; [reflexivity|].
  cbn [filter fold_left]. destruct (isObject t) eqn:E.
  - cbn [fold_left]. apply IH.
  - rewrite (pushName_non_object names t E). apply IH.
Qed.

(** X7.  Entries that are not objects (null, numbers, strings, booleans,
    arrays) are passed over without an error: the names are those of the
    object entries alone, for a bare array and for an object with a [tools]
    array alike. *)
Theorem extractToolNames_skips_non_objects (items : list value)
    (props : list (str * value)) :
  extractToolNames (VArr items) = extractToolNames (VArr (filter isObject items)) /\
  (assoc (lit "tools") props = Some (VArr items) ->
   extractToolNames (VObj props) = extractToolNames (VArr (filter isObject items))).
Proof.
  unfold extractToolNames. split.
  - cbn [toolsOf]. now rewrite fold_pushName_objects.
  - intros H. cbn [toolsOf getProp]. rewrite H. now rewrite fold_pushName_objects.
Qed.

Lemma extractToolNames_skips_non_objects_witness :
  assoc (lit "tools") wrappedManifestProps = Some (VArr mixedItems) /\
  extractToolNames (VObj wrappedManifestProps)
  = extractToolNames (VArr (filter isObject mixedItems)).
Proof.
  split; [reflexivity|].
  exact (proj2 (extractToolNames_skips_non_objects mixedItems wrappedManifestProps)
               eq_refl).
Defined.

(** ** More on the banned-domain scanner *)

Lemma trimStart_keeps (pre d post : str) :
  startsSolid d = true ->
  exists pre', trimStart (pre ++ d ++ post) = pre' ++ d ++ post.
Proof.
  intros Hd. induction pre as [|x pre (pre' & IH)].
  - exists []. cbn [app]. apply trimStart_fixed. right.
    destruct d; [discriminate | exact Hd].
  - cbn [app trimStart]. destruct (isWhiteSpace x); [now exists pre'|].
    now exists (x :: pre).
Qed.

(** Trimming a line keeps every occurrence of a string that neither begins
    nor ends with whitespace. *)
Lemma trim_keeps (ln d : str) :
  startsSolid d = true -> startsSolid (rev d) = true ->
  includes ln d = true -> includes (trim ln) d = true.
Proof.
  intros Hd Hrd H. apply includes_spec in H as (pre & post & ->).
  unfold trim. destruct (trimStart_keeps pre d post Hd) as (pre' & ->).
  rewrite !rev_app_distr, <- app_assoc.
  destruct (trimStart_keeps (rev post) (rev d) (rev pre') Hrd) as (post' & ->).
  rewrite !rev_app_distr, !rev_involutive, <- app_assoc.
  apply includes_spec. eauto.
Qed.

Lemma banned_solid (d : str) :
  In d banned -> startsSolid d = true /\ startsSolid (rev d) = true.
Proof.
  intros H.
  assert (Hall : forallb (fun d => startsSolid d && startsSolid (rev d)) banned = true)
    by reflexivity.
  rewrite forallb_forall in Hall. now apply andb_true_iff, Hall.
Qed.

(** X8.  Every hit of a scan is well-formed: its domain is one of the banned
    domains, its file is a documentation file that was read, its line number
    lies between 1 and the number of lines of that file, its text is
    trimmed, and the text still contains the domain. *)
Theorem findBannedDomains_hit_fields (rt : Runtime) (w : World) (repoRoot : str)
    (hits : list hit) :
  fst (findBannedDomains rt w repoRoot) = Ok hits ->
  forall h, In h hits ->
    In (domain h) banned /\
    isDocFile (file h) = true /\
    (exists txt, fs_lookup w (file h) = Some (File txt) /\
       (1 <= line h <= length (splitLines txt))%nat) /\
    trim (text h) = text h /\
    includes (text h) (domain h) = true.
Proof.
  intros H h Hh. unfold findBannedDomains in H.
  apply fst_bind_Ok in H as (files & Hwalk & H).
  apply walkFiles_Ok in Hwalk as (ents & _ & Hfiles).
  apply scanFiles_spec in H as (texts & HF & ->).
  apply hitsOf_In in Hh as (f & txt & Hin & Hh).
  apply scanLines_In in Hh as (k & ln & Hk & Hd & Hinc & Hh).
  destruct (Forall2_combine_In _ _ _ HF) as [Hlk _]. specialize (Hlk _ _ Hin).
  cbn beta in Hlk.
  assert (Hf : In f files) by (eapply in_combine_l; eassumption).
  apply Hfiles in Hf as (n & _ & Hdoc).
  assert (Hlt : (k < length (splitLines txt))%nat)
    by (apply nth_error_Some; congruence).
  destruct (banned_solid _ Hd) as [Hs1 Hs2].
  rewrite Hh. cbn [domain file line text]. rewrite Hh in Hd, Hinc. cbn [domain] in Hd, Hinc.
  split; [exact Hd|]. split; [exact Hdoc|]. split.
  - exists txt. split; [exact Hlk | lia].
  - split; [apply trim_shape | now apply trim_keeps].
Qed.

Lemma findBannedDomains_hit_fields_witness :
  fst (findBannedDomains exampleRuntime exampleWorld (lit "/work/docs")) = Ok exampleHits /\
  In (mkHit (lit "/work/docs/overview.mdx") 2 (lit "docs.adsgateway.io")
            (lit "See https://docs.adsgateway.io/guide for more.")) exampleHits /\
  includes (lit "See https://docs.adsgateway.io/guide for more.")
           (lit "docs.adsgateway.io") = true.
Proof.
  assert (H : fst (findBannedDomains exampleRuntime exampleWorld (lit "/work/docs"))
              = Ok exampleHits) by (vm_compute; reflexivity).
  assert (Hin : In (mkHit (lit "/work/docs/overview.mdx") 2 (lit "docs.adsgateway.io")
                      (lit "See https://docs.adsgateway.io/guide for more.")) exampleHits)
    by (left; reflexivity).
  split; [exact H|]. split; [exact Hin|].
  exact (proj2 (proj2 (proj2 (proj2
           (findBannedDomains_hit_fields exampleRuntime exampleWorld (lit "/work/docs")
              exampleHits H _ Hin))))).
Defined.

Lemma StronglySorted_app {A} (R : A -> A -> Prop) (l1 l2 : list A) :
  StronglySorted R l1 -> StronglySorted R l2 ->
  (forall x y, In x l1 -> In y l2 -> R x y) ->
  StronglySorted R (l1 ++ l2).
Proof.
  induction 1 as [|x l1 Hl1 IH Hx]; intros H2 Hcross; [exact H2|].
  cbn [app]. constructor.
  - apply IH; [exact H2|]. intros a b Ha Hb. apply Hcross; [now right | exact Hb].
  - apply Forall_app. split; [exact Hx|].
    apply Forall_forall. intros y Hy. apply Hcross; [now left | exact Hy].
Qed.

Lemma StronglySorted_weaken {A} (R R' : A -> A -> Prop) (l : list A) :
  (forall x y, R x y -> R' x y) -> StronglySorted R l -> StronglySorted R' l.
Proof.
  intros HR. induction 1 as [|x l Hl IH Hx]; constructor; [exact IH|].
  eapply Forall_impl; [|exact Hx]. intros y. apply HR.
Qed.

Lemma StronglySorted_map {A B} (R : B -> B -> Prop) (g : A -> B) (l : list A) :
  StronglySorted (fun a b => R (g a) (g b)) l -> StronglySorted R (map g l).
Proof.
  induction 1 as [|x l Hl IH Hx]; cbn [map]; constructor; [exact IH|].
  apply Forall_forall. intros y Hy. apply in_map_iff in Hy as (a & <- & Ha).
  rewrite Forall_forall in Hx. now apply Hx.
Qed.

Lemma before_cons {A} (x : A) (l : list A) (a b : A) :
  before l a b -> before (x :: l) a b.
Proof. intros (l1 & l2 & l3 & ->). now exists (x :: l1), l2, l3. Qed.

Lemma before_head {A} (a b : A) (l : list A) : In b l -> before (a :: l) a b.
Proof.
  intros H. apply in_split in H as (l2 & l3 & ->). now exists [], l2, l3.
Qed.

Lemma filter_before {A} (p : A -> bool) (l : list A) :
  forall pre, StronglySorted (before (pre ++ l)) (filter p l).
Proof.
  induction l as [|a l IH]; intros pre; cbn [filter]; [constructor|].
  assert (Htail : StronglySorted (before (pre ++ a :: l)) (filter p l)).
  { specialize (IH (pre ++ [a])). now rewrite <- app_assoc in IH. }
  destruct (p a); [|exact Htail]. constructor; [exact Htail|].
  apply Forall_forall. intros b Hb. apply filter_In in Hb as [Hb _].
  apply in_split in Hb as (l2 & l3 & ->). now exists pre, l2, l3.
Qed.

Lemma scanLine_map (f : str) (i : nat) (ln : str) :
  scanLine f i ln =
  map (fun d => mkHit f (i + 1) d (trim ln)) (filter (includes ln) banned).
Proof.
  unfold scanLine. generalize banned. intros l.
  induction l as [|d l IH]; [reflexivity|].
  cbn [flat_map filter]. rewrite IH. now destruct (includes ln d).
Qed.

Lemma scanLines_ordered (files : list str) (f : str) (lines : list str) :
  forall i0, StronglySorted (reportOrder files) (scanLines f i0 lines).
Proof.
  induction lines as [|ln lines IH]; intros i0; cbn [scanLines]; [constructor|].
  apply StronglySorted_app; [| apply IH |].
  - rewrite scanLine_map. apply StronglySorted_map.
    eapply StronglySorted_weaken; [|apply (filter_before (includes ln) banned [])].
    intros d1 d2 Hb. right. cbn [file line domain]. auto.
  - intros h1 h2 H1 H2. apply scanLine_In in H1 as (_ & _ & ->).
    apply scanLines_file_line in H2 as [Hf Hl].
    right. cbn [file line]. split; [now symmetry | left; lia].
Qed.

Lemma hitsOf_ordered (files : list str) :
  forall texts, StronglySorted (reportOrder files) (hitsOf files texts).
Proof.
  induction files as [|f files IH]; intros texts; [constructor|].
  destruct texts as [|txt texts]; [constructor|].
  rewrite hitsOf_cons. apply StronglySorted_app.
  - apply scanLines_ordered.
  - eapply StronglySorted_weaken; [|apply IH].
    intros h1 h2 [Hb | Hs]; [left; now apply before_cons | now right].
  - intros h1 h2 H1 H2. apply scanLines_file_line in H1 as [Hf _].
    apply hitsOf_file in H2. left. rewrite Hf. now apply before_head.
Qed.

(** X9.  The hits come in report order: file by file as the walk lists the
    files, within a file by ascending line number, and within a line in the
    order of the banned-domain list. *)
Theorem findBannedDomains_report_order (rt : Runtime) (w : World) (repoRoot : str)
    (hits : list hit) :
  fst (findBannedDomains rt w repoRoot) = Ok hits ->
  exists files,
    fst (walkFiles rt w repoRoot isDocFile) = Ok files /\
    StronglySorted (reportOrder files) hits.
Proof.
  intros H. unfold findBannedDomains in H.
  apply fst_bind_Ok in H as (files & Hwalk & H).
  apply scanFiles_spec in H as (texts & _ & ->).
  exists files. split; [exact Hwalk | apply hitsOf_ordered].
Qed.

Lemma findBannedDomains_report_order_witness :
  fst (findBannedDomains exampleRuntime twoHitsWorld (lit "/work/docs")) = Ok twoHits /\
  exists files,
    fst (walkFiles exampleRuntime twoHitsWorld (lit "/work/docs") isDocFile) = Ok files /\
    StronglySorted (reportOrder files) twoHits.
Proof.
  assert (H : fst (findBannedDomains exampleRuntime twoHitsWorld (lit "/work/docs"))
              = Ok twoHits) by (vm_compute; reflexivity).
  split; [exact H|].
  exact (findBannedDomains_report_order exampleRuntime twoHitsWorld (lit "/work/docs")
           twoHits H).
Defined.

Lemma snd_bind {A B} (m : M A) (f : A -> M B) :
  snd (bind m f) =
  snd m ++ match fst m with
           | Ok a => snd (f a)
           | _ => []
           end.
Proof.
  destruct m as [[a | e | c] t]; cbn [bind fst snd]; try now rewrite app_nil_r.
  now destruct (f a).
Qed.

Lemma snd_bind_Ok {A B} (m : M A) (f : A -> M B) (a : A) :
  fst m = Ok a -> snd (bind m f) = snd m ++ snd (f a).
Proof. intros H. now rewrite snd_bind, H. Qed.

Lemma snd_readText (rt : Runtime) (w : World) (p : str) :
  snd (readText rt w p) = [ReadFileSync p].
Proof.
  unfold readText. rewrite snd_bind. cbn [emit fst snd app].
  now destruct (fs_resolve w p) as [[] | |].
Qed.

Lemma snd_scanFiles (rt : Runtime) (w : World) (files : list str) :
  forall hits, fst (scanFiles rt w files) = Ok hits ->
    snd (scanFiles rt w files) = map ReadFileSync files.
Proof.
  induction files as [|f files IH]; intros hits H; [reflexivity|].
  cbn [scanFiles] in H |- *.
  apply fst_bind_Ok in H as (txt & Hr & H). apply fst_bind_Ok in H as (more & Hm & _).
  rewrite (snd_bind_Ok _ _ _ Hr), (snd_bind_Ok _ _ _ Hm), snd_readText, (IH _ Hm).
  cbn [ret snd map app]. now rewrite app_nil_r.
Qed.

Lemma snd_readAll (rt : Runtime) (w : World) (files : list str) :
  forall corpus,
    fst (mapM (fun f => text <- readText rt w f ;; ret (f, text)) files) = Ok corpus ->
    snd (mapM (fun f => text <- readText rt w f ;; ret (f, text)) files)
    = map ReadFileSync files.
Proof.
  induction files as [|f files IH]; intros corpus H; [reflexivity|].
  cbn [mapM] in H |- *.
  apply fst_bind_Ok in H as (entry & Hr & H). apply fst_bind_Ok in H as (more & Hm & _).
  rewrite (snd_bind_Ok _ _ _ Hr), (snd_bind_Ok _ _ _ Hm), (IH _ Hm).
  apply fst_bind_Ok in Hr as (txt & Hr & _).
  rewrite (snd_bind_Ok _ _ _ Hr), snd_readText.
  cbn [ret snd map app]. now rewrite app_nil_r.
Qed.

(** X10.  A check that returns has first walked its whole tree and then read
    every listed file exactly once, in the order of the list; it has done
    nothing else: no existence check, no request, no output. *)
Theorem checks_read_each_file_once (rt : Runtime) (w : World) :
  (forall repoRoot hits,
     fst (findBannedDomains rt w repoRoot) = Ok hits ->
     exists files,
       fst (walkFiles rt w repoRoot isDocFile) = Ok files /\
       snd (findBannedDomains rt w repoRoot)
       = snd (walkFiles rt w repoRoot isDocFile) ++ map ReadFileSync files) /\
  (forall toolNames toolsDocsRoot toolFiles missing,
     fst (checkToolsCovered rt w toolNames toolsDocsRoot) = Ok (toolFiles, missing) ->
     fst (walkFiles rt w toolsDocsRoot isMdx) = Ok toolFiles /\
     snd (checkToolsCovered rt w toolNames toolsDocsRoot)
     = snd (walkFiles rt w toolsDocsRoot isMdx) ++ map ReadFileSync toolFiles).
Proof.
  split.
  - intros repoRoot hits H. unfold findBannedDomains in H |- *.
    apply fst_bind_Ok in H as (files & Hwalk & H).
    exists files. split; [exact Hwalk|].
    now rewrite (snd_bind_Ok _ _ _ Hwalk), (snd_scanFiles _ _ _ _ H).
  - intros toolNames root toolFiles missing H. unfold checkToolsCovered in H |- *.
    apply fst_bind_Ok in H as (files & Hwalk & H).
    apply fst_bind_Ok in H as (corpus & Hc & H).
    rewrite collectMissing_spec in H. cbn in H. injection H as <- <-.
    split; [exact Hwalk|].
    rewrite (snd_bind_Ok _ _ _ Hwalk), (snd_bind_Ok _ _ _ Hc), (snd_readAll _ _ _ _ Hc).
    rewrite collectMissing_spec. cbn [bind ret snd app]. now rewrite !app_nil_r.
Qed.

Lemma checks_read_each_file_once_witness :
  fst (findBannedDomains exampleRuntime exampleWorld (lit "/work/docs")) = Ok exampleHits /\
  exists files,
    fst (walkFiles exampleRuntime exampleWorld (lit "/work/docs") isDocFile) = Ok files /\
    snd (findBannedDomains exampleRuntime exampleWorld (lit "/work/docs"))
    = snd (walkFiles exampleRuntime exampleWorld (lit "/work/docs") isDocFile)
      ++ map ReadFileSync files.
Proof.
  assert (H : fst (findBannedDomains exampleRuntime exampleWorld (lit "/work/docs"))
              = Ok exampleHits) by (vm_compute; reflexivity).
  split; [exact H|].
  exact (proj1 (checks_read_each_file_once exampleRuntime exampleWorld) _ _ H).
Defined.

Lemma filter_subseq {A} (p : A -> bool) (l : list A) : subseq (filter p l) l.
Proof.
  induction l as [|x l IH]; cbn [filter]; [constructor|].
  destruct (p x); constructor; exact IH.
Qed.

Lemma filter_StronglySorted {A} (R : A -> A -> Prop) (p : A -> bool) (l : list A) :
  StronglySorted R l -> StronglySorted R (filter p l).
Proof.
  induction 1 as [|x l Hl IH Hx]; cbn [filter]; [constructor|].
  destruct (p x); [|exact IH]. constructor; [exact IH|].
  apply Forall_forall. intros y Hy. apply filter_In in Hy as [Hy _].
  rewrite Forall_forall in Hx. now apply Hx.
Qed.

Lemma filter_all {A} (p : A -> bool) (l : list A) :
  (forall x, In x l -> p x = true) -> filter p l = l.
Proof.
  induction l as [|x l IH]; intros H; cbn [filter]; [reflexivity|].
  rewrite (H x (or_introl eq_refl)). f_equal. apply IH. intros y Hy. apply H. now right.
Qed.

(** X11.  The missing names are a subsequence of the names given: none is
    added and their order is kept, so over sorted names the report is sorted;
    and when the tools directory holds no [.mdx] page at all, every name is
    missing. *)
Theorem checkToolsCovered_missing_order (rt : Runtime) (w : World)
    (toolNames : list str) (toolsDocsRoot : str) (toolFiles missing : list str) :
  fst (checkToolsCovered rt w toolNames toolsDocsRoot) = Ok (toolFiles, missing) ->
  subseq missing toolNames /\
  (length missing <= length toolNames)%nat /\
  (strictlyAscending toolNames -> strictlyAscending missing) /\
  (toolFiles = [] -> missing = toolNames).
Proof.
  intros H. apply checkToolsCovered_filter in H as (texts & _ & Hread & ->).
  split; [apply filter_subseq|]. split; [apply filter_length_le|].
  split; [apply filter_StronglySorted|].
  intros ->. inversion Hread; subst. now apply filter_all.
Qed.

Lemma checkToolsCovered_missing_order_witness :
  fst (checkToolsCovered exampleRuntime bareWorld exampleNames exampleToolsRoot)
  = Ok ([], exampleNames) /\
  subseq exampleNames exampleNames.
Proof.
  assert (H : fst (checkToolsCovered exampleRuntime bareWorld exampleNames exampleToolsRoot)
              = Ok ([], exampleNames)) by (vm_compute; reflexivity).
  split; [exact H|].
  exact (proj1 (checkToolsCovered_missing_order exampleRuntime bareWorld exampleNames
                  exampleToolsRoot [] exampleNames H)).
Defined.

Lemma missingBlock_console (missing : list str) :
  Forall (fun e => isConsole e = true) (missingBlock missing).
Proof.
  unfold missingBlock. destruct (nonEmpty missing); constructor; [reflexivity|].
  apply Forall_forall. intros e He. apply in_map_iff in He as (n & <- & _). reflexivity.
Qed.

Lemma bannedBlock_console (w : World) (bannedHits : list hit) :
  Forall (fun e => isConsole e = true) (bannedBlock w bannedHits).
Proof.
  unfold bannedBlock. destruct (nonEmpty bannedHits); constructor; [reflexivity|].
  apply Forall_forall. intros e He. apply in_map_iff in He as (h & <- & _). reflexivity.
Qed.

Lemma reportOf_console (w : World) (toolNames missing : list str) (bannedHits : list hit) :
  Forall (fun e => isConsole e = true) (snd (reportOf w toolNames missing bannedHits)) /\
  snd (reportOf w toolNames missing bannedHits) <> [].
Proof.
  unfold reportOf. destruct (nonEmpty missing || nonEmpty bannedHits) eqn:E; cbn [snd].
  - split.
    + apply Forall_app. split; [apply missingBlock_console | apply bannedBlock_console].
    + unfold missingBlock, bannedBlock.
      destruct (nonEmpty missing); [discriminate|].
      destruct (nonEmpty bannedHits); discriminate.
  - split; [repeat constructor | discriminate].
Qed.

(** X12.  Reporting is deferred: the trace of every run is its filesystem
    and network activity followed by its console output, with no output in
    between. *)
Theorem run_prints_after_all_io (rt : Runtime) (w : World) :
  exists io out,
    fst (run rt w) = io ++ out /\
    silent io /\
    Forall (fun e => isConsole e = true) out.
Proof.
  destruct (main_throw_or_stages rt w)
    as [(err & Herr & Hsilent) | (m & files & missing & bannedHits & Hok)].
  - exists (snd (main rt w)), (map ConsoleError (failedLines err)).
    rewrite (run_of_throw _ _ _ Herr). cbn [fst].
    split; [reflexivity|]. split; [exact Hsilent | repeat constructor].
  - destruct (main_of_stages _ _ _ _ _ _ Hok) as (t & Ht & Hmain).
    exists t, (snd (reportOf w (extractToolNames m) missing bannedHits)).
    rewrite (run_of_report _ _ _ _ _ _ Hmain). cbn [fst].
    split; [reflexivity|]. split; [exact Ht|]. apply reportOf_console.
Qed.

Lemma snd_readJson (rt : Runtime) (w : World) (p : str) :
  snd (readJson rt w p) = [ReadFileSync p].
Proof.
  unfold readJson. rewrite snd_bind, snd_readText.
  destruct (fst (readText rt w p)) as [text | e | c]; [|reflexivity..].
  now destruct (JSON_parse rt text).
Qed.

Lemma snd_fetchJson (rt : Runtime) (w : World) (url : str) :
  snd (fetchJson rt w url) = [HttpsRequest (fetchRequest w url)].
Proof.
  unfold fetchJson. rewrite snd_bind. cbn [emit fst snd].
  destruct (https_request w _) as [e | status data]; [reflexivity|].
  destruct (Nat.leb 400 status); [reflexivity|].
  now destruct (JSON_parse rt data).
Qed.

Lemma snd_after {A} (t : list event) (m : M A) : snd (after t m) = t ++ snd m.
Proof. reflexivity. Qed.

Lemma fst_after {A} (t : list event) (m : M A) : fst (after t m) = fst m.
Proof. reflexivity. Qed.

Lemma loadMcpToolsJson_cases (rt : Runtime) (w : World) :
  loadMcpToolsJson rt w =
  if nonEmpty (envPathOf w) then readJson rt w (resolvedEnvPath w)
  else
    match fs_lookup w (siblingPath w) with
    | Some _ => after [ExistsSync (siblingPath w)] (readJson rt w (siblingPath w))
    | None =>
        if nonEmpty (urlOf w)
        then after [ExistsSync (siblingPath w)] (fetchJson rt w (urlOf w))
        else
          match fs_lookup w (vendoredPath w) with
          | Some _ =>
              after [ExistsSync (siblingPath w); ExistsSync (vendoredPath w)]
                    (readJson rt w (vendoredPath w))
          | None =>
              (Throw (newError rt notLocated),
               [ExistsSync (siblingPath w); ExistsSync (vendoredPath w)])
          end
    end.
Proof.
  unfold loadMcpToolsJson. fold (envPathOf w) (urlOf w) (siblingPath w) (vendoredPath w).
  fold (resolvedEnvPath w).
  destruct (nonEmpty (envPathOf w)); [reflexivity|].
  rewrite existsSync_eq, bind_after.
  destruct (fs_lookup w (siblingPath w)); [reflexivity|].
  destruct (nonEmpty (urlOf w)); [reflexivity|].
  rewrite existsSync_eq, bind_after, after_after.
  destruct (fs_lookup w (vendoredPath w)); reflexivity.
Qed.

(** X13.  The resolver consults at most one source per run: after at most
    two existence checks it reads one file or sends one request, or neither,
    and never tries a second source when the first fails.  A manifest that
    is returned comes from exactly one access. *)
Theorem loadMcpToolsJson_single_access (rt : Runtime) (w : World) :
  exists checks src,
    snd (loadMcpToolsJson rt w) = checks ++ src /\
    Forall (fun e => isExistsSync e = true) checks /\
    (length checks <= 2)%nat /\
    Forall (fun e => isSourceAccess e = true) src /\
    (length src <= 1)%nat /\
    (forall m, fst (loadMcpToolsJson rt w) = Ok m -> length src = 1%nat).
Proof.
  rewrite loadMcpToolsJson_cases.
  destruct (nonEmpty (envPathOf w)).
  { exists [], [ReadFileSync (resolvedEnvPath w)]. rewrite snd_readJson.
    repeat split; auto; repeat constructor. }
  destruct (fs_lookup w (siblingPath w)).
  { exists [ExistsSync (siblingPath w)], [ReadFileSync (siblingPath w)].
    rewrite snd_after, snd_readJson. repeat split; auto; repeat constructor. }
  destruct (nonEmpty (urlOf w)).
  { exists [ExistsSync (siblingPath w)], [HttpsRequest (fetchRequest w (urlOf w))].
    rewrite snd_after, snd_fetchJson. repeat split; auto; repeat constructor. }
  destruct (fs_lookup w (vendoredPath w)).
  { exists [ExistsSync (siblingPath w); ExistsSync (vendoredPath w)],
           [ReadFileSync (vendoredPath w)].
    rewrite snd_after, snd_readJson. repeat split; auto; repeat constructor. }
  exists [ExistsSync (siblingPath w); ExistsSync (vendoredPath w)], [].
  cbn [fst snd]. repeat split; auto; try discriminate; repeat constructor.
Qed.

Lemma loadMcpToolsJson_single_access_witness :
  fst (loadMcpToolsJson exampleRuntime exampleWorld) = Ok exampleManifest /\
  exists checks src,
    snd (loadMcpToolsJson exampleRuntime exampleWorld) = checks ++ src /\
    length src = 1%nat.
Proof.
  assert (H : fst (loadMcpToolsJson exampleRuntime exampleWorld) = Ok exampleManifest)
    by (vm_compute; reflexivity).
  split; [exact H|].
  destruct (loadMcpToolsJson_single_access exampleRuntime exampleWorld)
    as (checks & src & E & _ & _ & _ & _ & Hm).
  exists checks, src. split; [exact E | exact (Hm _ H)].
Defined.

Lemma fst_readJson (rt : Runtime) (w : World) (p : str) :
  fst (readJson rt w p) =
  match fs_resolve w p with
  | Found (File txt) =>
      match JSON_parse rt txt with
      | inr v => Ok v
      | inl msg => Throw (newError rt msg)
      end
  | Found (Dir _) => Throw (newError rt (lit "EISDIR: illegal operation on a directory, read"))
  | Found Special => Throw (fsError rt "EACCES: permission denied, open" p)
  | NoEntry => Throw (fsError rt "ENOENT: no such file or directory, open" p)
  | NotDirectory => Throw (fsError rt "ENOTDIR: not a directory, open" p)
  end.
Proof.
  unfold readJson, readText. rewrite !fst_bind. cbn [emit fst].
  destruct (fs_resolve w p) as [[txt | | ents] | |]; cbn [ret throw fst]; try reflexivity.
  now destruct (JSON_parse rt txt).
Qed.

Lemma main_load_throw (rt : Runtime) (w : World) (err : exn) :
  fs_lookup w (toolsRoot w) <> None ->
  fst (loadMcpToolsJson rt w) = Throw err ->
  main rt w = (Throw err, ExistsSync (toolsRoot w) :: snd (loadMcpToolsJson rt w)).
Proof.
  intros Ht Hl. rewrite main_stages.
  destruct (fs_lookup w (toolsRoot w)); [|congruence].
  destruct (loadMcpToolsJson rt w) as [r t]. cbn [fst snd] in Hl |- *. now subst r.
Qed.

Lemma run_throw_status (rt : Runtime) (w : World) (err : exn) :
  fst (main rt w) = Throw err -> snd (run rt w) = 1%nat.
Proof. intros H. now rewrite (run_of_throw _ _ _ H). Qed.

Lemma run_load_throw_status (rt : Runtime) (w : World) (err : exn) :
  fst (loadMcpToolsJson rt w) = Throw err -> snd (run rt w) = 1%nat.
Proof.
  intros Hl. destruct (fs_lookup w (toolsRoot w)) eqn:Et.
  - apply run_throw_status with (err := err).
    rewrite (main_load_throw rt w err); [reflexivity | congruence | exact Hl].
  - apply run_throw_status with (err := newError rt missingToolsDir).
    now rewrite main_stages, Et.
Qed.

(** X14.  A manifest path given in [MCP_TOOLS_JSON_PATH] is final: the
    resolver reads that one file and nothing else, and returns a manifest
    exactly when the path resolves to a regular file whose text parses.
    Otherwise it throws, whatever sibling or vendored manifest exists: the
    parser's message for a text that does not parse, ENOENT for a path that
    names nothing, ENOTDIR for a path that leads through a file (a trailing
    separator after a file name included), and the EISDIR of the read for a
    directory.  Every such run ends with status 1. *)
Theorem loadMcpToolsJson_override_final (rt : Runtime) (w : World) :
  envPathOf w <> [] ->
  snd (loadMcpToolsJson rt w) = [ReadFileSync (resolvedEnvPath w)] /\
  (forall m, fst (loadMcpToolsJson rt w) = Ok m <->
     exists txt, fs_lookup w (resolvedEnvPath w) = Some (File txt) /\
                 JSON_parse rt txt = inr m) /\
  (forall txt msg,
     fs_lookup w (resolvedEnvPath w) = Some (File txt) -> JSON_parse rt txt = inl msg ->
     fst (loadMcpToolsJson rt w) = Throw (newError rt msg)) /\
  (fs_resolve w (resolvedEnvPath w) = NoEntry ->
     fst (loadMcpToolsJson rt w)
     = Throw (fsError rt "ENOENT: no such file or directory, open" (resolvedEnvPath w))) /\
  (fs_resolve w (resolvedEnvPath w) = NotDirectory ->
     fst (loadMcpToolsJson rt w)
     = Throw (fsError rt "ENOTDIR: not a directory, open" (resolvedEnvPath w))) /\
  (forall ents, fs_lookup w (resolvedEnvPath w) = Some (Dir ents) ->
     fst (loadMcpToolsJson rt w)
     = Throw (newError rt (lit "EISDIR: illegal operation on a directory, read"))) /\
  (forall err, fst (loadMcpToolsJson rt w) = Throw err -> snd (run rt w) = 1%nat).
Proof.
  intros He. apply nonEmpty_true in He.
  assert (E : loadMcpToolsJson rt w = readJson rt w (resolvedEnvPath w))
    by (rewrite loadMcpToolsJson_cases; now rewrite He).
  split; [now rewrite E, snd_readJson|].
  split; [|split; [|split; [|split; [|split]]]].
  - intros m. rewrite E, fst_readJson. unfold fs_lookup. split.
    + destruct (fs_resolve w (resolvedEnvPath w)) as [[txt | | ents] | |]; try discriminate.
      destruct (JSON_parse rt txt) as [msg | v] eqn:Ep; [discriminate|].
      intros H. injection H as <-. now exists txt.
    + intros (txt & Hf & Hp).
      destruct (fs_resolve w (resolvedEnvPath w)) as [[txt' | | ents] | |]; try discriminate.
      injection Hf as ->. now rewrite Hp.
  - intros txt msg Hf Hp. apply fs_lookup_Found in Hf.
    now rewrite E, fst_readJson, Hf, Hp.
  - intros H. now rewrite E, fst_readJson, H.
  - intros H. now rewrite E, fst_readJson, H.
  - intros ents Hd. apply fs_lookup_Found in Hd. now rewrite E, fst_readJson, Hd.
  - intros err. apply run_load_throw_status.
Qed.

Lemma loadMcpToolsJson_override_final_witness :
  (fs_lookup brokenOverrideWorld (vendoredPath brokenOverrideWorld)
   = Some (File exampleManifestText) /\
   fst (loadMcpToolsJson exampleRuntime brokenOverrideWorld)
   = Throw (fsError exampleRuntime "ENOENT: no such file or directory, open"
              (lit "/work/docs/missing.json")) /\
   snd (run exampleRuntime brokenOverrideWorld) = 1%nat) /\
  (fs_lookup slashOverrideWorld (lit "/work/docs/tooling/mcp-tools.json")
   = Some (File exampleManifestText) /\
   fst (loadMcpToolsJson exampleRuntime slashOverrideWorld)
   = Throw (fsError exampleRuntime "ENOTDIR: not a directory, open"
              (lit "/work/docs/tooling/mcp-tools.json/")) /\
   snd (run exampleRuntime slashOverrideWorld) = 1%nat).
Proof.
  assert (He1 : envPathOf brokenOverrideWorld <> []) by (vm_compute; discriminate).
  assert (He2 : envPathOf slashOverrideWorld <> []) by (vm_compute; discriminate).
  assert (Hn1 : fs_resolve brokenOverrideWorld (resolvedEnvPath brokenOverrideWorld)
                = NoEntry) by (vm_compute; reflexivity).
  assert (Hn2 : fs_resolve slashOverrideWorld (resolvedEnvPath slashOverrideWorld)
                = NotDirectory) by (vm_compute; reflexivity).
  pose proof (loadMcpToolsJson_override_final exampleRuntime brokenOverrideWorld He1) as H1.
  pose proof (loadMcpToolsJson_override_final exampleRuntime slashOverrideWorld He2) as H2.
  pose proof (proj1 (proj2 (proj2 (proj2 H1))) Hn1) as T1.
  pose proof (proj1 (proj2 (proj2 (proj2 (proj2 H2)))) Hn2) as T2.
  split; (split; [vm_compute; reflexivity|]).
  - split; [exact T1|].
    exact (proj2 (proj2 (proj2 (proj2 (proj2 (proj2 H1))))) _ T1).
  - split; [exact T2|].
    exact (proj2 (proj2 (proj2 (proj2 (proj2 (proj2 H2))))) _ T2).
Defined.

(** X15.  A [tools] entry that exists but is not a directory passes the
    existence guard: the manifest is still resolved, and the run fails only
    when the coverage check tries to list the entry, with the error of the
    directory read and status 1; nothing is read or listed after that, and
    nothing goes to the standard stream. *)
Theorem main_tools_not_a_directory (rt : Runtime) (w : World) (n : node) (m : value) :
  fs_lookup w (toolsRoot w) = Some n -> isDirectory n = false ->
  fst (loadMcpToolsJson rt w) = Ok m ->
  let err := fsError rt "ENOTDIR: not a directory, scandir" (toolsRoot w) in
  run rt w =
    (ExistsSync (toolsRoot w) :: snd (loadMcpToolsJson rt w)
     ++ [ReaddirSync (toolsRoot w)] ++ map ConsoleError (failedLines err),
     1%nat) /\
  stdoutOf (fst (run rt w)) = [] /\
  stderrOf (fst (run rt w)) = failedLines err.
Proof.
  intros Hn Hd Hl err.
  assert (Hwalk : forall predicate,
    walkFiles rt w (toolsRoot w) predicate = (Throw err, [ReaddirSync (toolsRoot w)])).
  { intros predicate. rewrite (walkFiles_Found _ _ _ _ _ Hn).
    destruct n; [reflexivity.. | discriminate]. }
  assert (Hmain : main rt w =
    (Throw err,
     ExistsSync (toolsRoot w) :: snd (loadMcpToolsJson rt w)
     ++ [ReaddirSync (toolsRoot w)])).
  { rewrite main_stages, Hn.
    destruct (loadMcpToolsJson rt w) as [r t]. cbn [fst snd] in Hl |- *. subst r.
    rewrite bind_after. unfold checkToolsCovered. rewrite Hwalk. reflexivity. }
  assert (Hthrow : fst (main rt w) = Throw err) by now rewrite Hmain.
  assert (Hrun : run rt w =
    (ExistsSync (toolsRoot w) :: snd (loadMcpToolsJson rt w)
     ++ [ReaddirSync (toolsRoot w)] ++ map ConsoleError (failedLines err), 1%nat)).
  { rewrite (run_of_throw _ _ _ Hthrow), Hmain. cbn [fst snd].
    now rewrite <- app_comm_cons, <- app_assoc. }
  split; [exact Hrun|]. rewrite Hrun. cbn [fst].
  destruct (quiet_loadMcpToolsJson rt w) as [_ Q].
  destruct (silent_streams _ Q) as [Q1 Q2].
  change (ExistsSync (toolsRoot w) :: snd (loadMcpToolsJson rt w)
          ++ [ReaddirSync (toolsRoot w)] ++ map ConsoleError (failedLines err))
    with ([ExistsSync (toolsRoot w)] ++ snd (loadMcpToolsJson rt w)
          ++ [ReaddirSync (toolsRoot w)] ++ map ConsoleError (failedLines err)).
  rewrite !stdoutOf_app, !stderrOf_app, Q1, Q2. split; reflexivity.
Qed.

Lemma main_tools_not_a_directory_witness :
  snd (run exampleRuntime toolsFileWorld) = 1%nat /\
  stderrOf (fst (run exampleRuntime toolsFileWorld))
  = failedLines (fsError exampleRuntime "ENOTDIR: not a directory, scandir"
                   (lit "/work/docs/tools")).
Proof.
  assert (Hn : fs_lookup toolsFileWorld (toolsRoot toolsFileWorld)
               = Some (File (lit "not a directory"))) by (vm_compute; reflexivity).
  assert (Hl : fst (loadMcpToolsJson exampleRuntime toolsFileWorld) = Ok exampleManifest)
    by (vm_compute; reflexivity).
  pose proof (main_tools_not_a_directory exampleRuntime toolsFileWorld _ _ Hn eq_refl Hl)
    as H.
  cbv zeta in H. split.
  - rewrite (proj1 H). reflexivity.
  - exact (proj2 (proj2 H)).
Defined.

Lemma main_after_checks (rt : Runtime) (w : World) (m : value) (files missing : list str) :
  fs_lookup w (toolsRoot w) <> None ->
  fst (loadMcpToolsJson rt w) = Ok m ->
  fst (checkToolsCovered rt w (extractToolNames m) (toolsRoot w)) = Ok (files, missing) ->
  main rt w =
  after ([ExistsSync (toolsRoot w)] ++ snd (loadMcpToolsJson rt w)
         ++ snd (checkToolsCovered rt w (extractToolNames m) (toolsRoot w)))
    (bannedHits <- findBannedDomains rt w (cwd w) ;;
     reportOf w (extractToolNames m) missing bannedHits).
Proof.
  intros Ht Hl Hc. rewrite main_stages.
  destruct (fs_lookup w (toolsRoot w)); [|congruence].
  destruct (loadMcpToolsJson rt w) as [r1 t1]. cbn [fst snd] in Hl |- *. subst r1.
  rewrite bind_after.
  destruct (checkToolsCovered rt w (extractToolNames m) (toolsRoot w)) as [r2 t2].
  cbn [fst snd] in Hc |- *. subst r2.
  rewrite bind_after, !after_after. cbn [snd]. reflexivity.
Qed.

(** X16.  The stages of a run follow one another in the trace: the guard,
    the resolver, the coverage check, the scan and then the report.  The
    report is built only after the scan has returned, so a scan that fails
    on an unreadable file ends the run with that error alone: the missing
    names the coverage check has already found are not printed. *)
Theorem main_stage_order (rt : Runtime) (w : World) (m : value)
    (files missing : list str) :
  fs_lookup w (toolsRoot w) <> None ->
  fst (loadMcpToolsJson rt w) = Ok m ->
  fst (checkToolsCovered rt w (extractToolNames m) (toolsRoot w)) = Ok (files, missing) ->
  let io := [ExistsSync (toolsRoot w)] ++ snd (loadMcpToolsJson rt w)
            ++ snd (checkToolsCovered rt w (extractToolNames m) (toolsRoot w))
            ++ snd (findBannedDomains rt w (cwd w)) in
  silent io /\
  (forall bannedHits,
     fst (findBannedDomains rt w (cwd w)) = Ok bannedHits ->
     fst (run rt w) = io ++ snd (reportOf w (extractToolNames m) missing bannedHits)) /\
  (forall err,
     fst (findBannedDomains rt w (cwd w)) = Throw err ->
     run rt w = (io ++ map ConsoleError (failedLines err), 1%nat) /\
     stdoutOf (fst (run rt w)) = [] /\
     stderrOf (fst (run rt w)) = failedLines err).
Proof.
  intros Ht Hl Hc io.
  assert (Hio : silent io).
  { unfold io, silent. repeat (apply Forall_app; split).
    - repeat constructor.
    - apply quiet_loadMcpToolsJson.
    - apply quiet_checkToolsCovered.
    - apply quiet_findBannedDomains. }
  pose proof (main_after_checks rt w m files missing Ht Hl Hc) as Hmain.
  split; [exact Hio|]. split.
  - intros bannedHits Hf.
    assert (E : main rt w = after io (reportOf w (extractToolNames m) missing bannedHits)).
    { rewrite Hmain. destruct (findBannedDomains rt w (cwd w)) as [r t] eqn:Ef.
      cbn [fst] in Hf. subst r. rewrite bind_after, after_after.
      unfold io. cbn [snd]. now rewrite <- ?app_assoc. }
    now rewrite (run_of_report _ _ _ _ _ _ E).
  - intros err Hf.
    assert (E : main rt w = (Throw err, io)).
    { rewrite Hmain. destruct (findBannedDomains rt w (cwd w)) as [r t] eqn:Ef.
      cbn [fst] in Hf. subst r. unfold io, after. cbn [bind fst snd].
      f_equal. now rewrite <- !app_assoc. }
    assert (Hthrow : fst (main rt w) = Throw err) by now rewrite E.
    rewrite (run_of_throw _ _ _ Hthrow), E. cbn [fst snd].
    destruct (silent_streams _ Hio) as [Q1 Q2].
    rewrite stdoutOf_app, stderrOf_app, Q1, Q2.
    split; [reflexivity|]. split; [reflexivity|].
    cbn [app]. unfold failedLines, stderrOf. cbn [map flat_map app]. reflexivity.
Qed.

Lemma main_stage_order_witness :
  fst (checkToolsCovered exampleRuntime unreadableWorld
         (extractToolNames exampleManifest) (toolsRoot unreadableWorld))
  = Ok ([lit "/work/docs/tools/intro.mdx"], exampleNames) /\
  stderrOf (fst (run exampleRuntime unreadableWorld))
  = failedLines (fsError exampleRuntime "EACCES: permission denied, open"
                   (lit "/work/docs/README.md")).
Proof.
  assert (Ht : fs_lookup unreadableWorld (toolsRoot unreadableWorld) <> None)
    by (vm_compute; discriminate).
  assert (Hl : fst (loadMcpToolsJson exampleRuntime unreadableWorld) = Ok exampleManifest)
    by (vm_compute; reflexivity).
  assert (Hc : fst (checkToolsCovered exampleRuntime unreadableWorld
                      (extractToolNames exampleManifest) (toolsRoot unreadableWorld))
               = Ok ([lit "/work/docs/tools/intro.mdx"], exampleNames))
    by (vm_compute; reflexivity).
  assert (Hf : fst (findBannedDomains exampleRuntime unreadableWorld (cwd unreadableWorld))
               = Throw (fsError exampleRuntime "EACCES: permission denied, open"
                          (lit "/work/docs/README.md")))
    by (vm_compute; reflexivity).
  pose proof (main_stage_order exampleRuntime unreadableWorld _ _ _ Ht Hl Hc) as H.
  cbv zeta in H. split; [exact Hc|].
  exact (proj2 (proj2 (proj2 (proj2 H) _ Hf))).
Defined.

Lemma Canonicalize_ascii (rt rt' : Runtime) (x c : N) :
  c < 128 ->
  (Canonicalize rt true x =? Canonicalize rt true c)
  = (Canonicalize rt' true x =? Canonicalize rt' true c).
Proof.
  intros Hc. destruct (N.lt_ge_cases x 128) as [Hx | Hx].
  - unfold Canonicalize. cbn [negb].
    apply N.ltb_lt in Hx, Hc. now rewrite Hx, Hc.
  - pose proof (Canonicalize_low rt c Hc). pose proof (Canonicalize_low rt' c Hc).
    pose proof (Canonicalize_high rt x Hx). pose proof (Canonicalize_high rt' x Hx).
    transitivity false; [|symmetry]; apply N.eqb_neq; lia.
Qed.

Lemma stripName_ascii (rt rt' : Runtime) (name : str) :
  isAscii name -> forall s, stripName rt name s = stripName rt' name s.
Proof.
  induction 1 as [|c name Hc Hname IH]; intros s; [reflexivity|].
  destruct s as [|x s]; [reflexivity|]. cbn [stripName].
  rewrite (Canonicalize_ascii rt rt' x c Hc), IH. reflexivity.
Qed.

Lemma searchFrom_ext (rt rt' : Runtime) (ic : bool) (r : regex) (s : str) :
  (forall j post, matchAt rt ic r j post (fun _ _ => true)
                  = matchAt rt' ic r j post (fun _ _ => true)) ->
  forall i, searchFrom rt ic r i s = searchFrom rt' ic r i s.
Proof.
  intros H. induction s as [|x s IH]; intros i; cbn [searchFrom]; rewrite H.
  - reflexivity.
  - now rewrite IH.
Qed.

Lemma existsb_pointwise {A} (f g : A -> bool) (l : list A) :
  (forall x, f x = g x) -> existsb f l = existsb g l.
Proof. intros H. induction l as [|x l IH]; cbn [existsb]; [reflexivity | now rewrite H, IH]. Qed.

Lemma uncovered_ascii (rt rt' : Runtime) (texts : list str) (name : str) :
  isAscii name -> uncovered rt texts name = uncovered rt' texts name.
Proof.
  intros Hn. unfold uncovered. f_equal. apply existsb_pointwise.
  intros txt. unfold test. cbn [ignoreCase source]. apply searchFrom_ext.
  intros j post. rewrite !matchAt_toolRegex. unfold occursAtHead.
  rewrite (stripName_ascii rt rt' name Hn post).
  destruct post as [|x post']; [reflexivity|].
  now rewrite (stripName_ascii rt rt' name Hn post').
Qed.

Lemma fst_readAll (rt : Runtime) (w : World) (files texts : list str) :
  Forall2 (fun f txt => fs_lookup w f = Some (File txt)) files texts ->
  fst (mapM (fun f => text <- readText rt w f ;; ret (f, text)) files)
  = Ok (combine files texts).
Proof.
  induction 1 as [|f txt files texts Hf Hrest IH]; [reflexivity|].
  cbn [mapM combine]. apply (readText_Ok rt) in Hf.
  rewrite !fst_bind, Hf. cbn [ret fst]. rewrite fst_bind, IH. reflexivity.
Qed.

Lemma map_snd_combine {A B} (l1 : list A) (l2 : list B) :
  length l1 = length l2 -> map snd (combine l1 l2) = l2.
Proof.
  revert l2. induction l1 as [|a l1 IH]; intros [|b l2] H; try discriminate; [reflexivity|].
  cbn [combine map snd]. f_equal. apply IH. now injection H.
Qed.

Lemma checkToolsCovered_of_filter (rt : Runtime) (w : World) (toolNames : list str)
    (toolsDocsRoot : str) (toolFiles texts : list str) :
  fst (walkFiles rt w toolsDocsRoot isMdx) = Ok toolFiles ->
  Forall2 (fun f txt => fs_lookup w f = Some (File txt)) toolFiles texts ->
  fst (checkToolsCovered rt w toolNames toolsDocsRoot)
  = Ok (toolFiles, filter (uncovered rt texts) toolNames).
Proof.
  intros Hwalk Hread. unfold checkToolsCovered.
  rewrite fst_bind, Hwalk, fst_bind, (fst_readAll rt w _ _ Hread).
  rewrite collectMissing_spec, fst_bind. cbn [ret fst app].
  now rewrite (map_snd_combine _ _ (Forall2_length Hread)).
Qed.

Lemma walkFiles_any_runtime (rt rt' : Runtime) (w : World) (dir : str)
    (predicate : str -> bool) (files : list str) :
  fst (walkFiles rt w dir predicate) = Ok files ->
  fst (walkFiles rt' w dir predicate) = Ok files.
Proof.
  intros H. destruct (walkFiles_Ok _ _ _ _ _ H) as (ents & Hdir & _).
  rewrite (walkFiles_Found rt _ _ _ _ Hdir) in H.
  rewrite (walkFiles_Found rt' _ _ _ _ Hdir).
  rewrite walkNode_Dir, fst_bind, walkEntries_preorder in H |- *. exact H.
Qed.

(** X17.  For tool names made of ASCII code units the coverage verdict does
    not depend on the engine: whatever upper-case table the engine has for
    the other code units, the same files are listed and the same names are
    missing. *)
Theorem checkToolsCovered_ascii_any_engine (rt rt' : Runtime) (w : World)
    (toolNames : list str) (toolsDocsRoot : str) (toolFiles missing : list str) :
  Forall isAscii toolNames ->
  fst (checkToolsCovered rt w toolNames toolsDocsRoot) = Ok (toolFiles, missing) ->
  fst (checkToolsCovered rt' w toolNames toolsDocsRoot) = Ok (toolFiles, missing).
Proof.
  intros Hascii H.
  apply checkToolsCovered_filter in H as (texts & Hwalk & Hread & ->).
  rewrite (checkToolsCovered_of_filter rt' w toolNames toolsDocsRoot toolFiles texts
             (walkFiles_any_runtime rt rt' _ _ _ _ Hwalk) Hread).
  do 2 f_equal. apply filter_ext_in. intros name Hin.
  rewrite Forall_forall in Hascii. symmetry. apply uncovered_ascii. now apply Hascii.
Qed.

Lemma checkToolsCovered_ascii_any_engine_witness :
  Forall isAscii exampleNames /\
  toUpperCase exampleRuntime 233 <> toUpperCase shiftedRuntime 233 /\
  fst (checkToolsCovered shiftedRuntime accentWorld exampleNames exampleToolsRoot)
  = Ok ([lit "/work/docs/tools/search.mdx"], [lit "list_campaigns"]).
Proof.
  assert (Ha : Forall isAscii exampleNames).
  { repeat constructor. }
  assert (H : fst (checkToolsCovered exampleRuntime accentWorld exampleNames
                     exampleToolsRoot)
              = Ok ([lit "/work/docs/tools/search.mdx"], [lit "list_campaigns"]))
    by (vm_compute; reflexivity).
  split; [exact Ha|]. split; [vm_compute; discriminate|].
  exact (checkToolsCovered_ascii_any_engine exampleRuntime shiftedRuntime accentWorld
           exampleNames exampleToolsRoot _ _ Ha H).
Defined.


(** ** Reported paths *)























(** ** Network use *)

Lemma requestsOf_app (a b : list event) :
  requestsOf (a ++ b) = requestsOf a ++ requestsOf b.
Proof. apply flat_map_app. Qed.

Lemma offline_bind {A B} (m : M A) (f : A -> M B) :
  (forall a, offline (f a)) -> requestsOf (snd (bind m f)) = requestsOf (snd m).
Proof.
  intros Hf. rewrite snd_bind, requestsOf_app.
  destruct (fst m) as [a | e | c]; [rewrite (Hf a)|..]; cbn [requestsOf flat_map];
    apply app_nil_r.
Qed.

Lemma offline_step {A B} (m : M A) (f : A -> M B) :
  offline m -> (forall a, offline (f a)) -> offline (bind m f).
Proof. intros Hm Hf. unfold offline. now rewrite offline_bind. Qed.

Lemma offline_readText (rt : Runtime) (w : World) (p : str) : offline (readText rt w p).
Proof. unfold offline. now rewrite snd_readText. Qed.

Lemma offline_walkFiles (rt : Runtime) (w : World) (dir : str) (predicate : str -> bool) :
  offline (walkFiles rt w dir predicate).
Proof.
  unfold offline, walkFiles.
  destruct (fs_resolve w dir) as [[text | | ents] | |]; try reflexivity.
  rewrite walkNode_Dir, walkEntries_preorder. cbn [emit bind snd app].
  change (ReaddirSync dir :: ?l) with ([ReaddirSync dir] ++ l).
  generalize (map fst (filter isDirEntry (flattenEntries dir ents))). intros l.
  cbn [requestsOf flat_map app]. induction l as [|p l IH]; [reflexivity | exact IH].
Qed.

Lemma offline_scanFiles (rt : Runtime) (w : World) (files : list str) :
  offline (scanFiles rt w files).
Proof.
  induction files as [|f files IH]; cbn [scanFiles]; [reflexivity|].
  apply offline_step; [apply offline_readText|]. intros txt.
  apply offline_step; [exact IH|]. reflexivity.
Qed.

Lemma offline_findBannedDomains (rt : Runtime) (w : World) (repoRoot : str) :
  offline (findBannedDomains rt w repoRoot).
Proof.
  unfold findBannedDomains. apply offline_step; [apply offline_walkFiles|].
  intros files. apply offline_scanFiles.
Qed.

Lemma offline_checkToolsCovered (rt : Runtime) (w : World) (toolNames : list str)
    (dir : str) :
  offline (checkToolsCovered rt w toolNames dir).
Proof.
  unfold checkToolsCovered. apply offline_step; [apply offline_walkFiles|].
  intros files. apply offline_step.
  - induction files as [|f files IH]; cbn [mapM]; [reflexivity|].
    apply offline_step.
    + apply offline_step; [apply offline_readText | reflexivity].
    + intros entry. apply offline_step; [exact IH | reflexivity].
  - intros corpus. rewrite collectMissing_spec. reflexivity.
Qed.

Lemma offline_reportOf (w : World) (toolNames missing : list str) (bannedHits : list hit) :
  offline (reportOf w toolNames missing bannedHits).
Proof.
  unfold offline.
  destruct (reportOf_console w toolNames missing bannedHits) as [H _].
  induction H as [|e t He Ht IH]; [reflexivity|].
  cbn [requestsOf flat_map]. fold (requestsOf t). rewrite IH.
  destruct e; try reflexivity; discriminate.
Qed.

Lemma requestsOf_run (rt : Runtime) (w : World) :
  requestsOf (fst (run rt w)) = requestsOf (snd (main rt w)).
Proof.
  unfold run. destruct (main rt w) as [[u | err | code] t]; cbn [fst snd]; try reflexivity.
  rewrite requestsOf_app. apply app_nil_r.
Qed.

Lemma requestsOf_loadMcpToolsJson (rt : Runtime) (w : World) :
  requestsOf (snd (loadMcpToolsJson rt w)) =
  match fs_lookup w (siblingPath w) with
  | None =>
      if negb (nonEmpty (envPathOf w)) && nonEmpty (urlOf w)
      then [fetchRequest w (urlOf w)] else []
  | Some _ => []
  end.
Proof.
  rewrite loadMcpToolsJson_cases.
  destruct (nonEmpty (envPathOf w)); cbn [negb andb].
  { rewrite snd_readJson. now destruct (fs_lookup w (siblingPath w)). }
  destruct (fs_lookup w (siblingPath w)).
  { now rewrite snd_after, snd_readJson. }
  destruct (nonEmpty (urlOf w)).
  { now rewrite snd_after, snd_fetchJson. }
  destruct (fs_lookup w (vendoredPath w)); [|reflexivity].
  now rewrite snd_after, snd_readJson.
Qed.

(** X19.  A run touches the network at most once, and only to resolve the
    manifest: it sends the one request of the fetch exactly when the tools
    entry exists, no override path is set, no sibling manifest exists and
    [MCP_TOOLS_JSON_URL] is set; otherwise it sends none.  The guard, the
    coverage check, the scan and the report never send a request, and a
    failed fetch is not repeated. *)
Theorem run_requests (rt : Runtime) (w : World) :
  requestsOf (fst (run rt w)) =
  match fs_lookup w (toolsRoot w), fs_lookup w (siblingPath w) with
  | Some _, None =>
      if negb (nonEmpty (envPathOf w)) && nonEmpty (urlOf w)
      then [fetchRequest w (urlOf w)] else []
  | _, _ => []
  end.
Proof.
  rewrite requestsOf_run, main_stages.
  destruct (fs_lookup w (toolsRoot w)) as [n|]; [|reflexivity].
  rewrite snd_after, requestsOf_app. cbn [requestsOf flat_map app].
  fold (requestsOf (snd (mcpToolsJson <- loadMcpToolsJson rt w ;;
     covered <- checkToolsCovered rt w (extractToolNames mcpToolsJson) (toolsRoot w) ;;
     bannedHits <- findBannedDomains rt w (cwd w) ;;
     reportOf w (extractToolNames mcpToolsJson) (snd covered) bannedHits))).
  rewrite offline_bind.
  - rewrite requestsOf_loadMcpToolsJson.
    now destruct (fs_lookup w (siblingPath w)).
  - intros m. apply offline_step; [apply offline_checkToolsCovered|].
    intros covered. apply offline_step; [apply offline_findBannedDomains|].
    intros bannedHits. apply offline_reportOf.
Qed.
